(** * epater: the ARM simulator core (procsimulator.py) and the
      half-word / signed transfer decoder (simulatorOps/halfSignedMemOp.py)

    A shallow embedding of the Python sources.  Python integers are [Z]
    (unbounded, with two's-complement bit operations), byte buffers are
    [list byte], dictionaries are association lists in insertion order,
    and the one breakpoint handler that every register, flag and the
    memory share is a single field of the simulator state that every
    operation threads explicitly. *)

From Stdlib Require Import ZArith List String Bool Lia Permutation Sorted.
From Stdlib.Strings Require Import Byte.
From stdpp Require Import base list strings.
Import ListNotations.
Local Open Scope string_scope.
Local Open Scope list_scope.
Local Open Scope Z_scope.

(** ** Python runtime notions *)

Module Py.

(** The exceptions the modelled code can raise. [DecodeError] stands for
    whatever the external decoder raises on a word it rejects. *)
Inductive exn : Type :=
| TypeError | KeyError | IndexError | ValueError | StructError
| AttributeError | AssertionError | ExecutionException | DecodeError.

Inductive outcome (A : Type) : Type :=
| Ret (a : A)
| Raise (e : exn).
Arguments Ret {A} a.
Arguments Raise {A} e.

(** A computation over a mutable state [S] that may raise: mutations made
    before the exception persist. *)
Definition M (S A : Type) : Type := S -> outcome A * S.

Definition ret {S A} (a : A) : M S A := fun s => (Ret a, s).
Definition raise {S A} (e : exn) : M S A := fun s => (Raise e, s).
Definition bind {S A B} (c : M S A) (k : A -> M S B) : M S B :=
  fun s => match c s with
           | (Ret a, s') => k a s'
           | (Raise e, s') => (Raise e, s')
           end.
Definition gets {S A} (f : S -> A) : M S A := fun s => (Ret (f s), s).
Definition modify {S} (f : S -> S) : M S unit := fun s => (Ret tt, f s).
Definition lift {S A} (o : outcome A) : M S A := fun s => (o, s).

(** Dictionaries keep insertion order; [d[k]] raises KeyError on a miss. *)
Definition dict (V : Type) : Type := list (string * V).

Fixpoint dict_get {V} (d : dict V) (k : string) : option V :=
  match d with
  | [] => None
  | (k', v) :: d' => if String.eqb k k' then Some v else dict_get d' k
  end.

Definition dict_keys {V} (d : dict V) : list string := map fst d.
Definition dict_values {V} (d : dict V) : list V := map snd d.

Definition getitem {V} (d : dict V) (k : string) : outcome V :=
  match dict_get d k with
  | Some v => Ret v
  | None => Raise KeyError
  end.

(** [l[i]] on a list: negative indices count from the end. *)
Definition index {A} (l : list A) (i : Z) : option nat :=
  let n := Z.of_nat (length l) in
  if (0 <=? i) && (i <? n) then Some (Z.to_nat i)
  else if (- n <=? i) && (i <? 0) then Some (Z.to_nat (i + n))
  else None.

(** Slice bounds: a negative bound counts from the end, then both are
    clamped to [0, len]. *)
Definition clamp (len i : Z) : Z :=
  Z.max 0 (Z.min len (if i <? 0 then i + len else i)).

Definition slice {A} (l : list A) (lo hi : Z) : list A :=
  let n := Z.of_nat (length l) in
  let a := clamp n lo in
  let b := clamp n hi in
  firstn (Z.to_nat (b - a)) (skipn (Z.to_nat a) l).

(** The right-hand side of a slice assignment. *)
Inductive obj : Type :=
| Int (z : Z)
| Bytes (b : list byte).

(** [buf[lo:hi] = v] on a bytearray.  CPython accepts bytes, buffers and
    iterables of small ints; a number is rejected with TypeError
    ("can assign only bytes, buffers, or iterables of ints in
    range(0, 256)"). *)
Definition bytearray_setslice (buf : list byte) (lo hi : Z) (v : obj)
  : outcome (list byte) :=
  match v with
  | Int _ => Raise TypeError
  | Bytes b =>
      let n := Z.of_nat (length buf) in
      let a := clamp n lo in
      let e := Z.max a (clamp n hi) in
      Ret (firstn (Z.to_nat a) buf ++ b ++ skipn (Z.to_nat e) buf)
  end.

(** [x >> n] and [x << n] raise ValueError on a negative count. *)
Definition shr (x n : Z) : outcome Z :=
  if n <? 0 then Raise ValueError else Ret (Z.shiftr x n).
Definition shl (x n : Z) : outcome Z :=
  if n <? 0 then Raise ValueError else Ret (Z.shiftl x n).

(** ['\0' * n]: empty when n <= 0. *)
Definition zeros (n : Z) : list byte := replicate (Z.to_nat n) x00.

(** Unsigned little-endian value of a byte string. *)
Fixpoint le_value (b : list byte) : Z :=
  match b with
  | [] => 0
  | x :: b' => Z.of_N (Byte.to_N x) + 256 * le_value b'
  end.

(** [struct.unpack(fmt, m)[0]] for the unsigned little-endian formats
    "<B", "<H" and "<I": the buffer must have exactly the format's size. *)
Definition fmt_size (fmt : string) : option Z :=
  if String.eqb fmt "<B" then Some 1
  else if String.eqb fmt "<H" then Some 2
  else if String.eqb fmt "<I" then Some 4
  else None.

Definition struct_unpack (fmt : string) (m : list byte) : outcome Z :=
  match fmt_size fmt with
  | Some n => if Z.of_nat (length m) =? n then Ret (le_value m)
              else Raise StructError
  | None => Raise StructError
  end.

(** [max(xs)]: ValueError on an empty sequence. *)
Definition max (xs : list Z) : outcome Z :=
  match xs with
  | [] => Raise ValueError
  | x :: xs' => Ret (fold_left Z.max xs' x)
  end.

(** [sorted(items, key=operator.itemgetter(1))]: a stable sort by the
    second component.  A stable sort has one possible result, computed
    here by stable insertion. *)
Fixpoint insert_by_value (x : string * Z) (l : list (string * Z))
  : list (string * Z) :=
  match l with
  | [] => [x]
  | y :: l' => if snd x <=? snd y then x :: y :: l'
               else y :: insert_by_value x l'
  end.

Fixpoint sorted_by_value (l : list (string * Z)) : list (string * Z) :=
  match l with
  | [] => []
  | x :: l' => insert_by_value x (sorted_by_value l')
  end.

End Py.

Import Py.

Declare Scope py_scope.
Delimit Scope py_scope with py.
Notation "'let*' x ':=' c 'in' k" := (bind c (fun x => k))
  (at level 10, x name, c at level 100, k at level 200) : py_scope.
Notation "'let*' ' p ':=' c 'in' k" := (bind c (fun x => match x with p => k end))
  (at level 10, p pattern, c at level 100, k at level 200) : py_scope.
Local Open Scope py_scope.

(** ** Breakpoint handler (class BreakPointHandler) *)

(** [BkptInfo(source, mode, infos)]: [infos] is a register number or an
    address for the register and memory sources, a flag name for flags. *)
Inductive BkptInfos : Type :=
| InfoInt (n : Z)
| InfoName (s : string).

Record BkptInfo : Type := mkBkptInfo {
  source : string;
  mode : Z;
  infos : BkptInfos
}.

Module BreakPointHandler.

Record t : Type := mk {
  breakpointTrigged : bool;
  breakpointInfo : option BkptInfo
}.

Definition reset (h : t) : t :=
  {| breakpointTrigged := false; breakpointInfo := None |}.

Definition throw (i : BkptInfo) (h : t) : t :=
  {| breakpointTrigged := true; breakpointInfo := Some i |}.

End BreakPointHandler.

(** [x & k] used as a truth value. *)
Definition truthy (x : Z) : bool := negb (x =? 0).

(** ** Registers (class Register) *)

Module Register.

Record t : Type := mk {
  id : Z;
  val : Z;
  altname : option string;
  history : list Z;
  breakpoint : Z
}.

Definition get (r : t) (mayTriggerBkpt : bool) (h : BreakPointHandler.t)
  : Z * BreakPointHandler.t :=
  let h' := if mayTriggerBkpt && truthy (Z.land (breakpoint r) 4)
            then BreakPointHandler.throw (mkBkptInfo "register" 4 (InfoInt (id r))) h
            else h in
  (val r, h').

Definition set (r : t) (v : Z) (mayTriggerBkpt : bool) (h : BreakPointHandler.t)
  : t * BreakPointHandler.t :=
  let v := Z.land v 0xFFFFFFFF in
  let h' := if mayTriggerBkpt && truthy (Z.land (breakpoint r) 2)
            then BreakPointHandler.throw (mkBkptInfo "register" 2 (InfoInt (id r))) h
            else h in
  ({| id := id r; val := v; altname := altname r;
      history := history r ++ [v]; breakpoint := breakpoint r |}, h').

End Register.

(** ** Flags (class Flag) *)

Module Flag.

Record t : Type := mk {
  name : string;
  val : bool;
  breakpoint : Z
}.

Definition get (f : t) (mayTriggerBkpt : bool) (h : BreakPointHandler.t)
  : bool * BreakPointHandler.t :=
  let h' := if mayTriggerBkpt && truthy (Z.land (breakpoint f) 4)
            then BreakPointHandler.throw (mkBkptInfo "flag" 4 (InfoName (name f))) h
            else h in
  (val f, h').

(** [__bool__] is [get()]. *)
Definition bool_ (f : t) (h : BreakPointHandler.t) : bool * BreakPointHandler.t :=
  get f true h.

(** [__eq__] against another flag compares the stored values directly,
    without going through [get]. *)
Definition eq (f g : t) : bool := Bool.eqb (val f) (val g).

Definition set (f : t) (v : bool) (mayTriggerBkpt : bool) (h : BreakPointHandler.t)
  : t * BreakPointHandler.t :=
  let h' := if mayTriggerBkpt && truthy (Z.land (breakpoint f) 2)
            then BreakPointHandler.throw (mkBkptInfo "flag" 2 (InfoName (name f))) h
            else h in
  ({| name := name f; val := v; breakpoint := breakpoint f |}, h').

End Flag.

(** ** Sectioned memory (class Memory) *)

(** [range(n)] *)
Definition range (n : Z) : list Z := map Z.of_nat (seq 0 (Z.to_nat n)).

(** [d[k] = v] on a dictionary: replaces in place, or appends a new key. *)
Fixpoint dict_set {V} (d : dict V) (k : string) (v : V) : dict V :=
  match d with
  | [] => [(k, v)]
  | (k', v') :: d' => if String.eqb k k' then (k', v) :: d'
                      else (k', v') :: dict_set d' k v
  end.

Module Memory.

(** The fields the methods below read or write.  [breakpoints] is a
    [defaultdict(int)]: every address has a mask, 0 unless set.  The
    handler [self.bkpt] is the simulator's shared one and is passed in. *)
Record t : Type := mk {
  history : list (string * Z * Z * Z);
  startAddr : dict Z;
  endAddr : dict Z;
  maxAddr : Z;
  data : dict (list byte);
  breakpoints : Z -> Z
}.

Definition with_history (hist : list (string * Z * Z * Z)) (m : t) : t :=
  {| history := hist; startAddr := startAddr m; endAddr := endAddr m;
     maxAddr := maxAddr m; data := data m; breakpoints := breakpoints m |}.

Definition with_data (d : dict (list byte)) (m : t) : t :=
  {| history := history m; startAddr := startAddr m; endAddr := endAddr m;
     maxAddr := maxAddr m; data := d; breakpoints := breakpoints m |}.

Definition with_breakpoints (b : Z -> Z) (m : t) : t :=
  {| history := history m; startAddr := startAddr m; endAddr := endAddr m;
     maxAddr := maxAddr m; data := data m; breakpoints := b |}.

(** The loop of [_getRelativeAddr] over [self.startAddr.keys()].  In the
    chained comparison [start <= addr < end - (size-1)] the right-hand
    operand is only evaluated when the left comparison holds. *)
Fixpoint findSection (m : t) (addr size : Z) (keys : list string)
  : outcome (option (string * Z)) :=
  match keys with
  | [] => Ret None
  | sec :: rest =>
      match getitem (startAddr m) sec with
      | Raise e => Raise e
      | Ret s =>
          if s <=? addr then
            match getitem (endAddr m) sec with
            | Raise e => Raise e
            | Ret e =>
                if addr <? e - (size - 1) then Ret (Some (sec, addr - s))
                else findSection m addr size rest
            end
          else findSection m addr size rest
      end
  end.

Definition _getRelativeAddr (m : t) (addr size : Z)
  : outcome (option (string * Z)) :=
  if (addr <? 0) || (addr >? maxAddr m - (size - 1)) then Ret None
  else findSection m addr size (dict_keys (startAddr m)).

Definition memInfo (mode : Z) (addr : Z) : BkptInfo :=
  mkBkptInfo "memory" mode (InfoInt addr).

(** The per-byte breakpoint loop of [get]. *)
Definition readBkpts (m : t) (addr size : Z) (execMode : bool)
           (h : BreakPointHandler.t) : BreakPointHandler.t :=
  fold_left
    (fun h offset =>
       let h1 := if execMode && truthy (Z.land (breakpoints m (addr + offset)) 1)
                 then BreakPointHandler.throw (memInfo 1 (addr + offset)) h
                 else h in
       if truthy (Z.land (breakpoints m (addr + offset)) 4)
       then BreakPointHandler.throw (memInfo 4 (addr + offset)) h1
       else h1)
    (range size) h.

(** The per-byte breakpoint loop of [set]. *)
Definition writeBkpts (m : t) (addr size : Z) (h : BreakPointHandler.t)
  : BreakPointHandler.t :=
  fold_left
    (fun h offset =>
       if truthy (Z.land (breakpoints m (addr + offset)) 2)
       then BreakPointHandler.throw (memInfo 2 (addr + offset)) h
       else h)
    (range size) h.

(** [get(addr, size, execMode)]: [Ret None] is Python's [None]. *)
Definition get (m : t) (addr size : Z) (execMode : bool)
           (h : BreakPointHandler.t)
  : outcome (option (list byte)) * BreakPointHandler.t :=
  match _getRelativeAddr m addr size with
  | Raise e => (Raise e, h)
  | Ret None => (Ret None, BreakPointHandler.throw (memInfo 8 addr) h)
  | Ret (Some (sec, offset)) =>
      let h' := readBkpts m addr size execMode h in
      match getitem (data m) sec with
      | Raise e => (Raise e, h')
      | Ret buf => (Ret (Some (slice buf offset (offset + size))), h')
      end
  end.

(** [set(addr, val, size)].  The log entry is appended before the slice
    assignment, whose right-hand side is the integer [val] itself. *)
Definition set (m : t) (addr val size : Z) (h : BreakPointHandler.t)
  : outcome unit * t * BreakPointHandler.t :=
  match _getRelativeAddr m addr size with
  | Raise e => (Raise e, m, h)
  | Ret None => (Ret tt, m, BreakPointHandler.throw (memInfo 8 addr) h)
  | Ret (Some (sec, offset)) =>
      let h' := writeBkpts m addr size h in
      let val := Z.land val 0xFFFFFFFF in
      let m1 := with_history (history m ++ [(sec, offset, size, val)]) m in
      match getitem (data m1) sec with
      | Raise e => (Raise e, m1, h')
      | Ret buf =>
          match bytearray_setslice buf offset (offset + size) (Int val) with
          | Raise e => (Raise e, m1, h')
          | Ret buf' => (Ret tt, with_data (dict_set (data m1) sec buf') m1, h')
          end
      end
  end.

(** One iteration of the loop of [serialize]. *)
Definition emit (m : t) (ret_val : list byte) (item : string * Z)
  : outcome (list byte) :=
  let '(sec, start) := item in
  let ret1 := ret_val ++ zeros (start - Z.of_nat (length ret_val)) in
  match getitem (data m) sec with
  | Raise e => Raise e
  | Ret buf =>
      let ret2 := ret1 ++ buf in
      match getitem (endAddr m) sec with
      | Raise e => Raise e
      | Ret e => Ret (ret2 ++ zeros (e - start - Z.of_nat (length buf)))
      end
  end.

Fixpoint emitAll (m : t) (ret_val : list byte) (items : list (string * Z))
  : outcome (list byte) :=
  match items with
  | [] => Ret ret_val
  | item :: rest =>
      match emit m ret_val item with
      | Raise e => Raise e
      | Ret r => emitAll m r rest
      end
  end.

Definition serialize (m : t) : outcome (list byte) :=
  emitAll m [] (sorted_by_value (startAddr m)).

(** [__init__(memcontent, breakpointHandler)].  [memcontent] maps segment
    names to their initial bytes and holds the two layout dictionaries
    under the reserved keys [__MEMINFOSTART] and [__MEMINFOEND]; the three
    parts are separate arguments here.  [size], [initval] and [initdata]
    are set by the constructor and read by no method. *)
Fixpoint copyBuffers (memcontent : dict (list byte)) (keys : list string)
  : outcome (dict (list byte)) :=
  match keys with
  | [] => Ret []
  | k :: rest =>
      match getitem memcontent k with
      | Raise e => Raise e
      | Ret b =>
          match copyBuffers memcontent rest with
          | Raise e => Raise e
          | Ret d => Ret ((k, b) :: d)
          end
      end
  end.

Definition init (memcontent : dict (list byte)) (start end_ : dict Z)
  : outcome t :=
  match Py.max (dict_values end_) with
  | Raise e => Raise e
  | Ret maxAddr =>
      if negb (Nat.eqb (length start) (length end_)) then Raise AssertionError
      else
        match copyBuffers memcontent (dict_keys start) with
        | Raise e => Raise e
        | Ret data => Ret (mk [] start end_ maxAddr data (fun _ => 0))
        end
  end.

Definition setBreakpoint (m : t) (addr modeOctal : Z) : t :=
  with_breakpoints (fun a => if a =? addr then modeOctal else breakpoints m a) m.

Definition removeBreakpoint (m : t) (addr : Z) : t :=
  with_breakpoints (fun a => if a =? addr then 0 else breakpoints m a) m.

End Memory.

(** ** Decoded instructions

    [BytecodeToInstrInfos] (module [instruction]) returns a tuple
    [(t, regs, cond, misc)]: [t] selects the class, [cond] is the
    condition mnemonic as a string, and [misc] is a bag of fields whose
    keys depend on the class.  The bag is a record per class here; a
    field that holds either an immediate or a register tuple, discriminated
    by [misc['imm']], is a two-constructor type.  The mnemonics are the
    sixteen of the data model: EQ, NE, CS, CC, MI, PL, VS, VC, HI, LS, GE,
    LT, GT, LE, AL, NV. *)

(** A shift description [(kind, 'imm' | 'reg', amount-or-register)]. *)
Definition ShiftInfo : Type := (string * string * Z)%type.

Inductive MemOffset : Type :=
| OffsetImm (offset : Z)                       (* misc['imm'] true *)
| OffsetReg (rm : Z) (shift : ShiftInfo).      (* misc['imm'] false *)

Inductive Operand2 : Type :=
| Op2Imm (value : Z) (shift : ShiftInfo)       (* misc['imm'] true *)
| Op2Reg (rm : Z) (shift : ShiftInfo).         (* misc['imm'] false *)

Record BranchMisc : Type := mkBranch {
  br_L : bool;
  br_mode : string;
  br_offset : Z
}.

Record MemMisc : Type := mkMem {
  mo_base : Z;
  mo_offset : MemOffset;
  mo_sign : Z;
  mo_pre : bool;
  mo_mode : string;
  mo_byte : bool;
  mo_rd : Z;
  mo_writeback : bool
}.

Record DataMisc : Type := mkData {
  do_rn : Z;
  do_op2 : Operand2;
  do_rd : Z;
  do_opcode : string;
  do_setflags : bool
}.

Inductive Instr : Type :=
| Branch (misc : BranchMisc)      (* t == InstrType.branch *)
| MemOp (misc : MemMisc)          (* t == InstrType.memop *)
| DataOp (misc : DataMisc)        (* t == InstrType.dataop *)
| OtherInstr.                     (* any other class: no branch of execInstr applies *)

Record Decoded : Type := mkDecoded {
  instr : Instr;
  cond : string
}.

(** ** The simulator (class Simulator) *)

Inductive SimState : Type :=
| undefined | uninitialized | ready | started | stopped | finished.

(** The keys of [self.flags]. *)
Inductive FlagName : Type := FZ | FV | FC | FN.

Definition FlagName_eqb (a b : FlagName) : bool :=
  match a, b with
  | FZ, FZ | FV, FV | FC, FC | FN, FN => true
  | _, _ => false
  end.

(** [workingFlags]: a dictionary filled during a data operation; iteration
    follows insertion order, and re-assigning a key keeps its position. *)
Fixpoint wf_set (w : list (FlagName * bool)) (k : FlagName) (v : bool)
  : list (FlagName * bool) :=
  match w with
  | [] => [(k, v)]
  | (k', v') :: w' => if FlagName_eqb k k' then (k', v) :: w'
                      else (k', v') :: wf_set w' k v
  end.

Definition b2z (b : bool) : Z := if b then 1 else 0.

Definition opcode_in (op : string) (l : list string) : bool :=
  existsb (String.eqb op) l.

Module Simulator.

(** [countCycle] is only created by [reset]; [None] is "attribute not
    yet set". *)
Record t : Type := mk {
  state : SimState;
  breakpointHandler : BreakPointHandler.t;
  mem : Memory.t;
  regs : list Register.t;
  stepMode : option string;
  stepCondition : Z;
  flags : FlagName -> Flag.t;
  fetchedInstr : option (list byte);
  countCycle : option Z
}.

Definition with_state (x : SimState) (s : t) : t :=
  mk x (breakpointHandler s) (mem s) (regs s) (stepMode s) (stepCondition s)
     (flags s) (fetchedInstr s) (countCycle s).
Definition with_bkpt (x : BreakPointHandler.t) (s : t) : t :=
  mk (state s) x (mem s) (regs s) (stepMode s) (stepCondition s)
     (flags s) (fetchedInstr s) (countCycle s).
Definition with_mem (x : Memory.t) (s : t) : t :=
  mk (state s) (breakpointHandler s) x (regs s) (stepMode s) (stepCondition s)
     (flags s) (fetchedInstr s) (countCycle s).
Definition with_regs (x : list Register.t) (s : t) : t :=
  mk (state s) (breakpointHandler s) (mem s) x (stepMode s) (stepCondition s)
     (flags s) (fetchedInstr s) (countCycle s).
Definition with_stepMode (x : option string) (s : t) : t :=
  mk (state s) (breakpointHandler s) (mem s) (regs s) x (stepCondition s)
     (flags s) (fetchedInstr s) (countCycle s).
Definition with_stepCondition (x : Z) (s : t) : t :=
  mk (state s) (breakpointHandler s) (mem s) (regs s) (stepMode s) x
     (flags s) (fetchedInstr s) (countCycle s).
Definition with_flags (x : FlagName -> Flag.t) (s : t) : t :=
  mk (state s) (breakpointHandler s) (mem s) (regs s) (stepMode s) (stepCondition s)
     x (fetchedInstr s) (countCycle s).
Definition with_fetchedInstr (x : option (list byte)) (s : t) : t :=
  mk (state s) (breakpointHandler s) (mem s) (regs s) (stepMode s) (stepCondition s)
     (flags s) x (countCycle s).
Definition with_countCycle (x : option Z) (s : t) : t :=
  mk (state s) (breakpointHandler s) (mem s) (regs s) (stepMode s) (stepCondition s)
     (flags s) (fetchedInstr s) x.

(** *** Access to the component objects *)

(** [self.regs[i]]: the position of the register object, or IndexError. *)
Definition regObj (i : Z) : M t nat :=
  fun s => match index (regs s) i with
           | Some k => (Ret k, s)
           | None => (Raise IndexError, s)
           end.

(** [r.get()] on the register at position [k]. *)
Definition regGetAt (k : nat) : M t Z :=
  fun s => match regs s !! k with
           | Some r =>
               let '(v, h) := Register.get r true (breakpointHandler s) in
               (Ret v, with_bkpt h s)
           | None => (Raise IndexError, s)
           end.

(** [r.set(v)] on the register at position [k]. *)
Definition regSetAt (k : nat) (v : Z) : M t unit :=
  fun s => match regs s !! k with
           | Some r =>
               let '(r', h) := Register.set r v true (breakpointHandler s) in
               (Ret tt, with_regs (<[k := r']> (regs s)) (with_bkpt h s))
           | None => (Raise IndexError, s)
           end.

(** [self.regs[i].get()] *)
Definition regGet (i : Z) : M t Z :=
  let* k := regObj i in regGetAt k.

(** [self.regs[i].set(v)] for an already computed [v]. *)
Definition regSet (i : Z) (v : Z) : M t unit :=
  let* k := regObj i in regSetAt k v.

(** [bool(self.flags[f])] *)
Definition flagBool (f : FlagName) : M t bool :=
  fun s => let '(b, h) := Flag.bool_ (flags s f) (breakpointHandler s) in
           (Ret b, with_bkpt h s).

(** [self.flags[f].get()] *)
Definition flagGet (f : FlagName) : M t bool :=
  fun s => let '(b, h) := Flag.get (flags s f) true (breakpointHandler s) in
           (Ret b, with_bkpt h s).

(** [int(self.flags[f])]: the class defines [__bool__] but neither
    [__int__] nor [__index__], so the conversion raises TypeError. *)
Definition flagInt (f : FlagName) : M t Z := raise TypeError.

(** [self.flags[f].set(v)] *)
Definition flagSet (f : FlagName) (v : bool) : M t unit :=
  fun s => let '(fl, h) := Flag.set (flags s f) v true (breakpointHandler s) in
           (Ret tt,
            with_flags (fun g => if FlagName_eqb g f then fl else flags s g)
                       (with_bkpt h s)).

(** [self.flags[f] == self.flags[g]] *)
Definition flagsEq (f g : FlagName) : M t bool :=
  gets (fun s => Flag.eq (flags s f) (flags s g)).

(** [self.mem.get(addr, size=size, execMode=execMode)] *)
Definition memGet (addr size : Z) (execMode : bool) : M t (option (list byte)) :=
  fun s => let '(o, h) := Memory.get (mem s) addr size execMode (breakpointHandler s) in
           (o, with_bkpt h s).

(** [self.mem.set(addr, val, size=size)] *)
Definition memSet (addr val size : Z) : M t unit :=
  fun s => let '(o, m, h) := Memory.set (mem s) addr val size (breakpointHandler s) in
           (o, with_mem m (with_bkpt h s)).

(** *** reset *)

(** [bytes(x)]: TypeError when [x] is None. *)
Definition bytes_of (x : option (list byte)) : outcome (list byte) :=
  match x with
  | Some b => Ret b
  | None => Raise TypeError
  end.

Definition reset : M t unit :=
  let* _ := modify (with_state ready) in
  let* _ := modify (with_countCycle (Some 0)) in
  let* _ := regSet 15 0 in
  (* We fetch the first instruction *)
  let* pc := regGet 15 in
  let* m := memGet pc 4 true in
  let* b := lift (bytes_of m) in
  modify (with_fetchedInstr (Some b)).

(** *** The barrel shifter *)

Definition _shiftVal (val : Z) (shiftInfo : ShiftInfo) : M t (Z * Z) :=
  let '(kind, src, arg) := shiftInfo in
  let* shiftamount :=
    (if String.eqb src "reg"
     then (let* r := regGet arg in ret (Z.land r 0xF))
     else ret arg) in
  if String.eqb kind "LSL" then
    let* a := lift (shr val (32 - shiftamount)) in
    let carryOut := Z.land a 1 in
    let* b := lift (shl val shiftamount) in
    ret (carryOut, Z.land b 0xFFFFFFFF)
  else if String.eqb kind "LSR" then
    let* a := lift (shr val (shiftamount - 1)) in
    let carryOut := Z.land a 1 in
    let* b := lift (shr val shiftamount) in
    ret (carryOut, Z.land b 0xFFFFFFFF)
  else if String.eqb kind "ASR" then
    let* a := lift (shr val (shiftamount - 1)) in
    let carryOut := Z.land a 1 in
    let* f := lift (shr val 31) in
    let firstBit := Z.land f 1 in
    let* b := lift (shr val shiftamount) in
    let* c := lift (shl (2 ^ (shiftamount + 1)) (32 - shiftamount)) in
    ret (carryOut, Z.lor (Z.land b 0xFFFFFFFF) c)
  else if String.eqb kind "ROR" then
    if shiftamount =? 0 then
      (* rotate right extended (RRX) *)
      let carryOut := Z.land val 1 in
      let* b := lift (shr val 1) in
      let* c := flagInt FC in
      let* d := lift (shl c 31) in
      ret (carryOut, Z.lor b d)
    else
      let* a := lift (shr val (shiftamount - 1)) in
      let carryOut := Z.land a 1 in
      let* b := lift (shr (Z.land val (2 ^ 32 - 1)) (shiftamount mod 32)) in
      let* c := lift (shl val (32 - shiftamount mod 32)) in
      ret (carryOut, Z.lor b (Z.land c (2 ^ 32 - 1)))
  else ret (0, val).

(** *** execInstr *)

Definition notFlag (f : FlagName) : M t bool :=
  let* b := flagBool f in ret (negb b).

Definition notFlagsEq (f g : FlagName) : M t bool :=
  let* e := flagsEq f g in ret (negb e).

(** The clauses [cond == "XX" and <flag test>] of the condition check,
    in source order.  Each flag test is true when the condition is NOT
    met.  A flag used as a truth value goes through [__bool__]; [and]
    and [or] inside a test evaluate their right operand only when
    needed. *)
Definition conditionClauses : list (string * M t bool) :=
  [ ("EQ", notFlag FZ);
    ("NE", flagBool FZ);
    ("CS", notFlag FC);
    ("CC", flagBool FC);
    ("MI", notFlag FN);
    ("PI", flagBool FN);
    ("VS", notFlag FV);
    ("VC", flagBool FV);
    ("HI", let* nc := notFlag FC in if nc then ret true else flagBool FZ);
    ("LS", let* c := flagBool FC in if c then notFlag FZ else ret false);
    ("GE", notFlagsEq FV FN);
    ("LT", flagsEq FV FN);
    ("GT", let* z := flagBool FZ in if z then ret true else notFlagsEq FV FN);
    ("LE", let* nz := notFlag FZ in if nz then flagsEq FV FN else ret false) ].

(** The [or] chain over the clauses: a clause whose mnemonic differs is
    false without looking at any flag; the first true clause decides. *)
Fixpoint orChain (cs : list (string * M t bool)) (cond : string) : M t bool :=
  match cs with
  | [] => ret false
  | (mnemonic, test) :: rest =>
      if String.eqb cond mnemonic then
        let* b := test in
        if b then ret true else orChain rest cond
      else orChain rest cond
  end.

(** True when execInstr takes the early [return] ("Condition not met"). *)
Definition conditionNotMet (cond : string) : M t bool :=
  orChain conditionClauses cond.

Definition execBranch (misc : BranchMisc) : M t unit :=
  let* _ :=
    (if br_L misc then
       let* k := regObj 14 in
       let* pc := regGet 15 in
       let* _ := regSetAt k (pc + 4) in
       modify (fun s => with_stepCondition (stepCondition s + 1) s)
     else ret tt) in
  if String.eqb (br_mode misc) "imm" then
    let* k := regObj 15 in
    let* pc := regGet 15 in
    regSetAt k (pc + br_offset misc - 4)
  else
    (* BX *)
    let* k := regObj 15 in
    let* r := regGet (br_offset misc) in
    let* _ := regSetAt k (r - 4) in
    modify (fun s => with_stepCondition (stepCondition s - 1) s).

(** The load branch returns [false] when it took the early [return]
    (illegal address), so that the writeback is skipped. *)
Definition execMemop (misc : MemMisc) : M t unit :=
  let* baseval := regGet (mo_base misc) in
  let* addr :=
    match mo_offset misc with
    | OffsetImm offset => ret (baseval + mo_sign misc * offset)
    | OffsetReg rm shift =>
        let* r := regGet rm in
        (* sval, _ = self._shiftVal(...): the first component *)
        let* '(sval, _) := _shiftVal r shift in
        ret (baseval + mo_sign misc * sval)
    end in
  let realAddr := if mo_pre misc then addr else baseval in
  let size := if mo_byte misc then 1 else 4 in
  let* continue :=
    (if String.eqb (mo_mode misc) "LDR" then
       let* m := memGet realAddr size false in
       match m with
       | None => ret false
       | Some bytes =>
           let* res := lift (struct_unpack "<I" bytes) in
           let* _ := regSet (mo_rd misc) res in
           ret true
       end
     else
       (* STR *)
       let* v := regGet (mo_rd misc) in
       let* _ := memSet realAddr v size in
       ret true) in
  if continue && mo_writeback misc then regSet (mo_base misc) addr
  else ret tt.

(** [for flag in workingFlags: self.flags[flag].set(workingFlags[flag])] *)
Fixpoint applyFlags (w : list (FlagName * bool)) : M t unit :=
  match w with
  | [] => ret tt
  | (f, v) :: w' => let* _ := flagSet f v in applyFlags w'
  end.

(** Carry and overflow staging shared by ADD/CMN and ADC. *)
Definition stageAddFlags (op1 op2 res : Z) (w : list (FlagName * bool))
  : list (FlagName * bool) :=
  let w := wf_set w FC (truthy (Z.land res (Z.shiftl 1 32))) in
  if negb (truthy (Z.lxor (Z.land op1 0x80000000) (Z.land op2 0x80000000)))
  then wf_set w FV
         (negb (truthy (Z.lxor (Z.land op1 0x80000000) (Z.land res 0x80000000))))
  else w.

(** The opcode dispatch: the result and the flags staged so far. *)
Definition computeRes (opcode : string) (op1 op2 : Z) (w : list (FlagName * bool))
  : M t (Z * list (FlagName * bool)) :=
  if opcode_in opcode ["AND"; "TST"] then ret (Z.land op1 op2, w)
  else if opcode_in opcode ["EOR"; "TEQ"] then ret (Z.lxor op1 op2, w)
  else if opcode_in opcode ["SUB"; "CMP"] then ret (op1 - op2, w)
  else if String.eqb opcode "RSB" then ret (op2 - op1, w)
  else if opcode_in opcode ["ADD"; "CMN"] then
    let res := op1 + op2 in
    ret (res, stageAddFlags op1 op2 res w)
  else if String.eqb opcode "ADC" then
    let* c := flagGet FC in
    let res := op1 + op2 + b2z c in
    ret (res, stageAddFlags op1 op2 res w)
  else if String.eqb opcode "SBC" then
    let* c := flagGet FC in
    ret (op1 - op2 + b2z c - 1, w)
  else if String.eqb opcode "RSC" then
    let* c := flagGet FC in
    ret (op2 - op1 + b2z c - 1, w)
  else if String.eqb opcode "ORR" then ret (Z.lor op1 op2, w)
  else if String.eqb opcode "MOV" then ret (op2, w)
  else if String.eqb opcode "BIC" then ret (Z.land op1 (Z.lnot op2), w)
  else if String.eqb opcode "MVN" then ret (Z.lnot op2, w)
  else raise AssertionError.

Definition execDataop (misc : DataMisc) : M t unit :=
  (* Get first operand value *)
  let* op1 := regGet (do_rn misc) in
  (* Get second operand value *)
  let* '(op2, w) :=
    match do_op2 misc with
    | Op2Imm value shift =>
        if negb (snd shift =? 0) then
          let* '(_, v) := _shiftVal value shift in ret (v, [])
        else ret (value, [])
    | Op2Reg rm shift =>
        let* r := regGet rm in
        let* '(carry, v) := _shiftVal r shift in
        ret (v, wf_set [] FC (truthy carry))
    end in
  let destrd := do_rd misc in
  let* '(res, w) := computeRes (do_opcode misc) op1 op2 w in
  let w := if res =? 0 then wf_set w FZ true else w in
  let w := if truthy (Z.land res 0x80000000) then wf_set w FN true else w in
  let* _ := (if do_setflags misc then applyFlags w else ret tt) in
  if negb (opcode_in (do_opcode misc) ["TST"; "TEQ"; "CMP"; "CMN"])
  then regSet destrd res     (* We actually write the result *)
  else ret tt.

(** The dispatch on the instruction class, after the condition check. *)
Definition execute (i : Instr) : M t unit :=
  match i with
  | Branch misc => execBranch misc
  | MemOp misc => execMemop misc
  | DataOp misc => execDataop misc
  | OtherInstr => ret tt
  end.

Section Decoder.

(** The decoder lives in module [instruction], outside the sources at
    hand; it is a parameter.  It receives [self.fetchedInstr]. *)
Variable BytecodeToInstrInfos : option (list byte) -> outcome Decoded.

Definition execInstr : M t unit :=
  (* Decode it *)
  let* fetched := gets fetchedInstr in
  let* d := lift (BytecodeToInstrInfos fetched) in
  (* Check condition *)
  let* skip := conditionNotMet (cond d) in
  if skip then ret tt      (* Condition not met, return *)
  else execute (instr d).  (* Execute it *)

Definition nextInstr : M t unit :=
  (* We clear an eventual breakpoint *)
  let* _ := modify (fun s => with_bkpt (BreakPointHandler.reset (breakpointHandler s)) s) in
  (* The instruction should have been fetched by the last instruction *)
  let* _ := execInstr in
  let* k := regObj 15 in
  let* pc := regGet 15 in
  let* _ := regSetAt k (pc + 4) in
  (* Retrieve instruction from memory *)
  let* pc' := regGet 15 in
  let* nextInstrBytes := memGet pc' 4 true in
  let* _ :=
    match nextInstrBytes with
    | Some b => modify (with_fetchedInstr (Some b))
    | None => ret tt
    end in
  (* Did we hit a breakpoint? A breakpoint always stops the simulator *)
  let* trig := gets (fun s => BreakPointHandler.breakpointTrigged (breakpointHandler s)) in
  let* _ := (if trig then modify (with_stepMode None) else ret tt) in
  (* One more cycle done! *)
  let* c := gets countCycle in
  match c with
  | Some n => modify (with_countCycle (Some (n + 1)))
  | None => raise AttributeError
  end.

End Decoder.

(** *** The step predicate *)

(** [self.stepMode == name] *)
Definition stepModeIs (name : string) (s : t) : bool :=
  match stepMode s with
  | Some x => String.eqb x name
  | None => false
  end.

Definition isStepDone : M t bool :=
  let* forward := gets (stepModeIs "forward") in
  let* done :=
    (if forward then
       let* c := gets stepCondition in
       if c =? 2 then
         (* The instruction was a function call: the step forward becomes
            a step out *)
         let* _ := modify (with_stepMode (Some "out")) in
         let* _ := modify (with_stepCondition 1) in
         ret false
       else ret true
     else ret false) in
  if done then ret true
  else
    let* out := gets (stepModeIs "out") in
    if out then
      let* c := gets stepCondition in ret (c =? 0)
    else
      (* We are doing a step into, we always stop *)
      ret true.

Definition setStepCondition (stepMode : string) : M t unit :=
  if opcode_in stepMode ["out"; "forward"] then
    let* _ := modify (with_stepMode (Some stepMode)) in
    modify (with_stepCondition 1)
  else raise AssertionError.

(** *** __init__ *)

(** [Register(i, breakpointHandler)] and [Flag(name, breakpointHandler)] *)
Definition newRegister (i : Z) : Register.t := Register.mk i 0 None [] 0.
Definition newFlag (name : string) : Flag.t := Flag.mk name false 0.

(** [r.altname = name] *)
Definition setAltname (name : string) (r : Register.t) : Register.t :=
  Register.mk (Register.id r) (Register.val r) (Some name)
    (Register.history r) (Register.breakpoint r).

(** [__init__(memorycontent)], with the image split as for [Memory.init].
    [countCycle] is not created here. *)
Definition init (memcontent : dict (list byte)) (start end_ : dict Z)
  : outcome t :=
  match Memory.init memcontent start end_ with
  | Raise e => Raise e
  | Ret m =>
      let regs := map newRegister (range 16) in
      let regs := alter (setAltname "SP") 13%nat regs in
      let regs := alter (setAltname "LR") 14%nat regs in
      let regs := alter (setAltname "PC") 15%nat regs in
      Ret (mk uninitialized (BreakPointHandler.mk false None) m regs None 0
             (fun f => match f with
                       | FZ => newFlag "Z" | FV => newFlag "V"
                       | FC => newFlag "C" | FN => newFlag "N"
                       end)
             None None)
  end.

End Simulator.

(** ** Half-word and signed transfers: decoding (class HalfSignedMemOp) *)

Module HalfSignedMemOp.

(** Modelled from the spec: [utils.checkMask(data, posOnes, posZeros)] is
    not among the sources; the decoder description fixes the class by
    bits 27..25 (clear) and bits 7 and 4 (set), so the helper holds when
    every position of [posOnes] is 1 and every position of [posZeros]
    is 0 in [data]. *)
Definition checkMask (data : Z) (posOnes posZeros : list Z) : bool :=
  forallb (fun p => Z.testbit data p) posOnes
  && forallb (fun p => negb (Z.testbit data p)) posZeros.

(** The attributes [decode] assigns.  [offsetImm] and [offsetReg] are
    assigned in one branch each; [None] is "not assigned by this call".
    The condition field is decoded by the base class, which is not among
    the sources, and is left out. *)
Record t : Type := mk {
  imm : bool;
  pre : bool;
  sign : Z;
  byte : bool;
  signed : bool;
  writeback : bool;
  mode : string;
  basereg : Z;
  rd : Z;
  offsetImm : option Z;
  offsetReg : option Z
}.

Definition decode (instrInt : Z) : outcome t :=
  if negb (checkMask instrInt [7; 4] [27; 26; 25]) then Raise ExecutionException
  else
    let imm := truthy (Z.land instrInt (Z.shiftl 1 22)) in
    let pre := truthy (Z.land instrInt (Z.shiftl 1 24)) in
    let sign := if truthy (Z.land instrInt (Z.shiftl 1 23)) then 1 else -1 in
    let byte := negb (truthy (Z.land instrInt (Z.shiftl 1 5))) in
    let signed := truthy (Z.land instrInt (Z.shiftl 1 6)) in
    let writeback := truthy (Z.land instrInt (Z.shiftl 1 21)) || negb pre in
    let mode := if truthy (Z.land instrInt (Z.shiftl 1 20)) then "LDR" else "STR" in
    let basereg := Z.land (Z.shiftr instrInt 16) 0xF in
    let rd := Z.land (Z.shiftr instrInt 12) 0xF in
    (* [instrInt & 0xF + ((instrInt >> 4) & 0xF0)]: [+] binds tighter
       than [&] *)
    Ret {| imm := imm; pre := pre; sign := sign; byte := byte; signed := signed;
           writeback := writeback; mode := mode; basereg := basereg; rd := rd;
           offsetImm := if imm
                        then Some (Z.land instrInt (0xF + Z.land (Z.shiftr instrInt 4) 0xF0))
                        else None;
           offsetReg := if imm then None else Some (Z.land instrInt 0xF) |}.

(** The immediate offset as the encoding defines it: low nibble in bits
    3..0 of the word, high nibble in bits 11..8. *)
Definition splitOffset (instrInt : Z) : Z :=
  Z.land instrInt 0xF + Z.land (Z.shiftr instrInt 4) 0xF0.

End HalfSignedMemOp.

(** ** Reference notions the statements compare the code with *)

(** The low [size] bytes of [v], least significant first. *)
Fixpoint le_bytes (size : nat) (v : Z) : list byte :=
  match size with
  | O => []
  | S n => match Byte.of_N (Z.to_N (v mod 256)) with
           | Some b => b
           | None => x00
           end :: le_bytes n (v / 256)
  end.

(** LDRH R1, [R0, #off] in immediate pre-indexed form: the word whose
    offset nibbles spell [off]. *)
Definition encodeOffset (off : Z) : Z :=
  Z.lor 0xE1D010B0 (Z.lor (Z.shiftl (Z.shiftr off 4) 8) (Z.land off 0xF)).

(** The ARM condition table (ARM7TDMI data sheet, table 4-2) over the
    mnemonics the decoder produces. *)
Definition armCondition (cond : string) (z c n v : bool) : bool :=
  if String.eqb cond "EQ" then z
  else if String.eqb cond "NE" then negb z
  else if String.eqb cond "CS" then c
  else if String.eqb cond "CC" then negb c
  else if String.eqb cond "MI" then n
  else if String.eqb cond "PL" then negb n
  else if String.eqb cond "VS" then v
  else if String.eqb cond "VC" then negb v
  else if String.eqb cond "HI" then c && negb z
  else if String.eqb cond "LS" then negb c || z
  else if String.eqb cond "GE" then Bool.eqb n v
  else if String.eqb cond "LT" then negb (Bool.eqb n v)
  else if String.eqb cond "GT" then negb z && Bool.eqb n v
  else if String.eqb cond "LE" then z || negb (Bool.eqb n v)
  else if String.eqb cond "AL" then true
  else false.

(** Arithmetic shift right of a 32-bit value: the sign bit is replicated. *)
Definition asr32 (v n : Z) : Z :=
  Z.lor (Z.shiftr v n)
        (if Z.testbit v 31 then Z.shiftl (2 ^ n - 1) (32 - n) else 0).

(** ** Concrete states used by the examples *)

Definition noBkpt : BreakPointHandler.t := BreakPointHandler.mk false None.

Definition mkReg (i : Z) (v : Z) : Register.t :=
  Register.mk i v
    (if i =? 13 then Some "SP" else if i =? 14 then Some "LR"
     else if i =? 15 then Some "PC" else None)
    [] 0.

(** Two segments with a gap between them: [0, 8) and [0x100, 0x108). *)
Definition demoMem : Memory.t :=
  Memory.mk []
    [("INTVEC", 0); ("DATA", 0x100)]
    [("INTVEC", 8); ("DATA", 0x108)]
    0x108
    [("INTVEC", [x01; x10; xa0; xe3; x00; x00; x00; x00]);
     ("DATA", [x2a; x00; x00; x00; xff; xee; xdd; xcc])]
    (fun _ => 0).

Definition flagName (f : FlagName) : string :=
  match f with FZ => "Z" | FV => "V" | FC => "C" | FN => "N" end.

Definition demoFlags (z v c n : bool) (f : FlagName) : Flag.t :=
  Flag.mk (flagName f)
    (match f with FZ => z | FV => v | FC => c | FN => n end) 0.

(** The state after [__init__] and [reset] over [demoMem], with the flags
    and R0, R1 chosen by the example. *)
Definition demoSim (r0 r1 : Z) (z v c n : bool) : Simulator.t :=
  Simulator.mk ready noBkpt demoMem
    (mkReg 0 r0 :: mkReg 1 r1 :: map (fun i => mkReg i 0) (map Z.of_nat (seq 2 14)))
    None 0 (demoFlags z v c n)
    (Some [x01; x10; xa0; xe3]) (Some 0).

Definition regVal (s : Simulator.t) (k : nat) : option Z :=
  Register.val <$> Simulator.regs s !! k.

Definition flagVal (s : Simulator.t) (f : FlagName) : bool :=
  Flag.val (Simulator.flags s f).

Definition immNoShift : ShiftInfo := ("ROR", "imm", 0).

Definition movR0 (value : Z) (setflags : bool) (cond : string) : Decoded :=
  mkDecoded (DataOp (mkData 0 (Op2Imm value immNoShift) 0 "MOV" setflags)) cond.

(** ADDS R2, R0, #value *)
Definition addsR2 (value : Z) : Decoded :=
  mkDecoded (DataOp (mkData 0 (Op2Imm value immNoShift) 2 "ADD" true)) "AL".

(** LDR(B) R1, [R0] *)
Definition ldrR1 (byte : bool) : Decoded :=
  mkDecoded (MemOp (mkMem 0 (OffsetImm 0) 1 true "LDR" byte 1 false)) "AL".

Definition flagVals (s : Simulator.t) : bool * bool * bool * bool :=
  (flagVal s FZ, flagVal s FN, flagVal s FC, flagVal s FV).

(** Executing an already decoded instruction: the decoder is the constant
    function returning it. *)
Definition run (d : Decoded) (s : Simulator.t) : outcome unit * Simulator.t :=
  Simulator.execInstr (fun _ => Ret d) s.

(** A small image for the serialisation example: [0, 3) and [5, 7). *)
Definition smallMem : Memory.t :=
  Memory.mk []
    [("B", 5); ("A", 0)]
    [("B", 7); ("A", 3)]
    7
    [("B", [xbb; xb0]); ("A", [xa0; xa1; xa2])]
    (fun _ => 0).

(** ** Conditions on a memory image

    The constructor copies the layout from the loader's image, whose
    consistency "is the loader's job".  The statements below name the
    parts of that contract they rely on. *)

(** Every segment with a start address has an end address. *)
Definition endsDeclared (m : Memory.t) : Prop :=
  forall sec, In sec (dict_keys (Memory.startAddr m)) ->
              is_Some (dict_get (Memory.endAddr m) sec).

(** Every segment with a start address has a byte buffer. *)
Definition dataDeclared (m : Memory.t) : Prop :=
  forall sec, In sec (dict_keys (Memory.startAddr m)) ->
              is_Some (dict_get (Memory.data m) sec).

(** No declared segment holds the [size] bytes at [addr]. *)
Definition noSegment (m : Memory.t) (addr size : Z) : Prop :=
  forall sec s e,
    dict_get (Memory.startAddr m) sec = Some s ->
    dict_get (Memory.endAddr m) sec = Some e ->
    ~ (s <= addr /\ addr + size <= e).

(** The data-model invariants of a memory: the dictionaries have one
    entry per segment name; each segment starts at a non-negative
    address and owns a buffer of length [end - start]; distinct segments
    do not overlap; [maxAddr] is the largest end address. *)
Record MemoryWellFormed (m : Memory.t) : Prop := mkMemoryWellFormed {
  wf_unique : NoDup (dict_keys (Memory.startAddr m));
  wf_ends : endsDeclared m;
  wf_ends_only : forall sec, is_Some (dict_get (Memory.endAddr m) sec) ->
                             In sec (dict_keys (Memory.startAddr m));
  wf_start : forall sec s, dict_get (Memory.startAddr m) sec = Some s -> 0 <= s;
  wf_buffer : forall sec s e,
      dict_get (Memory.startAddr m) sec = Some s ->
      dict_get (Memory.endAddr m) sec = Some e ->
      exists buf, dict_get (Memory.data m) sec = Some buf /\
                  Z.of_nat (length buf) = e - s;
  wf_disjoint : forall sec1 sec2 s1 e1 s2 e2,
      sec1 <> sec2 ->
      dict_get (Memory.startAddr m) sec1 = Some s1 ->
      dict_get (Memory.endAddr m) sec1 = Some e1 ->
      dict_get (Memory.startAddr m) sec2 = Some s2 ->
      dict_get (Memory.endAddr m) sec2 = Some e2 ->
      e1 <= s2 \/ e2 <= s1;
  wf_maxAddr_reached : exists sec, dict_get (Memory.endAddr m) sec = Some (Memory.maxAddr m);
  wf_maxAddr_bound : forall sec e, dict_get (Memory.endAddr m) sec = Some e ->
                                   e <= Memory.maxAddr m
}.

(** ** Notions used by the proofs *)

(** A computation that only touches the breakpoint handler, never raises,
    and whose result does not depend on the handler's contents. *)
Definition bkptOnly {A} (c : M Simulator.t A) : Prop :=
  forall s, exists a, forall h0, exists h,
    c (Simulator.with_bkpt h0 s) = (Ret a, Simulator.with_bkpt h s).

(** The order [sorted] puts the items of [startAddr] in. *)
Definition by_value (x y : string * Z) : Prop := snd x <= snd y.

(** Address [a] lies in one of the segments listed in [P]. *)
Definition covered (m : Memory.t) (P : list (string * Z)) (a : Z) : Prop :=
  exists sec s e,
    In (sec, s) P /\ dict_get (Memory.endAddr m) sec = Some e /\ s <= a < e.

(** What holds of the image [img] once the loop of [serialize] has emitted
    the segments listed in [P]: their bytes are in place, the image ends
    where one of them ends (or is still empty), and every other byte is
    zero. *)
Definition emitted (m : Memory.t) (P : list (string * Z)) (img : list byte) : Prop :=
  (forall sec s e buf,
      In (sec, s) P ->
      dict_get (Memory.endAddr m) sec = Some e ->
      dict_get (Memory.data m) sec = Some buf ->
      e <= Z.of_nat (length img) /\
      forall a, 0 <= a -> s <= a < e ->
                img !! Z.to_nat a = buf !! Z.to_nat (a - s)) /\
  (Z.of_nat (length img) = 0 \/
   exists sec s, In (sec, s) P /\
                 dict_get (Memory.endAddr m) sec = Some (Z.of_nat (length img))) /\
  (forall a, 0 <= a < Z.of_nat (length img) -> ~ covered m P a ->
             img !! Z.to_nat a = Some x00).

(** Case analysis on a dictionary key compared with a literal. *)
Ltac dict_case sec k :=
  let E := fresh "E" in
  destruct (String.eqb sec k) eqn:E;
  [apply String.eqb_eq in E; subst sec | ].

(** ** Notions used by the further properties *)

(** The read test of [get] at one byte: the exec bit counts in exec mode
    only, the read bit always. *)
Definition readFires (m : Memory.t) (execMode : bool) (a : Z) : bool :=
  (execMode && truthy (Z.land (Memory.breakpoints m a) 1))
  || truthy (Z.land (Memory.breakpoints m a) 4).

(** A property of the simulator state that a computation keeps, whether
    it returns or raises. *)
Definition preserves (P : Simulator.t -> Prop) {A} (c : M Simulator.t A) : Prop :=
  forall s, P s -> P (snd (c s)).

(** Properties insensitive to one kind of update: the breakpoint latch, a
    register write, a flag write, a memory write, the step depth. *)
Definition bkptStable (P : Simulator.t -> Prop) : Prop :=
  forall h s, P s -> P (Simulator.with_bkpt h s).

Definition regStable (P : Simulator.t -> Prop) : Prop :=
  forall s k r v h,
    Simulator.regs s !! k = Some r -> P s ->
    P (Simulator.with_regs
         (<[k := fst (Register.set r v true h)]> (Simulator.regs s)) s).

Definition flagStable (P : Simulator.t -> Prop) : Prop :=
  forall s f v h,
    P s ->
    P (Simulator.with_flags
         (fun g => if FlagName_eqb g f
                   then fst (Flag.set (Simulator.flags s f) v true h)
                   else Simulator.flags s g) s).

Definition memStable (P : Simulator.t -> Prop) : Prop :=
  forall s addr val size h,
    P s ->
    P (Simulator.with_mem
         (snd (fst (Memory.set (Simulator.mem s) addr val size h))) s).

Definition stepStable (P : Simulator.t -> Prop) : Prop :=
  forall s z, P s -> P (Simulator.with_stepCondition z s).

(** Insensitive to the facade's own bookkeeping: lifecycle state, cycle
    counter, fetch buffer and step mode. *)
Definition cycleStable (P : Simulator.t -> Prop) : Prop :=
  (forall s x, P s -> P (Simulator.with_state x s)) /\
  (forall s x, P s -> P (Simulator.with_countCycle x s)) /\
  (forall s x, P s -> P (Simulator.with_fetchedInstr x s)) /\
  (forall s x, P s -> P (Simulator.with_stepMode x s)).

(** All registers hold 32-bit values. *)
Definition regs32 (s : Simulator.t) : Prop :=
  Forall (fun r => 0 <= Register.val r < 2 ^ 32) (Simulator.regs s).

(** What never changes in a register or a flag, and what only grows. *)
Definition sameRegister (r0 r : Register.t) : Prop :=
  Register.id r = Register.id r0 /\
  Register.altname r = Register.altname r0 /\
  Register.breakpoint r = Register.breakpoint r0 /\
  Register.history r0 `prefix_of` Register.history r.

Definition sameFlag (f0 f : Flag.t) : Prop :=
  Flag.name f = Flag.name f0 /\ Flag.breakpoint f = Flag.breakpoint f0.

Definition sameMemory (m0 m : Memory.t) : Prop :=
  Memory.data m = Memory.data m0 /\
  Memory.startAddr m = Memory.startAddr m0 /\
  Memory.endAddr m = Memory.endAddr m0 /\
  Memory.maxAddr m = Memory.maxAddr m0 /\
  Memory.breakpoints m = Memory.breakpoints m0 /\
  Memory.history m0 `prefix_of` Memory.history m.

(** The structure of the machine is that of [s0]: same registers (up to
    value and longer history), same flags (up to value), same memory (up
    to a longer write log). *)
Definition sameMachine (s0 s : Simulator.t) : Prop :=
  Forall2 sameRegister (Simulator.regs s0) (Simulator.regs s) /\
  (forall f, sameFlag (Simulator.flags s0 f) (Simulator.flags s f)) /\
  sameMemory (Simulator.mem s0) (Simulator.mem s).

(** Whether an instruction asks for a flag update at all. *)
Definition setsFlags (i : Instr) : bool :=
  match i with
  | DataOp misc => do_setflags misc
  | _ => false
  end.

(** A computation that cannot return normally from a state satisfying
    [P]. *)
Definition alwaysRaises (P : Simulator.t -> Prop) {A} (c : M Simulator.t A) : Prop :=
  forall s, P s -> exists e, fst (c s) = Raise e.

(** What holds of the state whenever a computation returns normally. *)
Definition post (Q : Simulator.t -> Prop) {A} (c : M Simulator.t A) : Prop :=
  forall s a s', c s = (Ret a, s') -> Q s'.

(** A register after a write of [v]. *)
Definition written (r : Register.t) (v : Z) : Register.t :=
  Register.mk (Register.id r) (v mod 2 ^ 32) (Register.altname r)
    (Register.history r ++ [v mod 2 ^ 32]) (Register.breakpoint r).

(** The state [s] with a new latch, register file, step depth, fetch
    buffer, step mode and cycle counter; lifecycle state, memory and flags
    are those of [s]. *)
Definition afterCycle (s : Simulator.t) (h : BreakPointHandler.t)
           (R : list Register.t) (depth : Z) (fetched : option (list byte))
           (mode : option string) (count : option Z) : Simulator.t :=
  Simulator.mk (Simulator.state s) h (Simulator.mem s) R mode depth
    (Simulator.flags s) fetched count.

(** The same within one instruction: only latch, registers and step depth
    move. *)
Definition afterExec (s : Simulator.t) (h : BreakPointHandler.t)
           (R : list Register.t) (depth : Z) : Simulator.t :=
  afterCycle s h R depth (Simulator.fetchedInstr s) (Simulator.stepMode s)
    (Simulator.countCycle s).

(** The word the facade fetches at [pc]: the bytes read there, or the old
    buffer when the address is illegal. *)
Definition refetch (s : Simulator.t) (pc : Z) : option (list byte) :=
  match fst (Memory.get (Simulator.mem s) pc 4 true noBkpt) with
  | Ret (Some b) => Some b
  | _ => Simulator.fetchedInstr s
  end.

(** The mask or-ed into the destination register by a signed load
    (HalfSignedMemOp.execute):
    [0xFFFFFF00 * ((res >> 7) & 1) if self.byte else
     0xFFFF0000 * ((res >> 15) & 1)]. *)
Definition signMask (byte : bool) (res : Z) : Z :=
  if byte then 0xFFFFFF00 * Z.land (Z.shiftr res 7) 1
  else 0xFFFF0000 * Z.land (Z.shiftr res 15) 1.

(** The reading of an n-bit pattern as a signed number. *)
Definition signedValue (n : Z) (res : Z) : Z :=
  if res <? 2 ^ (n - 1) then res else res - 2 ^ n.

(** ** The breakpoint latch around a cycle *)

(** No flag carries a read mark. *)
Definition flagsUnwatched (s : Simulator.t) : Prop :=
  forall f, truthy (Z.land (Flag.breakpoint (Simulator.flags s f)) 4) = false.

(** The latch the condition check leaves when it starts from the cleared
    latch, as it does in [nextInstr]: the last read event of a watched
    flag it looked at, if any. *)
Definition checkLatch (cond : string) (s : Simulator.t) : BreakPointHandler.t :=
  Simulator.breakpointHandler
    (snd (Simulator.conditionNotMet cond (Simulator.with_bkpt noBkpt s))).

(** The latch after [self.mem.get(self.regs[15].get(), execMode=True)],
    from latch [h]. *)
Definition fetchLatch (h : BreakPointHandler.t) (pc : Register.t) (m : Memory.t)
  : BreakPointHandler.t :=
  snd (Memory.get m (Register.val pc) 4 true (snd (Register.get pc true h))).

(** The latch after the facade's [self.regs[15].set(self.regs[15].get()+4)]
    and its fetch, from latch [h]. *)
Definition cycleLatch (h : BreakPointHandler.t) (pc : Register.t) (m : Memory.t)
  : BreakPointHandler.t :=
  let h1 := snd (Register.get pc true h) in
  let '(pc', h2) := Register.set pc (Register.val pc + 4) true h1 in
  fetchLatch h2 pc' m.

(** The latch after [self.regs[15].set(0)] and the fetch of [reset], from
    latch [h]. *)
Definition resetLatch (h : BreakPointHandler.t) (pc : Register.t) (m : Memory.t)
  : BreakPointHandler.t :=
  let '(pc', h1) := Register.set pc 0 true h in
  fetchLatch h1 pc' m.

(** * Theorems *)

(** ** Memory: write then read *)

Lemma Memory_set_resolved m addr val size h sec offset buf :
  Memory._getRelativeAddr m addr size = Ret (Some (sec, offset)) ->
  dict_get (Memory.data m) sec = Some buf ->
  Memory.set m addr val size h =
    (Raise TypeError,
     Memory.with_history
       (Memory.history m ++ [(sec, offset, size, Z.land val 0xFFFFFFFF)]) m,
     Memory.writeBkpts m addr size h).
Proof.
  intros Hres Hbuf. unfold Memory.set. rewrite Hres. cbn.
  unfold getitem. rewrite Hbuf. reflexivity.
Qed.

(** C1 (code defect).  Writing 0x12345678 as a word at 0x100, inside the
    segment DATA, appends the log entry (DATA, 0, 4, 0x12345678) and then
    fails with TypeError at the slice assignment: the segment bytes are
    not touched, and the following [get(0x100, 4)] returns the old bytes
    2a 00 00 00 instead of the little-endian bytes 78 56 34 12 of the
    value. *)
Theorem Memory_set_get_stale :
  let '(o, m', h') := Memory.set demoMem 0x100 0x12345678 4 noBkpt in
  o = Raise TypeError /\
  Memory.history m' = [("DATA", 0, 4, 0x12345678)] /\
  Memory.data m' = Memory.data demoMem /\
  fst (Memory.get m' 0x100 4 false h') = Ret (Some [x2a; x00; x00; x00]) /\
  le_bytes 4 (Z.land 0x12345678 0xFFFFFFFF) = [x78; x56; x34; x12].
Proof. vm_compute. repeat split; reflexivity. Qed.

(** ** The half-word / signed transfer decoder *)

(** C4 (code defect).  The word 0xE1D014B0 is LDRH R1, [R0, #0x40] in
    immediate form: bits 11..8 hold 4 and bits 3..0 hold 0, so the offset
    is 0x40; the decoder stores 0, because its expression masks the word
    with [0xF + high nibble] instead of adding the two nibbles. *)
Theorem decode_offsetImm_LDRH :
  exists d,
    HalfSignedMemOp.decode 0xE1D014B0 = Ret d /\
    HalfSignedMemOp.imm d = true /\
    HalfSignedMemOp.offsetImm d = Some 0 /\
    HalfSignedMemOp.splitOffset 0xE1D014B0 = 0x40.
Proof. eexists. repeat split; vm_compute; reflexivity. Qed.

(** Every offset 0..255 is spelt by some word, under the nibble layout. *)
Lemma splitOffset_encodeOffset off :
  0 <= off < 256 -> HalfSignedMemOp.splitOffset (encodeOffset off) = off.
Proof.
  intros Hoff.
  assert (H : forallb (fun o => HalfSignedMemOp.splitOffset (encodeOffset o) =? o)
                      (range 256) = true) by (vm_compute; reflexivity).
  rewrite forallb_forall in H. apply Z.eqb_eq, H.
  unfold range. apply in_map_iff. exists (Z.to_nat off). split; [lia|].
  apply in_seq. lia.
Qed.

(** ** The barrel shifter *)

Lemma land_1_testbit a k :
  0 <= k -> Z.land (Z.shiftr a k) 1 = Z.b2z (Z.testbit a k).
Proof.
  intros Hk. change 1 with (Z.ones 1). rewrite Z.land_ones by lia.
  rewrite <- Z.bit0_mod, Z.shiftr_spec by lia. reflexivity.
Qed.

Lemma land_word_small a : 0 <= a < 2 ^ 32 -> Z.land a 0xFFFFFFFF = a.
Proof.
  intros Ha. change 0xFFFFFFFF with (Z.ones 32).
  rewrite Z.land_ones by lia. apply Z.mod_small. lia.
Qed.

(** C5 (code defect).  For a 32-bit [v] and 0 < n < 32 the shifter's ASR
    returns the carry the claim states, bit n-1 of [v]; its result is the
    logical shift [v >> n] with bit 33 set, whatever bit 31 of [v] is.  It
    is never a 32-bit value, so it is neither the arithmetic shift nor,
    for a non-negative [v], the logical one. *)
Theorem shiftVal_ASR v n s :
  0 <= v < 2 ^ 32 -> 0 < n < 32 ->
  Simulator._shiftVal v ("ASR", "imm", n) s =
    (Ret (Z.b2z (Z.testbit v (n - 1)), Z.lor (Z.shiftr v n) (2 ^ 33)), s)
  /\ Z.lor (Z.shiftr v n) (2 ^ 33) <> asr32 v n
  /\ Z.lor (Z.shiftr v n) (2 ^ 33) <> Z.shiftr v n.
Proof.
  intros Hv Hn.
  assert (Hsh : 0 <= Z.shiftr v n < 2 ^ 32).
  { rewrite Z.shiftr_div_pow2 by lia. split.
    - apply Z.div_pos; lia.
    - apply Z.div_lt_upper_bound; [lia|]. nia. }
  assert (Hbit : Z.testbit (Z.lor (Z.shiftr v n) (2 ^ 33)) 33 = true).
  { rewrite Z.lor_spec, (Z.pow2_bits_true 33) by lia. apply orb_true_r. }
  assert (Hsmall : forall x, 0 <= x < 2 ^ 32 -> Z.testbit x 33 = false).
  { intros x Hx. destruct (Z.eq_dec x 0) as [->|Hne]; [apply Z.bits_0|].
    apply Z.bits_above_log2; [lia|].
    assert (Z.log2 x < 32) by (apply Z.log2_lt_pow2; lia). lia. }
  split; [|split].
  - unfold Simulator._shiftVal, bind, lift, ret, shr, shl. cbn [String.eqb Ascii.eqb Bool.eqb].
    replace (n - 1 <? 0) with false by lia.
    replace (31 <? 0) with false by lia.
    replace (n <? 0) with false by lia.
    replace (32 - n <? 0) with false by lia.
    rewrite land_1_testbit by lia.
    rewrite (land_word_small (Z.shiftr v n)) by lia.
    rewrite Z.shiftl_mul_pow2, <- Z.pow_add_r by lia.
    replace (n + 1 + (32 - n)) with 33 by lia. reflexivity.
  - intros Heq. rewrite Heq in Hbit. unfold asr32 in Hbit.
    rewrite Z.lor_spec, (Hsmall (Z.shiftr v n)) in Hbit by lia.
    destruct (Z.testbit v 31); [|rewrite Z.bits_0 in Hbit; discriminate].
    rewrite Hsmall in Hbit; [discriminate|].
    rewrite Z.shiftl_mul_pow2, Z.mul_sub_distr_r, <- Z.pow_add_r by lia.
    replace (n + (32 - n)) with 32 by lia.
    assert (0 < 2 ^ (32 - n) <= 2 ^ 32).
    { split; [lia|]. apply Z.pow_le_mono_r; lia. }
    lia.
  - intros Heq. rewrite Heq in Hbit. rewrite Hsmall in Hbit; [discriminate|lia].
Qed.

Lemma shiftVal_ASR_witness :
  (0 <= 0x80000000 < 2 ^ 32 /\ 0 < 1 < 32) /\
  Simulator._shiftVal 0x80000000 ("ASR", "imm", 1) (demoSim 0 0 false false false false)
    = (Ret (0, 0x240000000), demoSim 0 0 false false false false) /\
  asr32 0x80000000 1 = 0xC0000000.
Proof.
  split; [lia|]. split; [|reflexivity].
  destruct (shiftVal_ASR 0x80000000 1 (demoSim 0 0 false false false false))
    as [H _]; [lia | lia | exact H].
Defined.

(** ** The executor *)

(** C2 (code defect).  With N set, the ARM condition PL does not hold, yet
    MOVPL R0, #1 is executed and R0 becomes 1: the check compares the
    mnemonic with "PI", which no instruction carries.  An NV instruction is
    executed as well, since no clause mentions it.  For comparison, MOVMI
    R0, #1 with N clear is skipped. *)
Theorem execInstr_PL_NV_executed :
  (armCondition "PL" false false true false = false /\
   regVal (snd (run (movR0 1 false "PL") (demoSim 0 0 false false false true))) 0
     = Some 1) /\
  (armCondition "NV" false false true false = false /\
   regVal (snd (run (movR0 1 false "NV") (demoSim 0 0 false false false true))) 0
     = Some 1) /\
  (armCondition "MI" false false false false = false /\
   regVal (snd (run (movR0 1 false "MI") (demoSim 0 0 false false false false))) 0
     = Some 0).
Proof. vm_compute. repeat split; reflexivity. Qed.

(** C3 (code defect).  Flags are listed as (Z, N, C, V).  From all flags
    clear, ADDS of (0x7FFFFFFF, 1) sets N only: V stays clear although the
    addition overflows.  ADDS of (0xFFFFFFFF, 1) sets C only: Z stays
    clear although the 32-bit result written to R2 is 0, because the zero
    test looks at the 33-bit sum.  MOVS R0, #1 with Z and N set leaves
    both set: a flag is only ever staged to true, never cleared. *)
Theorem execDataop_flags_stale :
  (let s := snd (run (addsR2 1) (demoSim 0x7FFFFFFF 0 false false false false)) in
   flagVals s = (false, true, false, false) /\ regVal s 2 = Some 0x80000000) /\
  (let s := snd (run (addsR2 1) (demoSim 0xFFFFFFFF 0 false false false false)) in
   flagVals s = (false, false, true, false) /\ regVal s 2 = Some 0) /\
  (let s := snd (run (movR0 1 true "AL") (demoSim 0 0 true false false true)) in
   flagVals s = (true, true, false, false) /\ regVal s 0 = Some 1).
Proof. vm_compute. repeat split; reflexivity. Qed.

(** C6 (code defect).  With R0 = 0x100, where the segment DATA holds the
    byte 2a, LDRB R1, [R0] reads that one byte without raising any event
    and then fails in [struct.unpack("<I", ...)], which wants four bytes:
    R1 keeps its old value 7.  The word form LDR R1, [R0] loads
    0x0000002a. *)
Theorem execMemop_LDRB_fails :
  (let '(o, s) := run (ldrR1 true) (demoSim 0x100 7 false false false false) in
   o = Raise StructError /\ regVal s 1 = Some 7 /\
   BreakPointHandler.breakpointTrigged (Simulator.breakpointHandler s) = false) /\
  fst (Memory.get demoMem 0x100 1 false noBkpt) = Ret (Some [x2a]) /\
  (let '(o, s) := run (ldrR1 false) (demoSim 0x100 7 false false false false) in
   o = Ret tt /\ regVal s 1 = Some 0x2a).
Proof. vm_compute. repeat split; reflexivity. Qed.

(** ** Memory: illegal addresses *)

Lemma dict_get_In_keys {V} (d : dict V) k :
  In k (dict_keys d) -> is_Some (dict_get d k).
Proof.
  induction d as [|[k' v] d IH]; cbn; [tauto|].
  intros [->|Hin].
  - rewrite String.eqb_refl. eauto.
  - destruct (String.eqb k k'); eauto.
Qed.

Lemma findSection_none m addr size keys :
  endsDeclared m -> noSegment m addr size ->
  (forall sec, In sec keys -> In sec (dict_keys (Memory.startAddr m))) ->
  Memory.findSection m addr size keys = Ret None.
Proof.
  intros Hends Hno. induction keys as [|sec rest IH]; intros Hkeys; cbn; [reflexivity|].
  assert (Hin : In sec (dict_keys (Memory.startAddr m))) by (apply Hkeys; now left).
  destruct (dict_get_In_keys _ _ Hin) as [s Hs].
  destruct (Hends _ Hin) as [e He].
  unfold getitem. rewrite Hs, He.
  assert (Hrest : Memory.findSection m addr size rest = Ret None).
  { apply IH. intros k Hk. apply Hkeys. now right. }
  destruct (s <=? addr) eqn:Hle; [|exact Hrest].
  destruct (addr <? e - (size - 1)) eqn:Hlt; [|exact Hrest].
  exfalso. apply (Hno sec s e Hs He). lia.
Qed.

Lemma getRelativeAddr_none m addr size :
  endsDeclared m -> noSegment m addr size ->
  Memory._getRelativeAddr m addr size = Ret None.
Proof.
  intros Hends Hno. unfold Memory._getRelativeAddr.
  destruct ((addr <? 0) || (addr >? Memory.maxAddr m - (size - 1))); [reflexivity|].
  apply findSection_none; auto.
Qed.

(** C8.  When no declared segment holds the [size] bytes at [addr], [get]
    latches the event (memory, 8, addr) on the shared handler and returns
    None, and [set] latches the same event and returns with the memory
    object unchanged: segment bytes, write log and everything else. *)
Theorem Memory_illegal_address m addr val size execMode h :
  endsDeclared m -> noSegment m addr size ->
  Memory.get m addr size execMode h =
    (Ret None, BreakPointHandler.throw (mkBkptInfo "memory" 8 (InfoInt addr)) h) /\
  Memory.set m addr val size h =
    (Ret tt, m, BreakPointHandler.throw (mkBkptInfo "memory" 8 (InfoInt addr)) h).
Proof.
  intros Hends Hno. unfold Memory.get, Memory.set.
  rewrite (getRelativeAddr_none m addr size Hends Hno). split; reflexivity.
Qed.

Lemma demoMem_endsDeclared : endsDeclared demoMem.
Proof.
  intros sec [<-|[<-|[]]]; cbn; eauto.
Qed.

Lemma demoMem_noSegment_6_4 : noSegment demoMem 6 4.
Proof.
  intros sec s e Hs He. cbn in Hs, He.
  destruct (String.eqb sec "INTVEC").
  - injection Hs as <-. injection He as <-. lia.
  - destruct (String.eqb sec "DATA"); [|discriminate].
    injection Hs as <-. injection He as <-. lia.
Qed.

Lemma Memory_illegal_address_witness :
  (endsDeclared demoMem /\ noSegment demoMem 6 4) /\
  Memory.get demoMem 6 4 false noBkpt =
    (Ret None, BreakPointHandler.mk true (Some (mkBkptInfo "memory" 8 (InfoInt 6)))) /\
  Memory.set demoMem 6 0x12345678 4 noBkpt =
    (Ret tt, demoMem, BreakPointHandler.mk true (Some (mkBkptInfo "memory" 8 (InfoInt 6)))).
Proof.
  split; [split; [exact demoMem_endsDeclared | exact demoMem_noSegment_6_4]|].
  exact (Memory_illegal_address demoMem 6 0x12345678 4 false noBkpt
           demoMem_endsDeclared demoMem_noSegment_6_4).
Defined.

(** ** Stepping through the simulator's computations *)

Import Simulator.

Lemma with_bkpt_id s : with_bkpt (breakpointHandler s) s = s.
Proof. destruct s; reflexivity. Qed.

Lemma bind_eq {S A B} (c : M S A) (k : A -> M S B) s a s' :
  c s = (Ret a, s') -> bind c k s = k a s'.
Proof. intros H. unfold bind. rewrite H. reflexivity. Qed.

Lemma bkptOnly_ret {A} (a : A) : bkptOnly (ret a).
Proof. intros s. exists a. intros h0. exists h0. reflexivity. Qed.

Lemma bkptOnly_bind {A B} (c : M t A) (k : A -> M t B) :
  bkptOnly c -> (forall a, bkptOnly (k a)) -> bkptOnly (bind c k).
Proof.
  intros Hc Hk s. destruct (Hc s) as [a Ha]. destruct (Hk a s) as [b Hb].
  exists b. intros h0. destruct (Ha h0) as [h1 H1]. destruct (Hb h1) as [h2 H2].
  exists h2. rewrite (bind_eq _ _ _ _ _ H1). exact H2.
Qed.

Lemma bkptOnly_flagBool f : bkptOnly (flagBool f).
Proof.
  intros s. exists (Flag.val (flags s f)). intros h0.
  eexists. unfold flagBool, Flag.bool_, Flag.get. cbn. reflexivity.
Qed.

Lemma bkptOnly_flagsEq f g : bkptOnly (flagsEq f g).
Proof.
  intros s. exists (Flag.eq (flags s f) (flags s g)). intros h0. exists h0.
  reflexivity.
Qed.

Lemma bkptOnly_if {A} (b : bool) (c1 c2 : M t A) :
  bkptOnly c1 -> bkptOnly c2 -> bkptOnly (if b then c1 else c2).
Proof. destruct b; auto. Qed.

Create HintDb bkpt.
#[local] Hint Resolve bkptOnly_ret bkptOnly_bind bkptOnly_flagBool bkptOnly_flagsEq
  bkptOnly_if : bkpt.

Lemma bkptOnly_orChain cs c :
  Forall (fun cl => bkptOnly (snd cl)) cs -> bkptOnly (orChain cs c).
Proof.
  induction 1 as [|[mn test] cs Htest _ IH]; cbn; auto with bkpt.
Qed.

Lemma bkptOnly_conditionNotMet c : bkptOnly (conditionNotMet c).
Proof.
  apply bkptOnly_orChain. unfold conditionClauses, notFlag, notFlagsEq.
  repeat constructor; cbn [snd]; auto 10 with bkpt.
Qed.

Lemma regObj_15 s : length (regs s) = 16%nat -> regObj 15 s = (Ret 15%nat, s).
Proof. intros H. unfold regObj, index. rewrite H. reflexivity. Qed.

Lemma regGetAt_eq k r s :
  regs s !! k = Some r ->
  regGetAt k s =
    (Ret (Register.val r),
     with_bkpt (snd (Register.get r true (breakpointHandler s))) s).
Proof. intros H. unfold regGetAt. rewrite H. reflexivity. Qed.

Lemma regSetAt_eq k r v s :
  regs s !! k = Some r ->
  regSetAt k v s =
    (Ret tt,
     with_regs (<[k := fst (Register.set r v true (breakpointHandler s))]> (regs s))
       (with_bkpt (snd (Register.set r v true (breakpointHandler s))) s)).
Proof. intros H. unfold regSetAt. rewrite H. reflexivity. Qed.

Lemma findSection_declared m addr size keys sec offset :
  (forall k, In k keys -> In k (dict_keys (Memory.startAddr m))) ->
  Memory.findSection m addr size keys = Ret (Some (sec, offset)) ->
  In sec (dict_keys (Memory.startAddr m)).
Proof.
  induction keys as [|k rest IH]; cbn; intros Hkeys H; [discriminate|].
  assert (Hrest : forall k0, In k0 rest -> In k0 (dict_keys (Memory.startAddr m)))
    by (intros; apply Hkeys; now right).
  destruct (getitem (Memory.startAddr m) k) as [s|]; [|discriminate].
  destruct (s <=? addr); [|auto].
  destruct (getitem (Memory.endAddr m) k) as [e|]; [|discriminate].
  destruct (addr <? e - (size - 1)); [|auto].
  injection H as <- _. apply Hkeys. now left.
Qed.

Lemma findSection_no_raise m addr size keys :
  endsDeclared m ->
  (forall k, In k keys -> In k (dict_keys (Memory.startAddr m))) ->
  exists r, Memory.findSection m addr size keys = Ret r.
Proof.
  intros Hends. induction keys as [|k rest IH]; cbn; intros Hkeys; [eauto|].
  assert (Hin : In k (dict_keys (Memory.startAddr m))) by (apply Hkeys; now left).
  destruct (dict_get_In_keys _ _ Hin) as [s Hs]. destruct (Hends _ Hin) as [e He].
  unfold getitem. rewrite Hs, He.
  destruct IH as [r Hr]; [intros; apply Hkeys; now right|].
  destruct (s <=? addr); [|eauto]. destruct (addr <? e - (size - 1)); eauto.
Qed.

Lemma Memory_get_no_raise m addr size execMode h :
  endsDeclared m -> dataDeclared m ->
  exists r h', Memory.get m addr size execMode h = (Ret r, h').
Proof.
  intros Hends Hdata. unfold Memory.get, Memory._getRelativeAddr.
  destruct ((addr <? 0) || (addr >? Memory.maxAddr m - (size - 1))); [eauto|].
  destruct (findSection_no_raise m addr size (dict_keys (Memory.startAddr m)) Hends)
    as [r Hr]; [auto|].
  rewrite Hr. destruct r as [[sec offset]|]; [|eauto].
  apply findSection_declared in Hr; [|auto].
  destruct (Hdata _ Hr) as [buf Hbuf]. unfold getitem. rewrite Hbuf. eauto.
Qed.

Lemma memGet_eq addr size execMode s :
  endsDeclared (mem s) -> dataDeclared (mem s) ->
  exists r h, memGet addr size execMode s = (Ret r, with_bkpt h s).
Proof.
  intros Hends Hdata. unfold memGet.
  destruct (Memory_get_no_raise (mem s) addr size execMode (breakpointHandler s) Hends Hdata)
    as (r & h & H).
  rewrite H. eauto.
Qed.

Lemma bind_modify {S B} (f : S -> S) (k : unit -> M S B) s :
  bind (modify f) k s = k tt (f s).
Proof. reflexivity. Qed.

Lemma bind_gets {S A B} (f : S -> A) (k : A -> M S B) s :
  bind (gets f) k s = k (f s) s.
Proof. reflexivity. Qed.

Lemma bind_lift {S A B} (o : outcome A) (k : A -> M S B) s a :
  o = Ret a -> bind (lift o) k s = k a s.
Proof. intros ->. reflexivity. Qed.

Lemma execInstr_skip dec s d s' :
  dec (fetchedInstr s) = Ret d ->
  conditionNotMet (cond d) s = (Ret true, s') ->
  execInstr dec s = (Ret tt, s').
Proof.
  intros Hdec Hskip. unfold execInstr.
  rewrite bind_gets, (bind_lift _ _ _ _ Hdec), (bind_eq _ _ _ _ _ Hskip).
  reflexivity.
Qed.

Lemma regGet_15 r s :
  length (regs s) = 16%nat -> regs s !! 15%nat = Some r ->
  regGet 15 s =
    (Ret (Register.val r),
     with_bkpt (snd (Register.get r true (breakpointHandler s))) s).
Proof.
  intros Hlen Hr. unfold regGet.
  rewrite (bind_eq _ _ _ _ _ (regObj_15 s Hlen)). apply regGetAt_eq, Hr.
Qed.

Lemma demoMem_dataDeclared : dataDeclared demoMem.
Proof.
  intros sec [<-|[<-|[]]]; cbn; eauto.
Qed.

Lemma regSet_15 r v s :
  length (regs s) = 16%nat -> regs s !! 15%nat = Some r ->
  regSet 15 v s =
    (Ret tt,
     with_regs (<[15%nat := fst (Register.set r v true (breakpointHandler s))]> (regs s))
       (with_bkpt (snd (Register.set r v true (breakpointHandler s))) s)).
Proof.
  intros Hlen Hr. unfold regSet.
  rewrite (bind_eq _ _ _ _ _ (regObj_15 s Hlen)). apply regSetAt_eq, Hr.
Qed.

(** C10 (amended).  In a simulator with its sixteen registers, [reset]
    sets the lifecycle state to ready and [countCycle] to 0, and writes 0
    to R15, appending it to R15's history and keeping R15's mask.  Whether
    it returns or raises, every other register object (value, history and
    mask of R0..R14), every flag object (value and mask), the whole memory
    object (segment bytes, write log, breakpoint masks), [stepMode] and
    the step depth are as before the call.  [fetchedInstr] is replaced
    when the call returns and kept when it raises.  The breakpoint latch
    is the one other thing that can change: it is the old latch after
    the events of the PC write, the PC read and the exec-mode fetch
    at 0. *)
Theorem reset_frame s :
  length (regs s) = 16%nat ->
  let s' := snd (reset s) in
  state s' = ready /\
  countCycle s' = Some 0 /\
  (forall r, regs s !! 15%nat = Some r ->
             regs s' !! 15%nat =
               Some (Register.mk (Register.id r) 0 (Register.altname r)
                       (Register.history r ++ [0]) (Register.breakpoint r))) /\
  (forall k, k <> 15%nat -> regs s' !! k = regs s !! k) /\
  (forall f, flags s' f = flags s f) /\
  mem s' = mem s /\
  stepMode s' = stepMode s /\
  stepCondition s' = stepCondition s /\
  match fst (reset s) with
  | Ret _ => exists b, fetchedInstr s' = Some b
  | Raise _ => fetchedInstr s' = fetchedInstr s
  end /\
  (forall pc, regs s !! 15%nat = Some pc ->
              breakpointHandler s' = resetLatch (breakpointHandler s) pc (mem s)).
Proof.
  intros Hlen.
  destruct (regs s !! 15%nat) as [r|] eqn:Hr;
    [|apply lookup_ge_None in Hr; lia].
  set (s1 := with_countCycle (Some 0) (with_state ready s)).
  set (r' := fst (Register.set r 0 true (breakpointHandler s1))).
  set (s2 := with_regs (<[15%nat := r']> (regs s1))
               (with_bkpt (snd (Register.set r 0 true (breakpointHandler s1))) s1)).
  assert (Hr' : regs s2 !! 15%nat = Some r').
  { cbn. apply list_lookup_insert_eq. lia. }
  assert (Hlen2 : length (regs s2) = 16%nat).
  { cbn. rewrite length_insert. exact Hlen. }
  set (s3 := with_bkpt (snd (Register.get r' true (breakpointHandler s2))) s2).
  destruct (Memory.get (mem s) (Register.val r') 4 true (breakpointHandler s3))
    as [o h] eqn:Hmg.
  assert (Hget : memGet (Register.val r') 4 true s3 = (o, with_bkpt h s3)).
  { unfold memGet. change (mem s3) with (mem s). rewrite Hmg. reflexivity. }
  assert (Hlatch : resetLatch (breakpointHandler s) r (mem s) = h).
  { change (resetLatch (breakpointHandler s) r (mem s))
      with (snd (Memory.get (mem s) (Register.val r') 4 true (breakpointHandler s3))).
    rewrite Hmg. reflexivity. }
  assert (Hreset : reset s =
            match o with
            | Ret (Some b) => (Ret tt, with_fetchedInstr (Some b) (with_bkpt h s3))
            | Ret None => (Raise TypeError, with_bkpt h s3)
            | Raise e => (Raise e, with_bkpt h s3)
            end).
  { unfold reset. rewrite !bind_modify. fold s1.
    rewrite (bind_eq _ _ _ _ _ (regSet_15 r 0 s1 Hlen Hr)).
    rewrite (bind_eq _ _ _ _ _ (regGet_15 r' s2 Hlen2 Hr')).
    fold s3. unfold bind at 1. rewrite Hget. destruct o as [[b|]|e]; reflexivity. }
  cbn zeta. rewrite Hreset.
  destruct o as [[b|]|e]; cbn -[resetLatch];
    repeat match goal with |- _ /\ _ => split end;
    try reflexivity; eauto;
    try (intros r0 [= <-]; rewrite list_lookup_insert_eq by lia; reflexivity);
    try (intros k Hk; apply list_lookup_insert_ne; congruence);
    try (intros r0 [= <-]; symmetry; exact Hlatch).
Qed.

Lemma reset_frame_witness :
  length (regs (demoSim 5 6 true false false true)) = 16%nat /\
  let s' := snd (reset (demoSim 5 6 true false false true)) in
  state s' = ready /\ countCycle s' = Some 0 /\
  regVal s' 0 = Some 5 /\ regVal s' 1 = Some 6 /\ regVal s' 15 = Some 0 /\
  flagVals s' = (true, true, false, false) /\
  mem s' = demoMem.
Proof.
  split; [reflexivity|].
  destruct (reset_frame (demoSim 5 6 true false false true) eq_refl)
    as (Hst & Hcc & Hpc & Hregs & Hflags & Hmem & _).
  cbn zeta.
  split; [exact Hst|]. split; [exact Hcc|].
  split; [unfold regVal; rewrite (Hregs 0%nat) by lia; reflexivity|].
  split; [unfold regVal; rewrite (Hregs 1%nat) by lia; reflexivity|].
  split; [unfold regVal; rewrite (Hpc _ eq_refl); reflexivity|].
  split; [unfold flagVals, flagVal; rewrite !Hflags; reflexivity|].
  exact Hmem.
Defined.

(** The claim as first stated, "modifies only the lifecycle state,
    [countCycle], PC and [fetchedInstr]", fails on a memory with an exec
    mark on address 0: [reset] returns, and the latch, clear before the
    call, holds the event (memory, 1, 0) after it. *)
Lemma reset_frame_counterexample :
  fst (reset (with_mem (Memory.setBreakpoint demoMem 0 1)
                (demoSim 5 6 false false false false))) = Ret tt /\
  breakpointHandler (with_mem (Memory.setBreakpoint demoMem 0 1)
                       (demoSim 5 6 false false false false)) = noBkpt /\
  breakpointHandler
    (snd (reset (with_mem (Memory.setBreakpoint demoMem 0 1)
                   (demoSim 5 6 false false false false))))
    = BreakPointHandler.mk true (Some (mkBkptInfo "memory" 1 (InfoInt 0))).
Proof. vm_compute. repeat split; reflexivity. Qed.

(** The check agrees with the ARM table on the thirteen conditional
    mnemonics it spells correctly and on AL. *)
Lemma conditionNotMet_table s c :
  In c ["EQ"; "NE"; "CS"; "CC"; "MI"; "VS"; "VC"; "HI"; "LS"; "GE"; "LT"; "GT"; "LE"; "AL"] ->
  fst (conditionNotMet c s) =
    Ret (negb (armCondition c (flagVal s FZ) (flagVal s FC) (flagVal s FN) (flagVal s FV))).
Proof.
  intros H. unfold flagVal. destruct s as [st bh m rs sm sc fl fi cc]. cbn [flags].
  repeat (destruct H as [<-|H]); try contradiction;
    destruct (fl FZ) as [nz [] bz] eqn:HZ, (fl FC) as [nc [] bc] eqn:HC,
             (fl FN) as [nn [] bn] eqn:HN, (fl FV) as [nv [] bv] eqn:HV;
    cbn; unfold bind, flagBool, flagsEq, gets, ret; cbn;
    rewrite ?HZ, ?HC, ?HN, ?HV; cbn; rewrite ?HZ, ?HC, ?HN, ?HV; reflexivity.
Qed.

(** PL and NV match no clause: such an instruction is always executed. *)
Lemma conditionNotMet_PL_NV s c :
  c = "PL" \/ c = "NV" -> conditionNotMet c s = (Ret false, s).
Proof. intros [->| ->]; reflexivity. Qed.

(** For the mnemonics the check spells correctly, an ARM-false condition
    takes the early return. *)
Lemma conditionNotMet_of_armCondition s c :
  In c ["EQ"; "NE"; "CS"; "CC"; "MI"; "VS"; "VC"; "HI"; "LS"; "GE"; "LT"; "GT"; "LE"] ->
  armCondition c (flagVal s FZ) (flagVal s FC) (flagVal s FN) (flagVal s FV) = false ->
  fst (conditionNotMet c s) = Ret true.
Proof.
  intros Hc Harm. rewrite conditionNotMet_table, Harm; [reflexivity|].
  change (In c (["EQ"; "NE"; "CS"; "CC"; "MI"; "VS"; "VC"; "HI"; "LS"; "GE";
                 "LT"; "GT"; "LE"] ++ ["AL"])).
  apply in_or_app. now left.
Qed.

(** ** A cycle on an instruction whose condition is false *)

Lemma Memory_get_result m addr size execMode h h' :
  fst (Memory.get m addr size execMode h) = fst (Memory.get m addr size execMode h').
Proof.
  unfold Memory.get.
  destruct (Memory._getRelativeAddr m addr size) as [[[sec offset]|]|e]; try reflexivity.
  cbn. destruct (getitem (Memory.data m) sec); reflexivity.
Qed.

Lemma quiet_bind {A B} (c : M t A) (k : A -> M t B) s :
  snd (c s) = s -> (forall a, snd (k a s) = s) -> snd (bind c k s) = s.
Proof.
  intros Hc Hk. unfold bind. destruct (c s) as [[a|e] s1]; cbn in *; subst s1; auto.
Qed.

Lemma quiet_flagBool f s : flagsUnwatched s -> snd (flagBool f s) = s.
Proof.
  intros H. unfold flagBool, Flag.bool_, Flag.get. cbn. rewrite (H f).
  cbn. apply with_bkpt_id.
Qed.

Lemma quiet_orChain cs c s :
  Forall (fun cl => snd (snd cl s) = s) cs -> snd (orChain cs c s) = s.
Proof.
  induction 1 as [|[mn test] cs Htest _ IH]; cbn; [reflexivity|].
  destruct (String.eqb c mn); [|exact IH].
  apply quiet_bind; [exact Htest|]. intros [|]; [reflexivity|exact IH].
Qed.

Lemma quiet_conditionNotMet c s :
  flagsUnwatched s -> snd (conditionNotMet c s) = s.
Proof.
  intros H. apply quiet_orChain. unfold conditionClauses, notFlag, notFlagsEq.
  repeat constructor; cbn [snd];
    repeat first [ apply quiet_flagBool; exact H
                 | reflexivity
                 | apply quiet_bind
                 | intros [|] ].
Qed.

(** C9 (amended).  Let the fetched word decode to an instruction whose
    condition is one of the thirteen mnemonics EQ, NE, CS, CC, MI, VS, VC,
    HI, LS, GE, LT, GT, LE and is false on the current flags, in a
    simulator with its sixteen registers, a memory whose segments all have
    an end address and a buffer, and a cycle counter (set by [reset]).
    Then [nextInstr] returns normally and leaves the register objects
    R0..R14, the four flag objects, the whole memory object (segment
    bytes, write log, masks), the lifecycle state and the step depth as
    they were.  What changes is: PC, which becomes (PC + 4) mod 2^32 (the
    value is appended to its history); [countCycle], which grows by one;
    the fetch buffer, which receives the four bytes at the new PC, or is
    kept when they are not mapped; the breakpoint latch, which is cleared
    and then records the events of the cycle (a watched flag read by the
    check, the PC accesses, the fetch); and [stepMode], which is cleared
    when the latch ends triggered.  PL and NV are left out: the check
    does not recognise them. *)
Theorem nextInstr_condition_false dec s d n :
  dec (fetchedInstr s) = Ret d ->
  In (cond d) ["EQ"; "NE"; "CS"; "CC"; "MI"; "VS"; "VC"; "HI"; "LS"; "GE"; "LT";
               "GT"; "LE"] ->
  armCondition (cond d) (flagVal s FZ) (flagVal s FC) (flagVal s FN) (flagVal s FV)
    = false ->
  length (regs s) = 16%nat ->
  endsDeclared (mem s) -> dataDeclared (mem s) ->
  countCycle s = Some n ->
  exists s',
    nextInstr dec s = (Ret tt, s') /\
    (forall k, (k < 15)%nat -> regs s' !! k = regs s !! k) /\
    (forall f, flags s' f = flags s f) /\
    mem s' = mem s /\
    regVal s' 15 = (fun pc => Z.land (pc + 4) 0xFFFFFFFF) <$> regVal s 15 /\
    countCycle s' = Some (n + 1) /\
    state s' = state s /\
    stepCondition s' = stepCondition s /\
    length (regs s') = 16%nat /\
    (forall pc, regs s !! 15%nat = Some pc ->
       regs s' !! 15%nat = Some (written pc (Register.val pc + 4)) /\
       fetchedInstr s' = refetch s ((Register.val pc + 4) mod 2 ^ 32) /\
       breakpointHandler s' = cycleLatch (checkLatch (cond d) s) pc (mem s)) /\
    stepMode s' = (if BreakPointHandler.breakpointTrigged (breakpointHandler s')
                   then None else stepMode s) /\
    (flagsUnwatched s -> checkLatch (cond d) s = noBkpt).
Proof.
  intros Hdec Hin Harm Hlen Hends Hdata Hcc.
  pose proof (conditionNotMet_of_armCondition s (cond d) Hin Harm) as Hcond.
  destruct (bkptOnly_conditionNotMet (cond d) s) as [b Hb].
  assert (b = true) as ->.
  { destruct (Hb (breakpointHandler s)) as [h Hh].
    rewrite with_bkpt_id in Hh. rewrite Hh in Hcond. now injection Hcond. }
  destruct (Hb (BreakPointHandler.reset (breakpointHandler s))) as [h1 Hh1].
  assert (Hcheck : checkLatch (cond d) s = h1).
  { unfold checkLatch.
    change (with_bkpt noBkpt s)
      with (with_bkpt (BreakPointHandler.reset (breakpointHandler s)) s).
    rewrite Hh1. reflexivity. }
  destruct (regs s !! 15%nat) as [r|] eqn:Hr;
    [|apply lookup_ge_None in Hr; lia].
  set (s1 := with_bkpt (BreakPointHandler.reset (breakpointHandler s)) s) in *.
  set (s2 := with_bkpt h1 s) in *.
  set (s3 := with_bkpt (snd (Register.get r true (breakpointHandler s2))) s2).
  set (r' := fst (Register.set r (Register.val r + 4) true (breakpointHandler s3))).
  set (s4 := with_regs (<[15%nat := r']> (regs s3))
               (with_bkpt (snd (Register.set r (Register.val r + 4) true
                                  (breakpointHandler s3))) s3)).
  assert (Hr' : regs s4 !! 15%nat = Some r').
  { cbn. apply list_lookup_insert_eq. lia. }
  assert (Hlen4 : length (regs s4) = 16%nat).
  { cbn. rewrite length_insert. exact Hlen. }
  set (s5 := with_bkpt (snd (Register.get r' true (breakpointHandler s4))) s4).
  assert (Hval : Register.val r' = (Register.val r + 4) mod 2 ^ 32).
  { unfold r'. cbn. change 0xFFFFFFFF with (Z.ones 32). apply Z.land_ones. lia. }
  assert (Hwritten : r' = written r (Register.val r + 4)).
  { unfold r', written. cbn. change 0xFFFFFFFF with (Z.ones 32).
    rewrite Z.land_ones by lia. reflexivity. }
  destruct (Memory_get_no_raise (mem s) (Register.val r') 4 true (breakpointHandler s5)
              Hends Hdata) as (fetched & h2 & Hget).
  assert (Hfetch : memGet (Register.val r') 4 true s5 = (Ret fetched, with_bkpt h2 s5)).
  { unfold memGet. change (mem s5) with (mem s). rewrite Hget. reflexivity. }
  assert (Hlatch : cycleLatch h1 r (mem s) = h2).
  { change (cycleLatch h1 r (mem s))
      with (snd (Memory.get (mem s) (Register.val r') 4 true (breakpointHandler s5))).
    rewrite Hget. reflexivity. }
  assert (Hre : refetch s ((Register.val r + 4) mod 2 ^ 32) =
                match fetched with Some b => Some b | None => fetchedInstr s end).
  { unfold refetch. rewrite <- Hval.
    rewrite (Memory_get_result (mem s) (Register.val r') 4 true noBkpt
               (breakpointHandler s5)), Hget.
    reflexivity. }
  set (s6 := match fetched with
             | Some b => with_fetchedInstr (Some b) (with_bkpt h2 s5)
             | None => with_bkpt h2 s5
             end).
  set (s7 := if BreakPointHandler.breakpointTrigged h2
             then with_stepMode None s6 else s6).
  exists (with_countCycle (Some (n + 1)) s7).
  assert (Hregs : regs s7 = <[15%nat := r']> (regs s)).
  { subst s7 s6. destruct fetched, (BreakPointHandler.breakpointTrigged h2); reflexivity. }
  assert (Hbh : breakpointHandler s7 = h2).
  { subst s7 s6. destruct fetched, (BreakPointHandler.breakpointTrigged h2); reflexivity. }
  split; [|split; [|split; [|split; [|split; [|split; [|split;
    [|split; [|split; [|split; [|split]]]]]]]]]].
  - unfold nextInstr. rewrite bind_modify.
    rewrite (bind_eq _ _ _ _ _ (execInstr_skip dec s1 d s2 Hdec Hh1)).
    rewrite (bind_eq _ _ _ _ _ (regObj_15 s2 Hlen)).
    rewrite (bind_eq _ _ _ _ _ (regGet_15 r s2 Hlen Hr)).
    rewrite (bind_eq _ _ _ _ _ (regSetAt_eq 15 r _ s3 Hr)).
    rewrite (bind_eq _ _ _ _ _ (regGet_15 r' s4 Hlen4 Hr')).
    rewrite (bind_eq _ _ _ _ _ Hfetch).
    subst s7 s6. unfold bind, modify, gets, ret.
    destruct fetched, (BreakPointHandler.breakpointTrigged h2) eqn:Htrig;
      cbn; rewrite Htrig; cbn; rewrite Hcc; reflexivity.
  - intros k Hk. cbn. rewrite Hregs. apply list_lookup_insert_ne. lia.
  - intros f. subst s7 s6.
    destruct fetched, (BreakPointHandler.breakpointTrigged h2); reflexivity.
  - subst s7 s6.
    destruct fetched, (BreakPointHandler.breakpointTrigged h2); reflexivity.
  - unfold regVal. cbn. rewrite Hregs, Hr.
    rewrite list_lookup_insert_eq by lia. reflexivity.
  - reflexivity.
  - subst s7 s6.
    destruct fetched, (BreakPointHandler.breakpointTrigged h2); reflexivity.
  - subst s7 s6.
    destruct fetched, (BreakPointHandler.breakpointTrigged h2); reflexivity.
  - cbn. rewrite Hregs, length_insert. exact Hlen.
  - intros pc [= <-]. split; [|split].
    + cbn. rewrite Hregs, <- Hwritten. apply list_lookup_insert_eq. lia.
    + rewrite Hre. subst s7 s6.
      destruct fetched, (BreakPointHandler.breakpointTrigged h2); reflexivity.
    + rewrite Hcheck, Hlatch. exact Hbh.
  - change (breakpointHandler (with_countCycle (Some (n + 1)) s7))
      with (breakpointHandler s7).
    rewrite Hbh. subst s7 s6.
    destruct fetched, (BreakPointHandler.breakpointTrigged h2); reflexivity.
  - intros Hquiet. unfold checkLatch.
    rewrite quiet_conditionNotMet; [reflexivity|exact Hquiet].
Qed.

(** MOVEQ R0, #1 with Z clear, from PC = 0: the word at 4 is fetched, the
    latch stays clear and nothing else moves. *)
Lemma nextInstr_condition_false_witness :
  exists s',
    nextInstr (fun _ => Ret (movR0 1 false "EQ")) (demoSim 5 6 false false false false)
      = (Ret tt, s') /\
    regVal s' 0 = Some 5 /\
    regVal s' 15 = Some 4 /\
    countCycle s' = Some 1 /\
    fetchedInstr s' = Some [x00; x00; x00; x00] /\
    breakpointHandler s' = noBkpt /\
    stepMode s' = None.
Proof.
  destruct (nextInstr_condition_false
              (fun _ => Ret (movR0 1 false "EQ"))
              (demoSim 5 6 false false false false)
              (movR0 1 false "EQ") 0
              eq_refl ltac:(now left) eq_refl eq_refl
              demoMem_endsDeclared demoMem_dataDeclared eq_refl)
    as (s' & Hrun & Hregs & _ & _ & Hpc & Hcc & _ & _ & _ & Hnew & Hmode & Hquiet).
  destruct (Hnew (mkReg 15 0) eq_refl) as (_ & Hfetch & Hlatch).
  rewrite (Hquiet ltac:(intros []; reflexivity)) in Hlatch.
  exists s'. split; [exact Hrun|]. split; [|split; [|split; [|split; [|split]]]].
  - unfold regVal. rewrite (Hregs 0%nat) by lia. reflexivity.
  - exact Hpc.
  - exact Hcc.
  - exact Hfetch.
  - exact Hlatch.
  - rewrite Hmode, Hlatch. reflexivity.
Defined.

(** The claim as first stated, "the only state changes are PC and
    [countCycle]", fails on the same cycle: MOVEQ R0, #1 with Z clear is
    skipped, and the fetch buffer, which held the word at 0, holds the
    word at 4 afterwards.  A latched event is dropped as well, and a
    step mode survives only when no event is latched. *)
Lemma nextInstr_condition_false_counterexample :
  armCondition "EQ" false false false false = false /\
  fst (nextInstr (fun _ => Ret (movR0 1 false "EQ"))
         (demoSim 5 6 false false false false)) = Ret tt /\
  fetchedInstr (demoSim 5 6 false false false false) = Some [x01; x10; xa0; xe3] /\
  fetchedInstr (snd (nextInstr (fun _ => Ret (movR0 1 false "EQ"))
                       (demoSim 5 6 false false false false)))
    = Some [x00; x00; x00; x00] /\
  breakpointHandler
    (snd (nextInstr (fun _ => Ret (movR0 1 false "EQ"))
            (with_bkpt (BreakPointHandler.mk true
                          (Some (mkBkptInfo "register" 2 (InfoInt 3))))
               (demoSim 5 6 false false false false)))) = noBkpt.
Proof. vm_compute. repeat split; reflexivity. Qed.

(** ** Serialisation *)

Lemma insert_by_value_perm x l : Permutation (insert_by_value x l) (x :: l).
Proof.
  induction l as [|y l IH]; cbn; [reflexivity|].
  destruct (snd x <=? snd y); [reflexivity|].
  rewrite IH. apply perm_swap.
Qed.

Lemma sorted_by_value_perm l : Permutation (sorted_by_value l) l.
Proof.
  induction l as [|x l IH]; cbn; [reflexivity|].
  rewrite insert_by_value_perm. now constructor.
Qed.

Lemma insert_by_value_sorted x l :
  StronglySorted by_value l -> StronglySorted by_value (insert_by_value x l).
Proof.
  induction 1 as [|y l Hl IH Hy]; cbn.
  - repeat constructor.
  - destruct (snd x <=? snd y) eqn:Hxy.
    + constructor; [now constructor|].
      constructor; [unfold by_value; lia|].
      eapply Forall_impl; [exact Hy|]. unfold by_value. intros z Hz. lia.
    + constructor; [exact IH|].
      rewrite insert_by_value_perm. constructor; [unfold by_value; lia|exact Hy].
Qed.

Lemma sorted_by_value_sorted l : StronglySorted by_value (sorted_by_value l).
Proof.
  induction l; cbn; [constructor|]. now apply insert_by_value_sorted.
Qed.

Lemma dict_get_In {V} (d : dict V) k v : dict_get d k = Some v -> In (k, v) d.
Proof.
  induction d as [|[k' v'] d IH]; cbn; [discriminate|].
  destruct (String.eqb k k') eqn:Hk.
  - apply String.eqb_eq in Hk as ->. intros [= ->]. now left.
  - auto.
Qed.

Lemma In_dict_get {V} (d : dict V) k v :
  NoDup (dict_keys d) -> In (k, v) d -> dict_get d k = Some v.
Proof.
  induction d as [|[k' v'] d IH]; cbn; [tauto|].
  intros Hnd [Heq|Hin].
  - injection Heq as -> ->. now rewrite String.eqb_refl.
  - inversion Hnd as [|? ? Hnotin Hnd']; subst.
    destruct (String.eqb k k') eqn:Hk.
    + apply String.eqb_eq in Hk as ->. exfalso. apply Hnotin.
      apply list_elem_of_In, in_map_iff. exists (k', v). auto.
    + auto.
Qed.

(** ** The image built by the serialisation loop *)

Section Serialize.

Variable m : Memory.t.

Lemma covered_app_l P Q a : covered m P a -> covered m (P ++ Q) a.
Proof.
  intros (sec & s & e & Hin & He & Ha). exists sec, s, e.
  split; [apply in_or_app; now left|auto].
Qed.

Lemma emitted_nil : emitted m [] [].
Proof.
  split; [|split].
  - intros sec s e buf [].
  - now left.
  - cbn. intros a Ha. lia.
Qed.

Lemma emit_eq img sec s e buf :
  dict_get (Memory.endAddr m) sec = Some e ->
  dict_get (Memory.data m) sec = Some buf ->
  Memory.emit m img (sec, s) =
    Ret (((img ++ zeros (s - Z.of_nat (length img))) ++ buf)
           ++ zeros (e - s - Z.of_nat (length buf))).
Proof.
  intros He Hbuf. unfold Memory.emit, getitem. rewrite Hbuf, He. reflexivity.
Qed.

Lemma emit_step P img sec s e buf :
  emitted m P img ->
  dict_get (Memory.endAddr m) sec = Some e ->
  dict_get (Memory.data m) sec = Some buf ->
  Z.of_nat (length buf) = e - s ->
  0 <= s ->
  (forall sec' s' e',
      In (sec', s') P -> dict_get (Memory.endAddr m) sec' = Some e' ->
      s' <= s /\ (e' <= s \/ e <= s')) ->
  exists img', Memory.emit m img (sec, s) = Ret img' /\
               emitted m (P ++ [(sec, s)]) img'.
Proof.
  intros (I1 & I2 & I3) He Hbuf Hlen Hs Hprev.
  rewrite (emit_eq img sec s e buf He Hbuf). eexists. split; [reflexivity|].
  replace (e - s - Z.of_nat (length buf)) with 0 by lia.
  change (zeros 0) with (@nil byte). rewrite app_nil_r.
  remember (Z.of_nat (length img)) as L eqn:HL0.
  assert (Hcase : L <= s \/ (s < L /\ s = e)).
  { destruct I2 as [H0|(sec' & s' & Hin & He')]; [lia|].
    destruct (Hprev sec' s' L Hin He') as [Hle [H|H]]; lia. }
  destruct Hcase as [HL|[HL Hse]].
  - (* the image ends at or before the segment start *)
    assert (Hz : length (zeros (s - L)) = Z.to_nat (s - L))
      by apply length_replicate.
    assert (Hlen' : Z.of_nat (length ((img ++ zeros (s - L)) ++ buf)) = e).
    { rewrite !length_app, Hz. lia. }
    split; [|split].
    + intros sec0 s0 e0 buf0 Hin He0 Hbuf0.
      apply in_app_or in Hin as [Hin|[[= <- <-]|[]]].
      * destruct (I1 sec0 s0 e0 buf0 Hin He0 Hbuf0) as [Hle Hbytes].
        split; [lia|]. intros a Ha0 Ha.
        rewrite <- Hbytes by assumption. rewrite <- app_assoc.
        apply lookup_app_l. lia.
      * rewrite He in He0. injection He0 as <-.
        rewrite Hbuf in Hbuf0. injection Hbuf0 as <-.
        split; [lia|]. intros a Ha0 Ha.
        rewrite lookup_app_r by (rewrite length_app, Hz; lia).
        f_equal. rewrite length_app, Hz. lia.
    + right. exists sec, s. split; [apply in_or_app; right; now left|].
      rewrite Hlen'. exact He.
    + intros a Ha Hnot. rewrite Hlen' in Ha.
      destruct (Z_lt_ge_dec a L) as [HaL|HaL].
      * rewrite <- app_assoc, lookup_app_l by lia.
        apply I3; [lia|]. intros Hc. apply Hnot. now apply covered_app_l.
      * destruct (Z_lt_ge_dec a s) as [Has|Has].
        -- rewrite lookup_app_l by (rewrite length_app, Hz; lia).
           rewrite lookup_app_r by lia.
           apply lookup_replicate_2. lia.
        -- exfalso. apply Hnot. exists sec, s, e.
           split; [apply in_or_app; right; now left|]. split; [exact He|lia].
  - (* an empty segment inside the part already emitted *)
    assert (buf = []) as -> by (apply length_zero_iff_nil; lia).
    replace (zeros (s - L)) with (@nil byte)
      by (unfold zeros; replace (Z.to_nat (s - L)) with 0%nat by lia; reflexivity).
    rewrite !app_nil_r. subst L.
    split; [|split].
    + intros sec0 s0 e0 buf0 Hin He0 Hbuf0.
      apply in_app_or in Hin as [Hin|[[= <- <-]|[]]];
        [exact (I1 sec0 s0 e0 buf0 Hin He0 Hbuf0)|].
      rewrite He in He0. injection He0 as <-. split; [lia|]. intros a Ha0 Ha. lia.
    + right. destruct I2 as [H0|(sec' & s' & Hin & He')]; [lia|].
      exists sec', s'. split; [apply in_or_app; now left|exact He'].
    + intros a Ha Hnot. apply I3; [exact Ha|].
      intros Hc. apply Hnot. now apply covered_app_l.
Qed.

Hypothesis Hwf : MemoryWellFormed m.

Lemma start_lookup sec s :
  In (sec, s) (Memory.startAddr m) ->
  dict_get (Memory.startAddr m) sec = Some s.
Proof. apply In_dict_get, (wf_unique m Hwf). Qed.

Lemma emitAll_emitted items : forall P img,
  (forall x, In x (P ++ items) -> In x (Memory.startAddr m)) ->
  NoDup (map fst (P ++ items)) ->
  StronglySorted by_value items ->
  (forall p i, In p P -> In i items -> snd p <= snd i) ->
  emitted m P img ->
  exists img', Memory.emitAll m img items = Ret img' /\
               emitted m (P ++ items) img'.
Proof.
  induction items as [|[sec s] rest IH]; intros P img Hin Hnd Hsorted Hord Hinv.
  - exists img. rewrite app_nil_r. split; [reflexivity|exact Hinv].
  - assert (Hs : dict_get (Memory.startAddr m) sec = Some s).
    { apply start_lookup, Hin, in_or_app. right. now left. }
    destruct (wf_ends m Hwf sec) as [e He].
    { apply in_map_iff. exists (sec, s). split; [reflexivity|].
      apply Hin, in_or_app. right. now left. }
    destruct (wf_buffer m Hwf sec s e Hs He) as (buf & Hbuf & Hlen).
    destruct (emit_step P img sec s e buf Hinv He Hbuf Hlen
                (wf_start m Hwf sec s Hs)) as (img1 & Hemit & Hinv1).
    { intros sec' s' e' Hin' He'. split.
      - apply (Hord (sec', s') (sec, s) Hin'). now left.
      - assert (Hs' : dict_get (Memory.startAddr m) sec' = Some s').
        { apply start_lookup, Hin, in_or_app. now left. }
        refine (wf_disjoint m Hwf sec' sec s' e' s e _ Hs' He' Hs He).
        intros ->. rewrite map_app in Hnd. apply NoDup_app in Hnd as (_ & Hdis & _).
        apply (Hdis sec).
        + apply list_elem_of_In, in_map_iff. exists (sec, s'). auto.
        + cbn. left. }
    inversion Hsorted as [|? ? Hsorted' Hfirst]; subst.
    destruct (IH (P ++ [(sec, s)]) img1) as (img' & Hall & Hinv').
    + intros x Hx. apply Hin. rewrite <- app_assoc in Hx. exact Hx.
    + rewrite <- app_assoc. exact Hnd.
    + exact Hsorted'.
    + intros p i Hp Hi. apply in_app_or in Hp as [Hp|[<-|[]]].
      * apply Hord; [exact Hp|now right].
      * rewrite Forall_forall in Hfirst. apply Hfirst, list_elem_of_In, Hi.
    + exact Hinv1.
    + exists img'. cbn [Memory.emitAll]. rewrite Hemit. split; [exact Hall|].
      rewrite <- app_assoc in Hinv'. exact Hinv'.
Qed.

End Serialize.

(** C7.  For a memory satisfying the data-model invariants, [serialize]
    returns an image whose length is [maxAddr]; the byte at an address
    inside a declared segment is that segment's current byte at the
    corresponding offset, and the byte at an address of [0, maxAddr)
    outside every declared segment is 0. *)
Theorem serialize_image m :
  MemoryWellFormed m ->
  exists img,
    Memory.serialize m = Ret img /\
    Z.of_nat (length img) = Memory.maxAddr m /\
    (forall sec s e buf a,
        dict_get (Memory.startAddr m) sec = Some s ->
        dict_get (Memory.endAddr m) sec = Some e ->
        dict_get (Memory.data m) sec = Some buf ->
        s <= a < e ->
        img !! Z.to_nat a = buf !! Z.to_nat (a - s)) /\
    (forall a,
        0 <= a < Memory.maxAddr m ->
        (forall sec s e,
            dict_get (Memory.startAddr m) sec = Some s ->
            dict_get (Memory.endAddr m) sec = Some e ->
            ~ (s <= a < e)) ->
        img !! Z.to_nat a = Some x00).
Proof.
  intros Hwf.
  pose proof (sorted_by_value_perm (Memory.startAddr m)) as Hperm.
  destruct (emitAll_emitted m Hwf (sorted_by_value (Memory.startAddr m)) [] [])
    as (img & Hser & I1 & I2 & I3).
  - intros x Hx. cbn in Hx. eapply Permutation_in; [exact Hperm|exact Hx].
  - cbn. rewrite Hperm. exact (wf_unique m Hwf).
  - apply sorted_by_value_sorted.
  - intros p i [].
  - apply emitted_nil.
  - cbn [app] in I1, I2, I3.
    assert (Hin : forall sec s, dict_get (Memory.startAddr m) sec = Some s ->
                                In (sec, s) (sorted_by_value (Memory.startAddr m))).
    { intros sec s Hs. eapply Permutation_in; [symmetry; exact Hperm|].
      now apply dict_get_In. }
    assert (Hout : forall sec s, In (sec, s) (sorted_by_value (Memory.startAddr m)) ->
                                 dict_get (Memory.startAddr m) sec = Some s).
    { intros sec s Hs. apply (start_lookup m Hwf).
      eapply Permutation_in; [exact Hperm|exact Hs]. }
    assert (Hlen : Z.of_nat (length img) = Memory.maxAddr m).
    { destruct (wf_maxAddr_reached m Hwf) as [sec He].
      assert (Hkey : In sec (dict_keys (Memory.startAddr m)))
        by (apply (wf_ends_only m Hwf); eauto).
      destruct (dict_get_In_keys _ _ Hkey) as [s Hs].
      destruct (wf_buffer m Hwf sec s _ Hs He) as (buf & Hbuf & Hbl).
      destruct (I1 sec s _ buf (Hin sec s Hs) He Hbuf) as [Hle _].
      pose proof (wf_start m Hwf sec s Hs).
      destruct I2 as [H0|(sec' & s' & Hin' & He')]; [lia|].
      pose proof (wf_maxAddr_bound m Hwf sec' _ He'). lia. }
    exists img. split; [exact Hser|]. split; [exact Hlen|]. split.
    + intros sec s e buf a Hs He Hbuf Ha.
      destruct (I1 sec s e buf (Hin sec s Hs) He Hbuf) as [_ Hbytes].
      apply Hbytes; [|exact Ha]. pose proof (wf_start m Hwf sec s Hs). lia.
    + intros a Ha Hno. apply I3; [lia|].
      intros (sec & s & e & Hsec & He & Hrange).
      exact (Hno sec s e (Hout sec s Hsec) He Hrange).
Qed.

(** The constructor computes [maxAddr] as the invariant requires. *)
Lemma fold_max_bound xs : forall x,
  x <= fold_left Z.max xs x /\ (forall y, In y xs -> y <= fold_left Z.max xs x) /\
  (fold_left Z.max xs x = x \/ In (fold_left Z.max xs x) xs).
Proof.
  induction xs as [|z xs IH]; intros x; cbn.
  - split; [lia|]. split; [tauto|now left].
  - destruct (IH (Z.max x z)) as (H1 & H2 & H3). split; [lia|]. split.
    + intros y [<-|Hy]; [lia|auto].
    + destruct H3 as [H3|H3]; [|now right; right].
      rewrite H3. destruct (Z.max_spec x z) as [[_ ->]|[_ ->]]; [right|]; now left.
Qed.

Lemma max_spec xs mx :
  Py.max xs = Ret mx -> In mx xs /\ forall y, In y xs -> y <= mx.
Proof.
  destruct xs as [|x xs]; cbn; [discriminate|]. intros [= <-].
  destruct (fold_max_bound xs x) as (H1 & H2 & H3). split.
  - destruct H3 as [->|H3]; [now left|now right].
  - intros y [<-|Hy]; auto.
Qed.

Lemma init_maxAddr memcontent start end_ m :
  Memory.init memcontent start end_ = Ret m ->
  NoDup (dict_keys end_) ->
  (exists sec, dict_get (Memory.endAddr m) sec = Some (Memory.maxAddr m)) /\
  (forall sec e, dict_get (Memory.endAddr m) sec = Some e -> e <= Memory.maxAddr m).
Proof.
  unfold Memory.init. intros Hinit Hnd.
  destruct (Py.max (dict_values end_)) as [mx|] eqn:Hmax; [|discriminate].
  destruct (negb _); [discriminate|].
  destruct (Memory.copyBuffers _ _) as [d|]; [|discriminate].
  injection Hinit as <-. cbn.
  apply max_spec in Hmax as [Hin Hbound]. split.
  - apply in_map_iff in Hin as ([sec e] & <- & Hin).
    exists sec. now apply In_dict_get.
  - intros sec e He. apply Hbound, in_map_iff. exists (sec, e).
    split; [reflexivity|]. now apply dict_get_In.
Qed.

Lemma smallMem_wf : MemoryWellFormed smallMem.
Proof.
  constructor.
  - apply (bool_decide_unpack _). vm_compute. exact I.
  - intros sec [<-|[<-|[]]]; cbn; eauto.
  - intros sec [e He]. cbn in *.
    dict_case sec "B"; [now left|]. dict_case sec "A"; [right; now left|discriminate].
  - intros sec s Hs. cbn in *.
    dict_case sec "B"; [injection Hs as <-; lia|].
    dict_case sec "A"; [injection Hs as <-; lia|discriminate].
  - intros sec s e Hs He. cbn in *.
    dict_case sec "B"; [injection Hs as <-; injection He as <-; eexists; split; [reflexivity|reflexivity]|].
    dict_case sec "A"; [injection Hs as <-; injection He as <-; eexists; split; [reflexivity|reflexivity]|discriminate].
  - intros sec1 sec2 s1 e1 s2 e2 Hne H1 H2 H3 H4. cbn in *.
    dict_case sec1 "B"; [|dict_case sec1 "A"; [|discriminate]];
      (dict_case sec2 "B"; [|dict_case sec2 "A"; [|discriminate]]);
      try congruence;
      injection H1 as <-; injection H2 as <-; injection H3 as <-; injection H4 as <-; lia.
  - exists "B". reflexivity.
  - intros sec e He. cbn in *.
    dict_case sec "B"; [injection He as <-; lia|].
    dict_case sec "A"; [injection He as <-; lia|discriminate].
Qed.

Lemma serialize_image_witness :
  MemoryWellFormed smallMem /\
  exists img,
    Memory.serialize smallMem = Ret img /\
    Z.of_nat (length img) = Memory.maxAddr smallMem /\
    (forall sec s e buf a,
        dict_get (Memory.startAddr smallMem) sec = Some s ->
        dict_get (Memory.endAddr smallMem) sec = Some e ->
        dict_get (Memory.data smallMem) sec = Some buf ->
        s <= a < e ->
        img !! Z.to_nat a = buf !! Z.to_nat (a - s)) /\
    (forall a,
        0 <= a < Memory.maxAddr smallMem ->
        (forall sec s e,
            dict_get (Memory.startAddr smallMem) sec = Some s ->
            dict_get (Memory.endAddr smallMem) sec = Some e ->
            ~ (s <= a < e)) ->
        img !! Z.to_nat a = Some x00).
Proof.
  split; [exact smallMem_wf|exact (serialize_image smallMem smallMem_wf)].
Defined.

Example serialize_smallMem :
  Memory.serialize smallMem = Ret [xa0; xa1; xa2; x00; x00; xbb; xb0].
Proof. reflexivity. Qed.

(** * Further properties of the code *)

(** ** Registers *)

Lemma land_word_mod a : Z.land a 0xFFFFFFFF = a mod 2 ^ 32.
Proof. change 0xFFFFFFFF with (Z.ones 32). apply Z.land_ones. lia. Qed.

(** X1.  Writing any integer to a register and reading it back gives the
    value modulo 2^32; the stored value is a 32-bit number, it is the one
    entry appended to the history, and the identity, alias and mask of the
    register are kept. *)
Theorem Register_set_get r v b1 b2 h1 h2 :
  let r' := fst (Register.set r v b1 h1) in
  fst (Register.get r' b2 h2) = v mod 2 ^ 32 /\
  0 <= Register.val r' < 2 ^ 32 /\
  Register.history r' = Register.history r ++ [v mod 2 ^ 32] /\
  Register.id r' = Register.id r /\
  Register.altname r' = Register.altname r /\
  Register.breakpoint r' = Register.breakpoint r.
Proof.
  cbn. rewrite land_word_mod.
  repeat split; try reflexivity; apply Z.mod_pos_bound; lia.
Qed.

(** ** Memory: what [set] never does *)

(** X2.  Whatever the address, value and size, [set] leaves the layout,
    the breakpoint masks and every segment's bytes as they were; the write
    log is either untouched or longer by the one entry of this call. *)
Theorem Memory_set_never_writes m addr val size h :
  let m' := snd (fst (Memory.set m addr val size h)) in
  Memory.data m' = Memory.data m /\
  Memory.startAddr m' = Memory.startAddr m /\
  Memory.endAddr m' = Memory.endAddr m /\
  Memory.maxAddr m' = Memory.maxAddr m /\
  Memory.breakpoints m' = Memory.breakpoints m /\
  (Memory.history m' = Memory.history m \/
   exists sec offset,
     Memory.history m' =
       Memory.history m ++ [(sec, offset, size, val mod 2 ^ 32)]).
Proof.
  unfold Memory.set.
  destruct (Memory._getRelativeAddr m addr size) as [[[sec offset]|]|e]; cbn;
    try (repeat split; try reflexivity; now left).
  rewrite land_word_mod.
  destruct (getitem (Memory.data m) sec) as [buf|e]; cbn;
    repeat split; try reflexivity; right; eauto.
Qed.

(** ** Memory: reading inside a segment *)

Lemma slice_inner {A} (l : list A) lo hi :
  0 <= lo <= hi -> hi <= Z.of_nat (length l) ->
  slice l lo hi = firstn (Z.to_nat (hi - lo)) (skipn (Z.to_nat lo) l).
Proof.
  intros Hlo Hhi. unfold slice, clamp.
  replace (lo <? 0) with false by lia. replace (hi <? 0) with false by lia.
  do 2 f_equal; lia.
Qed.

Section InSegment.

Variable m : Memory.t.
Hypothesis Hwf : MemoryWellFormed m.
Variables (sec : string) (s e : Z) (buf : list byte).
Hypothesis Hs : dict_get (Memory.startAddr m) sec = Some s.
Hypothesis He : dict_get (Memory.endAddr m) sec = Some e.
Hypothesis Hbuf : dict_get (Memory.data m) sec = Some buf.
Variables addr size : Z.
Hypothesis Hsize : 0 < size.
Hypothesis Hlo : s <= addr.
Hypothesis Hhi : addr + size <= e.

Lemma findSection_finds keys :
  In sec keys ->
  (forall k, In k keys -> In k (dict_keys (Memory.startAddr m))) ->
  Memory.findSection m addr size keys = Ret (Some (sec, addr - s)).
Proof.
  induction keys as [|k rest IH]; intros Hin Hkeys; [destruct Hin|].
  assert (Hk : In k (dict_keys (Memory.startAddr m))) by (apply Hkeys; now left).
  destruct (dict_get_In_keys _ _ Hk) as [sk Hsk].
  destruct (wf_ends m Hwf k Hk) as [ek Hek].
  cbn. unfold getitem. rewrite Hsk, Hek.
  destruct (String.eqb_spec k sec) as [->|Hne].
  - rewrite Hs in Hsk. injection Hsk as <-. rewrite He in Hek. injection Hek as <-.
    replace (s <=? addr) with true by lia.
    replace (addr <? e - (size - 1)) with true by lia. reflexivity.
  - assert (Hrest : Memory.findSection m addr size rest = Ret (Some (sec, addr - s))).
    { apply IH; [destruct Hin as [->|]; [congruence|assumption]|].
      intros k0 Hk0. apply Hkeys. now right. }
    destruct (s <=? addr) eqn:H1; [|lia].
    destruct (sk <=? addr) eqn:H2; [|exact Hrest].
    destruct (addr <? ek - (size - 1)) eqn:H3; [|exact Hrest].
    destruct (wf_disjoint m Hwf k sec sk ek s e Hne Hsk Hek Hs He); lia.
Qed.

Lemma getRelativeAddr_finds :
  Memory._getRelativeAddr m addr size = Ret (Some (sec, addr - s)).
Proof.
  unfold Memory._getRelativeAddr.
  pose proof (wf_start m Hwf sec s Hs).
  pose proof (wf_maxAddr_bound m Hwf sec e He).
  replace ((addr <? 0) || (addr >? Memory.maxAddr m - (size - 1))) with false
    by (symmetry; apply orb_false_iff; split; lia).
  apply findSection_finds; [|auto].
  apply in_map_iff. exists (sec, s). split; [reflexivity|]. now apply dict_get_In.
Qed.

Lemma buffer_length : Z.of_nat (length buf) = e - s.
Proof.
  destruct (wf_buffer m Hwf sec s e Hs He) as (buf' & Hbuf' & Hlen).
  rewrite Hbuf in Hbuf'. injection Hbuf' as <-. exact Hlen.
Qed.

Lemma get_in_segment_exact execMode h :
  fst (Memory.get m addr size execMode h) =
    Ret (Some (take (Z.to_nat size) (drop (Z.to_nat (addr - s)) buf))).
Proof.
  pose proof buffer_length as Hlen.
  unfold Memory.get. rewrite getRelativeAddr_finds. unfold getitem. rewrite Hbuf.
  cbn [fst]. rewrite slice_inner by lia.
  replace (addr - s + size - (addr - s)) with size by lia. reflexivity.
Qed.

Lemma get_in_segment execMode h :
  exists bytes,
    fst (Memory.get m addr size execMode h) = Ret (Some bytes) /\
    Z.of_nat (length bytes) = size /\
    forall i, 0 <= i < size ->
              bytes !! Z.to_nat i = buf !! Z.to_nat (addr - s + i).
Proof.
  pose proof buffer_length as Hlen.
  unfold Memory.get. rewrite getRelativeAddr_finds. unfold getitem. rewrite Hbuf.
  eexists. split; [reflexivity|]. cbn [fst].
  rewrite slice_inner by lia.
  replace (addr - s + size - (addr - s)) with size by lia.
  split.
  - rewrite length_take, length_drop. lia.
  - intros i Hi. rewrite lookup_take_lt by lia. rewrite lookup_drop.
    f_equal. lia.
Qed.

(** X3.  In a well-formed memory, reading [size] > 0 bytes that lie inside
    a segment returns exactly [size] bytes, byte [i] of the result being
    the segment's byte at offset [addr - start + i]. *)
Theorem Memory_get_in_segment execMode h :
  exists bytes,
    fst (Memory.get m addr size execMode h) = Ret (Some bytes) /\
    Z.of_nat (length bytes) = size /\
    forall i, 0 <= i < size ->
              bytes !! Z.to_nat i = buf !! Z.to_nat (addr - s + i).
Proof. apply get_in_segment. Qed.

(** X4.  A read agrees with the serialised image: byte [i] of the bytes
    read at [addr] is the image's byte at address [addr + i]. *)
Theorem Memory_get_serialize execMode h :
  exists bytes img,
    fst (Memory.get m addr size execMode h) = Ret (Some bytes) /\
    Memory.serialize m = Ret img /\
    forall i, 0 <= i < size ->
              bytes !! Z.to_nat i = img !! Z.to_nat (addr + i).
Proof.
  destruct (get_in_segment execMode h) as (bytes & Hget & _ & Hbytes).
  pose proof (sorted_by_value_perm (Memory.startAddr m)) as Hperm.
  destruct (emitAll_emitted m Hwf (sorted_by_value (Memory.startAddr m)) [] [])
    as (img & Hser & I1 & _).
  - intros x Hx. eapply Permutation_in; [exact Hperm|exact Hx].
  - cbn. rewrite Hperm. exact (wf_unique m Hwf).
  - apply sorted_by_value_sorted.
  - intros p i [].
  - apply emitted_nil.
  - exists bytes, img. split; [exact Hget|]. split; [exact Hser|].
    intros i Hi. rewrite (Hbytes i Hi).
    destruct (I1 sec s e buf) as [_ Himg]; [|exact He|exact Hbuf|].
    + eapply Permutation_in; [symmetry; exact Hperm|]. now apply dict_get_In.
    + pose proof (wf_start m Hwf sec s Hs).
      rewrite Himg by lia. f_equal. lia.
Qed.

End InSegment.

(** ** Memory: read watchpoints *)

Lemma readBkpts_step m addr execMode offs : forall h,
  (forall o, In o offs -> readFires m execMode (addr + o) = false) ->
  fold_left
    (fun h offset =>
       let h1 := if execMode && truthy (Z.land (Memory.breakpoints m (addr + offset)) 1)
                 then BreakPointHandler.throw (Memory.memInfo 1 (addr + offset)) h
                 else h in
       if truthy (Z.land (Memory.breakpoints m (addr + offset)) 4)
       then BreakPointHandler.throw (Memory.memInfo 4 (addr + offset)) h1
       else h1)
    offs h = h.
Proof.
  induction offs as [|o offs IH]; intros h Hq; [reflexivity|].
  cbn [fold_left]. specialize (Hq o (or_introl eq_refl)) as Ho.
  unfold readFires in Ho. apply orb_false_iff in Ho as [H1 H4].
  rewrite H1, H4. apply IH. intros o' Ho'. apply Hq. now right.
Qed.

Lemma In_range n o : In o (range n) <-> 0 <= o < n.
Proof.
  unfold range. rewrite in_map_iff. split.
  - intros (k & <- & Hk). apply in_seq in Hk. lia.
  - intros Ho. exists (Z.to_nat o). split; [lia|]. apply in_seq. lia.
Qed.

Lemma map_seq_shift j : forall a b,
  map Z.of_nat (seq (a + b) j) =
  map (fun o => Z.of_nat a + o) (map Z.of_nat (seq b j)).
Proof.
  induction j as [|j IH]; intros a b; [reflexivity|].
  cbn [seq map]. f_equal; [lia|].
  replace (S (a + b)) with (a + S b)%nat by lia. apply IH.
Qed.

Lemma range_split n k :
  0 <= k < n ->
  range n = range k ++ k :: map (fun o => k + 1 + o) (range (n - k - 1)).
Proof.
  intros Hk. unfold range.
  replace (Z.to_nat n) with (Z.to_nat k + S (Z.to_nat (n - k - 1)))%nat by lia.
  rewrite seq_app, map_app. f_equal. cbn [seq map]. f_equal; [lia|].
  replace (S (0 + Z.to_nat k)) with (S (Z.to_nat k) + 0)%nat by lia.
  rewrite map_seq_shift. apply map_ext. intros o. lia.
Qed.

Lemma get_quiet m addr size execMode h sec offset :
  Memory._getRelativeAddr m addr size = Ret (Some (sec, offset)) ->
  (forall a, addr <= a < addr + size -> readFires m execMode a = false) ->
  snd (Memory.get m addr size execMode h) = h.
Proof.
  intros Hres Hq. unfold Memory.get. rewrite Hres.
  assert (Hb : Memory.readBkpts m addr size execMode h = h).
  { unfold Memory.readBkpts. apply readBkpts_step.
    intros o Ho. apply In_range in Ho. apply Hq. lia. }
  rewrite Hb. destruct (getitem (Memory.data m) sec); reflexivity.
Qed.

(** X5.  A read whose bytes carry no read mark (and, in exec mode, no exec
    mark) leaves the breakpoint latch exactly as it was; write marks, and
    exec marks outside exec mode, are ignored. *)
Theorem Memory_get_quiet m addr size execMode h sec offset :
  Memory._getRelativeAddr m addr size = Ret (Some (sec, offset)) ->
  (forall a, addr <= a < addr + size -> readFires m execMode a = false) ->
  snd (Memory.get m addr size execMode h) = h.
Proof. apply get_quiet. Qed.

Lemma getRelativeAddr_layout m m' addr size :
  Memory.startAddr m' = Memory.startAddr m ->
  Memory.endAddr m' = Memory.endAddr m ->
  Memory.maxAddr m' = Memory.maxAddr m ->
  Memory._getRelativeAddr m' addr size = Memory._getRelativeAddr m addr size.
Proof.
  intros Hs He Hm. unfold Memory._getRelativeAddr. rewrite Hm, Hs.
  destruct ((addr <? 0) || (addr >? Memory.maxAddr m - (size - 1))); [reflexivity|].
  induction (dict_keys (Memory.startAddr m)) as [|k keys IH]; [reflexivity|].
  cbn. rewrite Hs, He, IH. reflexivity.
Qed.

(** X6.  After [setBreakpoint(a, mode)] with the read bit in [mode], a
    read covering [a] whose later bytes are unmarked latches the event
    (memory, 4, a); after [removeBreakpoint(a)] the same read, with no
    other marked byte, leaves the latch alone. *)
Theorem Memory_read_watch m addr size a mode execMode h sec offset :
  Memory._getRelativeAddr m addr size = Ret (Some (sec, offset)) ->
  addr <= a < addr + size ->
  truthy (Z.land mode 4) = true ->
  (forall b, addr <= b < addr + size -> b <> a -> readFires m execMode b = false) ->
  snd (Memory.get (Memory.setBreakpoint m a mode) addr size execMode h)
    = BreakPointHandler.mk true (Some (mkBkptInfo "memory" 4 (InfoInt a))) /\
  snd (Memory.get (Memory.removeBreakpoint (Memory.setBreakpoint m a mode) a)
         addr size execMode h) = h.
Proof.
  intros Hres Ha Hmode Hq. split.
  - unfold Memory.get.
    rewrite (getRelativeAddr_layout m) by reflexivity. rewrite Hres.
    assert (Hb : Memory.readBkpts (Memory.setBreakpoint m a mode) addr size execMode h
                 = BreakPointHandler.mk true (Some (mkBkptInfo "memory" 4 (InfoInt a)))).
    { unfold Memory.readBkpts. rewrite (range_split size (a - addr)) by lia.
      rewrite fold_left_app. cbn [fold_left].
      rewrite readBkpts_step.
      - replace (addr + (a - addr)) with a by lia.
        cbn. rewrite Z.eqb_refl, Hmode. reflexivity.
      - intros o Ho. apply in_map_iff in Ho as (j & <- & Hj). apply In_range in Hj.
        unfold readFires. cbn.
        replace (addr + (a - addr + 1 + j) =? a) with false by lia.
        apply (Hq (addr + (a - addr + 1 + j))); lia. }
    rewrite Hb. cbn [Memory.data Memory.setBreakpoint Memory.with_breakpoints].
    destruct (getitem (Memory.data m) sec); reflexivity.
  - apply (get_quiet _ addr size execMode h sec offset).
    { rewrite (getRelativeAddr_layout m) by reflexivity. exact Hres. }
    intros b Hb. unfold readFires. cbn.
    destruct (Z.eqb_spec b a) as [->|Hne]; [now destruct execMode|].
    apply (Hq b Hb Hne).
Qed.

(** ** Memory: the constructor *)

Lemma copyBuffers_ok memcontent keys :
  (forall k, In k keys -> is_Some (dict_get memcontent k)) ->
  exists d, Memory.copyBuffers memcontent keys = Ret d /\
            dict_keys d = keys /\
            (NoDup keys -> forall k, In k keys -> dict_get d k = dict_get memcontent k).
Proof.
  induction keys as [|k keys IH]; intros Hall.
  - exists []. repeat split. intros _ k [].
  - destruct (Hall k (or_introl eq_refl)) as [b Hb].
    destruct IH as (d & Hd & Hkeys & Hget); [intros; apply Hall; now right|].
    exists ((k, b) :: d). cbn. unfold getitem. rewrite Hb, Hd.
    split; [reflexivity|]. split; [unfold dict_keys in *; cbn; now rewrite Hkeys|].
    intros Hnd k' Hk'. inversion Hnd as [|? ? Hnotin Hnd']; subst.
    destruct (String.eqb_spec k' k) as [->|Hne]; [now rewrite Hb|].
    apply Hget; [exact Hnd'|]. destruct Hk' as [->|]; [congruence|assumption].
Qed.

Lemma copyBuffers_missing memcontent keys k :
  In k keys -> dict_get memcontent k = None ->
  Memory.copyBuffers memcontent keys = Raise KeyError.
Proof.
  induction keys as [|k' keys IH]; intros Hin Hk; [destruct Hin|].
  cbn. unfold getitem. destruct (dict_get memcontent k') as [b|] eqn:Hb; [|reflexivity].
  destruct Hin as [->|Hin]; [congruence|]. now rewrite IH.
Qed.

Lemma dict_keys_length {V} (d : dict V) : length (dict_keys d) = length d.
Proof. apply length_map. Qed.

Lemma init_wellFormed memcontent start end_ :
  NoDup (dict_keys start) ->
  NoDup (dict_keys end_) ->
  (forall k, In k (dict_keys start) <-> In k (dict_keys end_)) ->
  start <> [] ->
  (forall sec s e,
      dict_get start sec = Some s -> dict_get end_ sec = Some e ->
      0 <= s /\ exists buf, dict_get memcontent sec = Some buf /\
                            Z.of_nat (length buf) = e - s) ->
  (forall sec1 sec2 s1 e1 s2 e2,
      sec1 <> sec2 ->
      dict_get start sec1 = Some s1 -> dict_get end_ sec1 = Some e1 ->
      dict_get start sec2 = Some s2 -> dict_get end_ sec2 = Some e2 ->
      e1 <= s2 \/ e2 <= s1) ->
  exists m,
    Memory.init memcontent start end_ = Ret m /\
    MemoryWellFormed m /\
    Memory.startAddr m = start /\ Memory.endAddr m = end_ /\
    Memory.history m = [] /\
    (forall a, Memory.breakpoints m a = 0) /\
    (forall sec, In sec (dict_keys start) ->
                 dict_get (Memory.data m) sec = dict_get memcontent sec).
Proof.
  intros Hnds Hnde Hsame Hne Hseg Hdis.
  assert (Hlen : length start = length end_).
  { rewrite <- !dict_keys_length. apply Permutation_length.
    apply NoDup_Permutation; [exact Hnds|exact Hnde|].
    intros k. rewrite !list_elem_of_In. apply Hsame. }
  assert (Hends : forall k, In k (dict_keys start) -> is_Some (dict_get end_ k)).
  { intros k Hk. apply dict_get_In_keys, Hsame, Hk. }
  destruct (Py.max (dict_values end_)) as [mx|e] eqn:Hmax.
  2: { destruct end_; [destruct start; [congruence|discriminate]|discriminate]. }
  destruct (copyBuffers_ok memcontent (dict_keys start)) as (d & Hd & Hkeys & Hget).
  { intros k Hk. destruct (dict_get_In_keys _ _ Hk) as [s Hs].
    destruct (Hends k Hk) as [e He].
    destruct (Hseg k s e Hs He) as (_ & buf & Hbuf & _). eauto. }
  specialize (Hget Hnds).
  exists (Memory.mk [] start end_ mx d (fun _ => 0)).
  split.
  { unfold Memory.init. rewrite Hmax, Hlen, Nat.eqb_refl, Hd. reflexivity. }
  apply max_spec in Hmax as [Hin Hbound].
  split; [|repeat split; auto].
  constructor; cbn.
  - exact Hnds.
  - exact Hends.
  - intros sec [e He]. apply Hsame, in_map_iff. exists (sec, e).
    split; [reflexivity|]. now apply dict_get_In.
  - intros sec s Hs.
    assert (Hk : In sec (dict_keys start)).
    { apply in_map_iff. exists (sec, s). split; [reflexivity|]. now apply dict_get_In. }
    destruct (Hends sec Hk) as [e He]. now destruct (Hseg sec s e Hs He).
  - intros sec s e Hs He. destruct (Hseg sec s e Hs He) as (_ & buf & Hbuf & Hl).
    exists buf. split; [|exact Hl]. rewrite Hget; [exact Hbuf|].
    apply in_map_iff. exists (sec, s). split; [reflexivity|]. now apply dict_get_In.
  - exact Hdis.
  - apply in_map_iff in Hin as ([sec e] & <- & Hin). exists sec.
    now apply In_dict_get.
  - intros sec e He. apply Hbound, in_map_iff. exists (sec, e).
    split; [reflexivity|]. now apply dict_get_In.
Qed.

(** X7.  Built from a consistent image (one entry per segment name in both
    layout dictionaries, the same names in both, at least one segment,
    non-negative starts, contents of length end - start, no overlap), the
    constructor returns a memory that satisfies the data-model invariants,
    with the given layout, the given contents, an empty write log and no
    breakpoint. *)
Theorem Memory_init_wellFormed memcontent start end_ :
  NoDup (dict_keys start) ->
  NoDup (dict_keys end_) ->
  (forall k, In k (dict_keys start) <-> In k (dict_keys end_)) ->
  start <> [] ->
  (forall sec s e,
      dict_get start sec = Some s -> dict_get end_ sec = Some e ->
      0 <= s /\ exists buf, dict_get memcontent sec = Some buf /\
                            Z.of_nat (length buf) = e - s) ->
  (forall sec1 sec2 s1 e1 s2 e2,
      sec1 <> sec2 ->
      dict_get start sec1 = Some s1 -> dict_get end_ sec1 = Some e1 ->
      dict_get start sec2 = Some s2 -> dict_get end_ sec2 = Some e2 ->
      e1 <= s2 \/ e2 <= s1) ->
  exists m,
    Memory.init memcontent start end_ = Ret m /\
    MemoryWellFormed m /\
    Memory.startAddr m = start /\ Memory.endAddr m = end_ /\
    Memory.history m = [] /\
    (forall a, Memory.breakpoints m a = 0) /\
    (forall sec, In sec (dict_keys start) ->
                 dict_get (Memory.data m) sec = dict_get memcontent sec).
Proof. apply init_wellFormed. Qed.

(** X8.  The constructor's failures: an empty layout raises ValueError (the
    maximum of no end address); layout dictionaries of different sizes
    fail the assertion; a segment named in the layout without contents
    raises KeyError. *)
Theorem Memory_init_errors memcontent start end_ :
  (end_ = [] -> Memory.init memcontent start end_ = Raise ValueError) /\
  (end_ <> [] -> length start <> length end_ ->
   Memory.init memcontent start end_ = Raise AssertionError) /\
  (end_ <> [] -> length start = length end_ ->
   (exists k, In k (dict_keys start) /\ dict_get memcontent k = None) ->
   Memory.init memcontent start end_ = Raise KeyError).
Proof.
  unfold Memory.init. split; [|split].
  - intros ->. reflexivity.
  - intros Hne Hlen. destruct end_ as [|x end_]; [congruence|]. cbn [Py.max dict_values map].
    apply Nat.eqb_neq in Hlen. rewrite Hlen. reflexivity.
  - intros Hne Hlen (k & Hk & Hmiss). destruct end_ as [|x end_]; [congruence|].
    cbn [Py.max dict_values map]. rewrite Hlen, Nat.eqb_refl.
    rewrite (copyBuffers_missing memcontent _ k Hk Hmiss). reflexivity.
Qed.

(** ** The barrel shifter: LSL, LSR, ROR and the zero amounts *)

(** X9.  LSL by an immediate 0 <= n <= 32 returns bit 32-n of the value as
    carry and the value times 2^n modulo 2^32, without touching the
    state. *)
Theorem shiftVal_LSL v n s :
  0 <= n <= 32 ->
  _shiftVal v ("LSL", "imm", n) s =
    (Ret (Z.b2z (Z.testbit v (32 - n)), (v * 2 ^ n) mod 2 ^ 32), s).
Proof.
  intros Hn. unfold _shiftVal, bind, lift, ret, shr, shl.
  cbn [String.eqb Ascii.eqb Bool.eqb].
  replace (32 - n <? 0) with false by lia. replace (n <? 0) with false by lia.
  rewrite land_1_testbit by lia. rewrite land_word_mod, Z.shiftl_mul_pow2 by lia.
  reflexivity.
Qed.

(** X10.  LSR by an immediate n > 0 of a 32-bit value returns bit n-1 as
    carry and the quotient by 2^n, without touching the state. *)
Theorem shiftVal_LSR v n s :
  0 <= v < 2 ^ 32 -> 0 < n ->
  _shiftVal v ("LSR", "imm", n) s =
    (Ret (Z.b2z (Z.testbit v (n - 1)), v / 2 ^ n), s).
Proof.
  intros Hv Hn. unfold _shiftVal, bind, lift, ret, shr, shl.
  cbn [String.eqb Ascii.eqb Bool.eqb].
  replace (n - 1 <? 0) with false by lia. replace (n <? 0) with false by lia.
  rewrite land_1_testbit by lia. rewrite Z.shiftr_div_pow2 by lia.
  rewrite land_word_small; [reflexivity|].
  assert (0 < 2 ^ n) by lia. split.
  - apply Z.div_pos; lia.
  - apply Z.div_lt_upper_bound; nia.
Qed.

Lemma word_high_bits v j : 0 <= v < 2 ^ 32 -> 32 <= j -> Z.testbit v j = false.
Proof.
  intros Hv Hj. destruct (Z.eq_dec v 0) as [->|Hne]; [apply Z.bits_0|].
  apply Z.bits_above_log2; [lia|].
  assert (Z.log2 v < 32) by (apply Z.log2_lt_pow2; lia). lia.
Qed.

Lemma word_of_bits x :
  0 <= x -> (forall j, 32 <= j -> Z.testbit x j = false) -> x < 2 ^ 32.
Proof.
  intros Hx Hbits.
  assert (Heq : x = x mod 2 ^ 32).
  { rewrite <- Z.land_ones by lia. apply Z.bits_inj'. intros j Hj.
    rewrite Z.land_spec, Z.testbit_ones_nonneg by lia.
    destruct (Z.ltb_spec j 32); [now rewrite andb_true_r|].
    rewrite Hbits by lia. reflexivity. }
  rewrite Heq. apply Z.mod_pos_bound. lia.
Qed.

(** X11.  ROR by an immediate n > 0 of a 32-bit value returns bit n-1 as
    carry and the 32-bit rotation: bit i of the result is bit (i + n) mod
    32 of the value.  The state is not touched. *)
Theorem shiftVal_ROR v n s :
  0 <= v < 2 ^ 32 -> 0 < n ->
  exists r,
    _shiftVal v ("ROR", "imm", n) s = (Ret (Z.b2z (Z.testbit v (n - 1)), r), s) /\
    0 <= r < 2 ^ 32 /\
    forall i, 0 <= i < 32 -> Z.testbit r i = Z.testbit v ((i + n) mod 32).
Proof.
  intros Hv Hn.
  set (k := n mod 32).
  assert (Hk : 0 <= k < 32) by (apply Z.mod_pos_bound; lia).
  exists (Z.lor (Z.shiftr v k) (Z.land (Z.shiftl v (32 - k)) (2 ^ 32 - 1))).
  assert (Hbit : forall i, 0 <= i ->
            Z.testbit (Z.lor (Z.shiftr v k) (Z.land (Z.shiftl v (32 - k)) (2 ^ 32 - 1))) i
            = Z.testbit v (i + k) || (Z.testbit v (i - (32 - k)) && (i <? 32))).
  { intros i Hi. rewrite Z.lor_spec, Z.shiftr_spec, Z.land_spec, Z.shiftl_spec by lia.
    change (2 ^ 32 - 1) with (Z.ones 32). rewrite Z.testbit_ones_nonneg by lia.
    reflexivity. }
  split; [|split].
  - unfold _shiftVal, bind, lift, ret, shr, shl.
    cbn [String.eqb Ascii.eqb Bool.eqb].
    replace (n =? 0) with false by lia.
    replace (n - 1 <? 0) with false by lia. fold k.
    replace (k <? 0) with false by lia. replace (32 - k <? 0) with false by lia.
    rewrite land_1_testbit by lia.
    change (2 ^ 32 - 1) with 0xFFFFFFFF. rewrite (land_word_small v) by lia.
    reflexivity.
  - split.
    + apply Z.lor_nonneg. split; [apply Z.shiftr_nonneg; lia|].
      apply Z.land_nonneg. right. lia.
    + apply word_of_bits.
      * apply Z.lor_nonneg. split; [apply Z.shiftr_nonneg; lia|].
        apply Z.land_nonneg. right. lia.
      * intros j Hj. rewrite Hbit by lia.
        rewrite (word_high_bits v (j + k)) by lia.
        replace (j <? 32) with false by lia. now rewrite andb_false_r.
  - intros i Hi. rewrite Hbit by lia.
    replace ((i + n) mod 32) with ((i + k) mod 32)
      by (unfold k; now rewrite Z.add_mod_idemp_r).
    replace (i <? 32) with true by lia. rewrite andb_true_r.
    destruct (Z_lt_ge_dec (i + k) 32) as [Hlt|Hge].
    + rewrite Z.mod_small by lia.
      rewrite (Z.testbit_neg_r v (i - (32 - k))) by lia. apply orb_false_r.
    + rewrite (word_high_bits v (i + k)) by lia. cbn [orb].
      f_equal. apply Z.mod_unique with (q := 1); lia.
Qed.

(** X12.  The zero amounts: LSR #0 and ASR #0 raise ValueError (a shift by
    -1 when the carry is computed), ROR #0, the rotate-right-extended
    form, raises TypeError when it converts the carry flag object to an
    integer, and the state is as before in each case; a shift of an
    unknown kind returns carry 0 and the value unchanged. *)
Theorem shiftVal_zero_amounts v s :
  _shiftVal v ("LSR", "imm", 0) s = (Raise ValueError, s) /\
  _shiftVal v ("ASR", "imm", 0) s = (Raise ValueError, s) /\
  _shiftVal v ("ROR", "imm", 0) s = (Raise TypeError, s) /\
  forall kind n,
    kind <> "LSL" -> kind <> "LSR" -> kind <> "ASR" -> kind <> "ROR" ->
    _shiftVal v (kind, "imm", n) s = (Ret (0, v), s).
Proof.
  repeat split; try reflexivity.
  intros kind n H1 H2 H3 H4. unfold _shiftVal, bind, ret.
  cbn [String.eqb Ascii.eqb Bool.eqb].
  apply String.eqb_neq in H1, H2, H3, H4. rewrite H1, H2, H3, H4. reflexivity.
Qed.

(** ** Frame reasoning for the executor *)

Lemma preserves_ret P {A} (a : A) : preserves P (ret a).
Proof. intros s Hs. exact Hs. Qed.

Lemma preserves_raise P {A} e : preserves P (@raise Simulator.t A e).
Proof. intros s Hs. exact Hs. Qed.

Lemma preserves_lift P {A} (o : outcome A) : preserves P (lift o).
Proof. intros s Hs. exact Hs. Qed.

Lemma preserves_gets P {A} (f : t -> A) : preserves P (gets f).
Proof. intros s Hs. exact Hs. Qed.

Lemma preserves_modify P (f : t -> t) :
  (forall s, P s -> P (f s)) -> preserves P (modify f).
Proof. intros Hf s Hs. apply Hf, Hs. Qed.

Lemma preserves_bind P {A B} (c : M t A) (k : A -> M t B) :
  preserves P c -> (forall a, preserves P (k a)) -> preserves P (bind c k).
Proof.
  intros Hc Hk s Hs. unfold bind. specialize (Hc s Hs).
  destruct (c s) as [[a|e] s1]; cbn in *; [apply Hk, Hc|exact Hc].
Qed.

Lemma preserves_regObj P i : preserves P (regObj i).
Proof. intros s Hs. unfold regObj. destruct (index (regs s) i); exact Hs. Qed.

Lemma preserves_regGetAt P k : bkptStable P -> preserves P (regGetAt k).
Proof.
  intros Hb s Hs. unfold regGetAt. destruct (regs s !! k); [apply Hb, Hs|exact Hs].
Qed.

Lemma preserves_regSetAt P k v :
  bkptStable P -> regStable P -> preserves P (regSetAt k v).
Proof.
  intros Hb Hr s Hs. unfold regSetAt. destruct (regs s !! k) as [r|] eqn:Hk; [|exact Hs].
  cbn. apply (Hr (with_bkpt _ s) k r v (breakpointHandler s)); [exact Hk|].
  apply Hb, Hs.
Qed.

Lemma preserves_flagBool P f : bkptStable P -> preserves P (flagBool f).
Proof. intros Hb s Hs. apply Hb, Hs. Qed.

Lemma preserves_flagGet P f : bkptStable P -> preserves P (flagGet f).
Proof. intros Hb s Hs. apply Hb, Hs. Qed.

Lemma preserves_flagSet P f v :
  bkptStable P -> flagStable P -> preserves P (flagSet f v).
Proof.
  intros Hb Hf s Hs. unfold flagSet. cbn.
  apply (Hf (with_bkpt _ s) f v (breakpointHandler s)). apply Hb, Hs.
Qed.

Lemma preserves_memGet P addr size execMode :
  bkptStable P -> preserves P (memGet addr size execMode).
Proof.
  intros Hb s Hs. unfold memGet.
  destruct (Memory.get (mem s) addr size execMode (breakpointHandler s)) as [o h].
  apply Hb, Hs.
Qed.

Lemma preserves_memSet P addr val size :
  bkptStable P -> memStable P -> preserves P (memSet addr val size).
Proof.
  intros Hb Hm s Hs. unfold memSet.
  pose proof (Hm (with_bkpt (snd (Memory.set (mem s) addr val size (breakpointHandler s))) s)
                 addr val size (breakpointHandler s) (Hb _ s Hs)) as H.
  cbn [mem with_bkpt] in H.
  destruct (Memory.set (mem s) addr val size (breakpointHandler s)) as [[o m'] h].
  exact H.
Qed.

Create HintDb frame.
#[local] Hint Resolve preserves_ret preserves_raise preserves_lift preserves_gets
  preserves_regObj preserves_regGetAt preserves_regSetAt preserves_flagBool
  preserves_flagGet preserves_flagSet preserves_memGet preserves_memSet : frame.

(** Splits a goal [preserves P c] along the structure of [c]. *)
Ltac frame :=
  repeat first
    [ progress (auto with frame)
    | apply preserves_bind; [|intros]
    | match goal with
      | |- preserves _ (match ?x with _ => _ end) => destruct x
      end ].

Lemma preserves_regGet P i : bkptStable P -> preserves P (regGet i).
Proof. intros Hb. unfold regGet. frame. Qed.

Lemma preserves_regSet P i v :
  bkptStable P -> regStable P -> preserves P (regSet i v).
Proof. intros Hb Hr. unfold regSet. frame. Qed.

#[local] Hint Resolve preserves_regGet preserves_regSet : frame.

Lemma preserves_shiftVal P v sh : bkptStable P -> preserves P (_shiftVal v sh).
Proof.
  intros Hb. destruct sh as [[kind src] arg]. unfold _shiftVal, flagInt. frame.
Qed.

Lemma preserves_orChain P cs c :
  Forall (fun cl => preserves P (snd cl)) cs -> preserves P (orChain cs c).
Proof. induction 1 as [|[mn test] cs Htest _ IH]; cbn; frame. Qed.

Lemma preserves_conditionNotMet P c : bkptStable P -> preserves P (conditionNotMet c).
Proof.
  intros Hb. apply preserves_orChain.
  unfold conditionClauses, notFlag, notFlagsEq, flagsEq.
  repeat constructor; cbn [snd]; frame.
Qed.

Lemma preserves_computeRes P op op1 op2 w :
  bkptStable P -> preserves P (computeRes op op1 op2 w).
Proof. intros Hb. unfold computeRes. frame. Qed.

Lemma preserves_applyFlags P w :
  bkptStable P -> flagStable P -> preserves P (applyFlags w).
Proof. intros Hb Hf. induction w as [|[f v] w IH]; cbn; frame. Qed.

#[local] Hint Resolve preserves_shiftVal preserves_conditionNotMet
  preserves_computeRes preserves_applyFlags : frame.

Lemma preserves_execDataop P misc :
  bkptStable P -> regStable P -> flagStable P -> preserves P (execDataop misc).
Proof. intros Hb Hr Hf. unfold execDataop. frame. Qed.

Lemma preserves_execBranch P misc :
  bkptStable P -> regStable P -> stepStable P -> preserves P (execBranch misc).
Proof.
  intros Hb Hr Hst. unfold execBranch. frame; apply preserves_modify; intros; apply Hst; assumption.
Qed.

Lemma preserves_execMemop P misc :
  bkptStable P -> regStable P -> memStable P -> preserves P (execMemop misc).
Proof. intros Hb Hr Hm. unfold execMemop. frame. Qed.

Lemma preserves_execute P i :
  bkptStable P -> regStable P -> flagStable P -> memStable P -> stepStable P ->
  preserves P (execute i).
Proof.
  intros Hb Hr Hf Hm Hst.
  destruct i; cbn;
    auto using preserves_execDataop, preserves_execBranch, preserves_execMemop,
      preserves_ret.
Qed.

Lemma preserves_execInstr P dec :
  bkptStable P -> regStable P -> flagStable P -> memStable P -> stepStable P ->
  preserves P (execInstr dec).
Proof.
  intros Hb Hr Hf Hm Hst.
  pose proof (fun i => preserves_execute P i Hb Hr Hf Hm Hst) as Hexec.
  unfold execInstr. frame.
Qed.

Lemma preserves_nextInstr P dec :
  bkptStable P -> regStable P -> flagStable P -> memStable P -> stepStable P ->
  cycleStable P ->
  preserves P (nextInstr dec).
Proof.
  intros Hb Hr Hf Hm Hst (Hs1 & Hs2 & Hs3 & Hs4).
  pose proof (preserves_execInstr P dec Hb Hr Hf Hm Hst) as Hexec.
  unfold nextInstr.
  frame; try (apply preserves_modify; intros; auto).
Qed.

Lemma preserves_reset P :
  bkptStable P -> regStable P -> cycleStable P -> preserves P reset.
Proof.
  intros Hb Hr (Hs1 & Hs2 & Hs3 & Hs4). unfold reset.
  frame; try (apply preserves_modify; intros; auto).
Qed.

(** ** What the executor never changes *)

Lemma keeps_flags_execDataop F misc :
  do_setflags misc = false ->
  preserves (fun s => flags s = F) (execDataop misc).
Proof.
  destruct misc as [rn op2 rd opcode setflags]. cbn. intros ->.
  assert (Hb : bkptStable (fun s => flags s = F)) by (intros h s Hs; exact Hs).
  assert (Hr : regStable (fun s => flags s = F)) by (intros s k r v h _ Hs; exact Hs).
  unfold execDataop. cbn [do_rn do_op2 do_rd do_opcode do_setflags]. frame.
Qed.

(** X13.  Only a data operation that asks for it touches the flags: a
    branch, a load or store, and a data operation without [setflags] leave
    every flag object as it was, whether the instruction completes or
    raises. *)
Theorem execute_keeps_flags i s :
  setsFlags i = false -> flags (snd (execute i s)) = flags s.
Proof.
  intros Hi.
  assert (Hb : bkptStable (fun s0 => flags s0 = flags s)) by (intros h s0 Hs; exact Hs).
  assert (Hr : regStable (fun s0 => flags s0 = flags s))
    by (intros s0 k r v h _ Hs; exact Hs).
  assert (Hm : memStable (fun s0 => flags s0 = flags s))
    by (intros s0 a v sz h Hs; exact Hs).
  assert (Hst : stepStable (fun s0 => flags s0 = flags s)) by (intros s0 z Hs; exact Hs).
  destruct i as [misc|misc|misc|]; cbn [execute].
  - now apply (preserves_execBranch _ misc Hb Hr Hst).
  - now apply (preserves_execMemop _ misc Hb Hr Hm).
  - now apply (keeps_flags_execDataop (flags s) misc Hi).
  - reflexivity.
Qed.

(** X14.  The comparison opcodes TST, TEQ, CMP and CMN never write a
    register: the register file after the operation is the one before,
    values and histories included. *)
Theorem execDataop_compare_keeps_regs misc s :
  opcode_in (do_opcode misc) ["TST"; "TEQ"; "CMP"; "CMN"] = true ->
  regs (snd (execDataop misc s)) = regs s.
Proof.
  destruct misc as [rn op2 rd opcode setflags]. cbn [do_opcode]. intros Hop.
  assert (Hb : bkptStable (fun s0 => regs s0 = regs s)) by (intros h s0 Hs; exact Hs).
  assert (Hf : flagStable (fun s0 => regs s0 = regs s))
    by (intros s0 f v h Hs; exact Hs).
  assert (H : preserves (fun s0 => regs s0 = regs s)
                (execDataop (mkData rn op2 rd opcode setflags))).
  { unfold execDataop. cbn [do_rn do_op2 do_rd do_opcode do_setflags].
    rewrite Hop. cbn [negb]. frame. }
  now apply H.
Qed.

(** ** Invariants of a cycle *)

Lemma regs32_stable :
  bkptStable regs32 /\ regStable regs32 /\ flagStable regs32 /\
  memStable regs32 /\ stepStable regs32 /\ cycleStable regs32.
Proof.
  unfold regs32, bkptStable, regStable, flagStable, memStable, stepStable, cycleStable.
  repeat split; try (intros; assumption).
  intros s k r v h Hk Hs. cbn. apply Forall_insert; [exact Hs|].
  cbn. rewrite land_word_mod. apply Z.mod_pos_bound. lia.
Qed.

(** X15.  Registers stay 32-bit: if every register holds a value in
    [0, 2^32) before [nextInstr] or [reset], every register does so after,
    whatever the decoder returns and whether the call returns or
    raises. *)
Theorem regs32_invariant dec s :
  regs32 s -> regs32 (snd (nextInstr dec s)) /\ regs32 (snd (reset s)).
Proof.
  destruct regs32_stable as (Hb & Hr & Hf & Hm & Hst & Hc). intros Hs. split.
  - now apply preserves_nextInstr.
  - now apply preserves_reset.
Qed.

Lemma Memory_set_same m addr val size h :
  sameMemory m (snd (fst (Memory.set m addr val size h))).
Proof.
  unfold Memory.set, sameMemory.
  destruct (Memory._getRelativeAddr m addr size) as [[[sec offset]|]|e]; cbn;
    try (repeat split; reflexivity).
  destruct (getitem (Memory.data m) sec) as [buf|e]; cbn;
    repeat split; try reflexivity; now apply prefix_app_r.
Qed.

Lemma sameMemory_trans m0 m1 m2 :
  sameMemory m0 m1 -> sameMemory m1 m2 -> sameMemory m0 m2.
Proof.
  intros (A1 & A2 & A3 & A4 & A5 & A6) (B1 & B2 & B3 & B4 & B5 & B6).
  repeat split; try congruence. now transitivity (Memory.history m1).
Qed.

Lemma sameMachine_refl s : sameMachine s s.
Proof.
  repeat split; try reflexivity.
  apply Forall2_same_length_lookup_2; [reflexivity|].
  intros i x y Hx Hy. rewrite Hx in Hy. injection Hy as <-.
  repeat split; reflexivity.
Qed.

Lemma sameMachine_stable s0 :
  bkptStable (sameMachine s0) /\ regStable (sameMachine s0) /\
  flagStable (sameMachine s0) /\ memStable (sameMachine s0) /\
  stepStable (sameMachine s0) /\ cycleStable (sameMachine s0).
Proof.
  unfold bkptStable, regStable, flagStable, memStable, stepStable, cycleStable.
  split; [|split; [|split; [|split; [|split;
    [|split; [|split; [|split]]]]]]];
    try (intros ? ? H; exact H).
  - (* a register write *)
    intros s k r v h Hk (Hregs & Hflags & Hmem). split; [|split; assumption]. cbn.
    destruct (Forall2_lookup_r _ _ _ _ _ Hregs Hk) as (r0 & Hk0 & Hsame).
    rewrite <- (list_insert_id _ _ _ Hk0). apply Forall2_insert; [exact Hregs|].
    destruct Hsame as (H1 & H2 & H3 & H4). repeat split; cbn; try assumption.
    etransitivity; [exact H4|]. now apply prefix_app_r.
  - (* a flag write *)
    intros s f v h (Hregs & Hflags & Hmem). split; [exact Hregs|]. split; [|exact Hmem].
    intros g. cbn. destruct (FlagName_eqb g f) eqn:Hg; [|apply Hflags].
    assert (g = f) as -> by (destruct g, f; (reflexivity || discriminate)).
    destruct (Hflags f) as [H1 H2]. split; cbn; assumption.
  - (* a memory write *)
    intros s addr val size h (Hregs & Hflags & Hmem).
    split; [exact Hregs|]. split; [exact Hflags|]. cbn.
    eapply sameMemory_trans; [exact Hmem|apply Memory_set_same].
Qed.

(** X16.  A cycle and a reset keep the machine's structure: the register
    file has the same registers with the same identities, aliases and
    breakpoint masks, and histories that only grew; each flag keeps its
    name and mask; the memory keeps its layout, its masks and every
    segment byte, and its write log only grew. *)
Theorem cycle_same_machine dec s :
  sameMachine s (snd (nextInstr dec s)) /\ sameMachine s (snd (reset s)).
Proof.
  destruct (sameMachine_stable s) as (Hb & Hr & Hf & Hm & Hst & Hc). split.
  - apply preserves_nextInstr; auto using sameMachine_refl.
  - apply preserves_reset; auto using sameMachine_refl.
Qed.

(** ** Stepping before reset *)

Lemma raises_bind P {A B} (c : M t A) (k : A -> M t B) :
  preserves P c -> (forall a, alwaysRaises P (k a)) -> alwaysRaises P (bind c k).
Proof.
  intros Hc Hk s Hs. unfold bind. specialize (Hc s Hs).
  destruct (c s) as [[a|e] s1]; cbn in *; [apply Hk, Hc|eauto].
Qed.

(** X17.  A simulator whose cycle counter was never created, that is one
    on which [reset] was not called, cannot complete a cycle: whatever the
    decoder and the fetched word, [nextInstr] raises. *)
Theorem nextInstr_before_reset dec s :
  countCycle s = None -> exists e, fst (nextInstr dec s) = Raise e.
Proof.
  set (P := fun s0 : t => countCycle s0 = None).
  assert (Hb : bkptStable P) by (intros h s0 Hs; exact Hs).
  assert (Hr : regStable P) by (intros s0 k r v h _ Hs; exact Hs).
  assert (Hf : flagStable P) by (intros s0 f v h Hs; exact Hs).
  assert (Hm : memStable P) by (intros s0 a v sz h Hs; exact Hs).
  assert (Hst : stepStable P) by (intros s0 z Hs; exact Hs).
  pose proof (preserves_execInstr P dec Hb Hr Hf Hm Hst) as Hexec.
  assert (H : alwaysRaises P (nextInstr dec)).
  { unfold nextInstr.
    do 10 (apply raises_bind;
           [frame; try (apply preserves_modify; intros s0 Hs0; exact Hs0)|intros]).
    intros s0 Hs0. unfold bind, gets. cbn. rewrite Hs0. cbn. eauto. }
  intros Hs. exact (H s Hs).
Qed.

(** ** Register access in a state with a full register file *)

Lemma regObj_ok i s :
  0 <= i < Z.of_nat (length (regs s)) -> regObj i s = (Ret (Z.to_nat i), s).
Proof.
  intros Hi. unfold regObj, index.
  replace ((0 <=? i) && (i <? Z.of_nat (length (regs s)))) with true
    by (symmetry; apply andb_true_iff; split; lia).
  reflexivity.
Qed.

Lemma regGet_ok i r s :
  0 <= i -> regs s !! Z.to_nat i = Some r ->
  exists h, regGet i s = (Ret (Register.val r), with_bkpt h s).
Proof.
  intros Hi Hr. apply lookup_lt_Some in Hr as Hlt.
  unfold regGet. rewrite (bind_eq _ _ _ _ _ (regObj_ok i s ltac:(lia))).
  rewrite (regGetAt_eq _ r s Hr). eauto.
Qed.

Lemma Register_set_written r v b h : fst (Register.set r v b h) = written r v.
Proof. unfold Register.set, written. cbn. rewrite land_word_mod. reflexivity. Qed.

Lemma regSetAt_ok k r v s :
  regs s !! k = Some r ->
  exists h, regSetAt k v s =
            (Ret tt, with_regs (<[k := written r v]> (regs s)) (with_bkpt h s)).
Proof.
  intros Hr. rewrite (regSetAt_eq k r v s Hr), Register_set_written. eauto.
Qed.

Lemma regSet_ok i r v s :
  0 <= i -> regs s !! Z.to_nat i = Some r ->
  exists h, regSet i v s =
            (Ret tt, with_regs (<[Z.to_nat i := written r v]> (regs s)) (with_bkpt h s)).
Proof.
  intros Hi Hr. apply lookup_lt_Some in Hr as Hlt.
  unfold regSet. rewrite (bind_eq _ _ _ _ _ (regObj_ok i s ltac:(lia))).
  apply regSetAt_ok, Hr.
Qed.

(** ** reset on a memory that does not map address 0 *)

Lemma get_unmapped m addr size execMode h :
  endsDeclared m -> noSegment m addr size ->
  Memory.get m addr size execMode h =
    (Ret None, BreakPointHandler.throw (Memory.memInfo 8 addr) h).
Proof.
  intros Hends Hno. unfold Memory.get.
  rewrite (getRelativeAddr_none m addr size Hends Hno). reflexivity.
Qed.

(** X18.  When no segment holds the four bytes at address 0, [reset] fails
    with TypeError (the conversion of the missing fetch to bytes) after
    doing everything else: the state is ready, the counter 0, PC 0, the
    illegal-address event (memory, 8, 0) is latched, and [fetchedInstr]
    keeps its old value. *)
Theorem reset_unmapped s :
  length (regs s) = 16%nat ->
  endsDeclared (mem s) -> noSegment (mem s) 0 4 ->
  exists s',
    reset s = (Raise TypeError, s') /\
    breakpointHandler s' =
      BreakPointHandler.mk true (Some (mkBkptInfo "memory" 8 (InfoInt 0))) /\
    state s' = ready /\ countCycle s' = Some 0 /\
    regVal s' 15 = Some 0 /\
    fetchedInstr s' = fetchedInstr s.
Proof.
  intros Hlen Hends Hno.
  destruct (regs s !! 15%nat) as [r|] eqn:Hr; [|apply lookup_ge_None in Hr; lia].
  set (s1 := with_countCycle (Some 0) (with_state ready s)).
  destruct (regSet_ok 15 r 0 s1 ltac:(lia) Hr) as [h1 Hset].
  set (s2 := with_regs (<[15%nat := written r 0]> (regs s1)) (with_bkpt h1 s1)) in *.
  assert (Hr2 : regs s2 !! Z.to_nat 15 = Some (written r 0)).
  { cbn. apply list_lookup_insert_eq. lia. }
  destruct (regGet_ok 15 _ s2 ltac:(lia) Hr2) as [h2 Hget].
  eexists. split.
  - unfold reset. rewrite !bind_modify. fold s1.
    rewrite (bind_eq _ _ _ _ _ Hset), (bind_eq _ _ _ _ _ Hget).
    unfold bind at 1, memGet. cbn [Register.val written mem with_bkpt with_regs].
    change (0 mod 2 ^ 32) with 0.
    rewrite (get_unmapped (mem s) 0 4 true _ Hends Hno). reflexivity.
  - cbn. repeat split. unfold regVal. cbn.
    rewrite list_lookup_insert_eq by lia. reflexivity.
Qed.

(** ** The facade around an executed instruction *)

Lemma post_bind Q {A B} (c : M t A) (k : A -> M t B) :
  (forall a, post Q (k a)) -> post Q (bind c k).
Proof.
  intros Hk s b s' H. unfold bind in H.
  destruct (c s) as [[a|e] s1]; [|discriminate]. exact (Hk a s1 b s' H).
Qed.

(** X19.  A breakpoint always stops the simulator: when a cycle that
    returned leaves the latch triggered, the step mode has been cleared
    and [isStepDone] answers true without changing anything. *)
Theorem nextInstr_breakpoint_stops dec s s' :
  nextInstr dec s = (Ret tt, s') ->
  BreakPointHandler.breakpointTrigged (breakpointHandler s') = true ->
  stepMode s' = None /\ isStepDone s' = (Ret true, s').
Proof.
  intros Hrun Htrig.
  assert (Hpost : post (fun s0 => BreakPointHandler.breakpointTrigged
                                     (breakpointHandler s0) = true
                                   -> stepMode s0 = None) (nextInstr dec)).
  { unfold nextInstr. do 8 (apply post_bind; intros).
    intros s0 u s1. unfold bind, gets, modify, ret, raise.
    destruct (BreakPointHandler.breakpointTrigged (breakpointHandler s0)) eqn:Ht;
      cbn; destruct (countCycle s0); cbn; intros H; inversion H; subst; cbn; congruence. }
  pose proof (Hpost s tt s' Hrun Htrig) as Hmode.
  split; [exact Hmode|].
  unfold isStepDone, bind, gets, ret, stepModeIs. cbn. rewrite !Hmode. reflexivity.
Qed.

Lemma Memory_get_exec_result m addr size e1 e2 h h' :
  fst (Memory.get m addr size e1 h) = fst (Memory.get m addr size e2 h').
Proof.
  unfold Memory.get.
  destruct (Memory._getRelativeAddr m addr size) as [[[sec offset]|]|e]; try reflexivity.
  cbn. destruct (getitem (Memory.data m) sec); reflexivity.
Qed.

(** What [nextInstr] adds around an instruction that returned: PC + 4,
    the refetch, the step-mode reset on a breakpoint and the cycle
    count. *)
Lemma nextInstr_tail dec s s2 r n :
  execInstr dec (with_bkpt (BreakPointHandler.reset (breakpointHandler s)) s)
    = (Ret tt, s2) ->
  length (regs s2) = 16%nat -> regs s2 !! 15%nat = Some r ->
  endsDeclared (mem s2) -> dataDeclared (mem s2) ->
  countCycle s2 = Some n ->
  exists h mode,
    nextInstr dec s =
      (Ret tt,
       afterCycle s2 h (<[15%nat := written r (Register.val r + 4)]> (regs s2))
         (stepCondition s2) (refetch s2 ((Register.val r + 4) mod 2 ^ 32))
         mode (Some (n + 1))).
Proof.
  intros Hexec Hlen Hr Hends Hdata Hcc.
  destruct (regGet_ok 15 r s2 ltac:(lia) Hr) as [h1 Hget1].
  destruct (regSetAt_ok 15 r (Register.val r + 4) (with_bkpt h1 s2) Hr) as [h2 Hset].
  set (R := <[15%nat := written r (Register.val r + 4)]> (regs s2)) in *.
  set (s4 := with_regs R (with_bkpt h2 (with_bkpt h1 s2))) in *.
  assert (Hr4 : regs s4 !! Z.to_nat 15 = Some (written r (Register.val r + 4))).
  { cbn. apply list_lookup_insert_eq. lia. }
  destruct (regGet_ok 15 _ s4 ltac:(lia) Hr4) as [h3 Hget2].
  cbn [Register.val written] in Hget2.
  set (pc := (Register.val r + 4) mod 2 ^ 32) in *.
  destruct (memGet_eq pc 4 true (with_bkpt h3 s4) Hends Hdata) as (fetched & h4 & Hfetch).
  assert (Hre : refetch s2 pc = match fetched with Some b => Some b | None => fetchedInstr s2 end).
  { unfold refetch. unfold memGet in Hfetch. cbn [mem with_bkpt with_regs breakpointHandler] in Hfetch.
    rewrite (Memory_get_result (mem s2) pc 4 true noBkpt h3).
    change (mem s4) with (mem s2) in Hfetch.
    destruct (Memory.get (mem s2) pc 4 true h3) as [o hh]. cbn.
    injection Hfetch as -> _. reflexivity. }
  exists h4, (if BreakPointHandler.breakpointTrigged h4 then None else stepMode s2).
  unfold nextInstr. rewrite bind_modify.
  rewrite (bind_eq _ _ _ _ _ Hexec).
  rewrite (bind_eq _ _ _ _ _ (regObj_15 s2 Hlen)).
  rewrite (bind_eq _ _ _ _ _ Hget1), (bind_eq _ _ _ _ _ Hset).
  rewrite (bind_eq _ _ _ _ _ Hget2), (bind_eq _ _ _ _ _ Hfetch).
  rewrite Hre. unfold bind, modify, gets, ret, afterCycle.
  destruct fetched, (BreakPointHandler.breakpointTrigged h4) eqn:Htrig;
    cbn; rewrite Htrig; cbn; rewrite Hcc; reflexivity.
Qed.

Lemma execInstr_run dec s d :
  dec (fetchedInstr s) = Ret d ->
  fst (conditionNotMet (cond d) s) = Ret false ->
  forall h0, exists h,
    execInstr dec (with_bkpt h0 s) = execute (instr d) (with_bkpt h s).
Proof.
  intros Hdec Hcond h0.
  destruct (bkptOnly_conditionNotMet (cond d) s) as [b Hb].
  assert (b = false) as ->.
  { destruct (Hb (breakpointHandler s)) as [h Hh].
    rewrite with_bkpt_id in Hh. rewrite Hh in Hcond. now injection Hcond. }
  destruct (Hb h0) as [h Hh]. exists h.
  unfold execInstr. rewrite bind_gets. cbn [fetchedInstr with_bkpt].
  rewrite (bind_lift _ _ _ _ Hdec), (bind_eq _ _ _ _ _ Hh). reflexivity.
Qed.

(** ** Branches *)

Lemma bind_ret {S A B} (a : A) (k : A -> M S B) s : bind (ret a) k s = k a s.
Proof. reflexivity. Qed.

Lemma execBranch_imm L off s r14 r15 :
  length (regs s) = 16%nat ->
  regs s !! 14%nat = Some r14 -> regs s !! 15%nat = Some r15 ->
  exists h,
    execBranch (mkBranch L "imm" off) s =
      (Ret tt,
       afterExec s h
         (<[15%nat := written r15 (Register.val r15 + off - 4)]>
            (if L then <[14%nat := written r14 (Register.val r15 + 4)]> (regs s)
             else regs s))
         (stepCondition s + b2z L)).
Proof.
  intros Hlen H14 H15. unfold execBranch. cbn [br_L br_mode br_offset].
  change (String.eqb "imm" "imm") with true.
  destruct L; cbv iota.
  - destruct (regGet_ok 15 r15 s ltac:(lia) H15) as [h1 Hg1].
    destruct (regSetAt_ok 14 r14 (Register.val r15 + 4) (with_bkpt h1 s) H14) as [h2 Hs1].
    set (R1 := <[14%nat := written r14 (Register.val r15 + 4)]> (regs s)) in *.
    set (s2 := with_stepCondition (stepCondition s + 1)
                 (with_regs R1 (with_bkpt h2 (with_bkpt h1 s)))).
    assert (Hlink :
      (let* k := regObj 14 in
       let* pc := regGet 15 in
       let* _ := regSetAt k (pc + 4) in
       modify (fun s0 => with_stepCondition (stepCondition s0 + 1) s0)) s = (Ret tt, s2)).
    { rewrite (bind_eq _ _ _ _ _ (regObj_ok 14 s ltac:(lia))).
      rewrite (bind_eq _ _ _ _ _ Hg1), (bind_eq _ _ _ _ _ Hs1). reflexivity. }
    assert (H15' : regs s2 !! Z.to_nat 15 = Some r15).
    { cbn. unfold R1. rewrite list_lookup_insert_ne by lia. exact H15. }
    destruct (regGet_ok 15 r15 s2 ltac:(lia) H15') as [h3 Hg2].
    destruct (regSetAt_ok 15 r15 (Register.val r15 + off - 4) (with_bkpt h3 s2) H15')
      as [h4 Hs2].
    exists h4. rewrite (bind_eq _ _ _ _ _ Hlink).
    rewrite (bind_eq _ _ _ _ _ (regObj_ok 15 s2 ltac:(cbn; unfold R1; rewrite length_insert; lia))).
    rewrite (bind_eq _ _ _ _ _ Hg2). change (Z.to_nat 15) with 15%nat.
    rewrite Hs2. reflexivity.
  - destruct (regGet_ok 15 r15 s ltac:(lia) H15) as [h1 Hg1].
    destruct (regSetAt_ok 15 r15 (Register.val r15 + off - 4) (with_bkpt h1 s) H15)
      as [h2 Hs1].
    exists h2. rewrite bind_ret.
    rewrite (bind_eq _ _ _ _ _ (regObj_ok 15 s ltac:(lia))).
    rewrite (bind_eq _ _ _ _ _ Hg1). change (Z.to_nat 15) with 15%nat.
    rewrite Hs1. unfold afterExec, afterCycle. cbn.
    rewrite Z.add_0_r. reflexivity.
Qed.

Lemma execBranch_reg mode rn s rr r15 :
  mode <> "imm" ->
  length (regs s) = 16%nat ->
  0 <= rn -> regs s !! Z.to_nat rn = Some rr -> regs s !! 15%nat = Some r15 ->
  exists h,
    execBranch (mkBranch false mode rn) s =
      (Ret tt,
       afterExec s h (<[15%nat := written r15 (Register.val rr - 4)]> (regs s))
         (stepCondition s - 1)).
Proof.
  intros Hmode Hlen Hrn Hrr H15. unfold execBranch. cbn [br_L br_mode br_offset].
  apply String.eqb_neq in Hmode. rewrite Hmode. cbv iota.
  destruct (regGet_ok rn rr s Hrn Hrr) as [h1 Hg1].
  destruct (regSetAt_ok 15 r15 (Register.val rr - 4) (with_bkpt h1 s) H15) as [h2 Hs1].
  exists h2. rewrite bind_ret.
  rewrite (bind_eq _ _ _ _ _ (regObj_ok 15 s ltac:(lia))).
  rewrite (bind_eq _ _ _ _ _ Hg1), (bind_eq _ _ _ _ _ Hs1). reflexivity.
Qed.

(** X20.  A taken branch with an immediate offset, seen through a whole
    cycle: PC becomes (PC + offset) mod 2^32 and the fetch buffer is
    refilled from there (or kept when that address is illegal); with link,
    R14 receives (PC + 4) mod 2^32 and the step depth grows by one.  R0 to
    R13, the flags and the memory are unchanged, and the cycle counter
    grows by one. *)
Theorem nextInstr_branch dec s d L off r14 r15 n :
  dec (fetchedInstr s) = Ret d ->
  instr d = Branch (mkBranch L "imm" off) ->
  fst (conditionNotMet (cond d) s) = Ret false ->
  length (regs s) = 16%nat ->
  regs s !! 14%nat = Some r14 -> regs s !! 15%nat = Some r15 ->
  endsDeclared (mem s) -> dataDeclared (mem s) ->
  countCycle s = Some n ->
  exists s',
    nextInstr dec s = (Ret tt, s') /\
    regVal s' 15 = Some ((Register.val r15 + off) mod 2 ^ 32) /\
    regVal s' 14 = Some (if L then (Register.val r15 + 4) mod 2 ^ 32
                         else Register.val r14) /\
    (forall k, (k < 14)%nat -> regs s' !! k = regs s !! k) /\
    stepCondition s' = stepCondition s + b2z L /\
    fetchedInstr s' = refetch s ((Register.val r15 + off) mod 2 ^ 32) /\
    flags s' = flags s /\ mem s' = mem s /\
    countCycle s' = Some (n + 1).
Proof.
  intros Hdec Hinstr Hcond Hlen H14 H15 Hends Hdata Hcc.
  destruct (execInstr_run dec s d Hdec Hcond
              (BreakPointHandler.reset (breakpointHandler s))) as [h1 Hrun].
  rewrite Hinstr in Hrun. cbn [execute] in Hrun.
  destruct (execBranch_imm L off (with_bkpt h1 s) r14 r15 Hlen H14 H15) as [h2 Hbr].
  rewrite Hbr in Hrun. clear Hbr. cbn [regs with_bkpt stepCondition] in Hrun.
  set (R1 := if L then <[14%nat := written r14 (Register.val r15 + 4)]> (regs s)
             else regs s) in *.
  set (R2 := <[15%nat := written r15 (Register.val r15 + off - 4)]> R1) in *.
  assert (HlenR1 : length R1 = 16%nat).
  { unfold R1. destruct L; [rewrite length_insert|]; exact Hlen. }
  assert (HR1_14 : R1 !! 14%nat = Some (if L then written r14 (Register.val r15 + 4) else r14)).
  { unfold R1. destruct L; [apply list_lookup_insert_eq; lia|exact H14]. }
  assert (HR1_k : forall k, (k < 14)%nat -> R1 !! k = regs s !! k).
  { intros k Hk. unfold R1. destruct L; [apply list_lookup_insert_ne; lia|reflexivity]. }
  clearbody R1.
  assert (HlenR2 : length R2 = 16%nat).
  { unfold R2. rewrite length_insert. exact HlenR1. }
  assert (HR2_15 : R2 !! 15%nat = Some (written r15 (Register.val r15 + off - 4))).
  { unfold R2. apply list_lookup_insert_eq. lia. }
  assert (HR2_k : forall k, (k < 15)%nat -> R2 !! k = R1 !! k).
  { intros k Hk. unfold R2. apply list_lookup_insert_ne. lia. }
  clearbody R2.
  destruct (nextInstr_tail dec s _ (written r15 (Register.val r15 + off - 4)) n Hrun)
    as (h3 & mode & Hnext);
    [exact HlenR2 | exact HR2_15 | exact Hends | exact Hdata | exact Hcc |].
  cbn [Register.val written] in Hnext.
  assert (Hpc : ((Register.val r15 + off - 4) mod 2 ^ 32 + 4) mod 2 ^ 32
                = (Register.val r15 + off) mod 2 ^ 32).
  { rewrite Z.add_mod_idemp_l by lia. f_equal. lia. }
  rewrite Hpc in Hnext.
  eexists. split; [exact Hnext|].
  unfold afterCycle, afterExec, regVal. cbn.
  split; [|split; [|split; [|repeat split]]].
  - rewrite list_lookup_insert_eq by lia. cbn. now rewrite Hpc.
  - rewrite list_lookup_insert_ne, HR2_k, HR1_14 by lia. now destruct L.
  - intros k Hk. rewrite list_lookup_insert_ne, HR2_k by lia. apply HR1_k, Hk.
Qed.

(** ** Stepping over a call *)

(** X21.  The step-forward protocol.  After [setStepCondition("forward")]
    the step is done at once if no call was met.  After a branch with
    link, [isStepDone] answers false and turns the step into a step out
    of depth 1; after the matching register branch it answers true. *)
Theorem step_forward_over_call s off r14 r15 :
  length (regs s) = 16%nat ->
  regs s !! 14%nat = Some r14 -> regs s !! 15%nat = Some r15 ->
  exists s1 s2 s3 s4,
    setStepCondition "forward" s = (Ret tt, s1) /\
    isStepDone s1 = (Ret true, s1) /\
    execBranch (mkBranch true "imm" off) s1 = (Ret tt, s2) /\
    isStepDone s2 = (Ret false, s3) /\
    stepMode s3 = Some "out" /\ stepCondition s3 = 1 /\
    execBranch (mkBranch false "reg" 14) s3 = (Ret tt, s4) /\
    isStepDone s4 = (Ret true, s4).
Proof.
  intros Hlen H14 H15.
  destruct (execBranch_imm true off
              (with_stepCondition 1 (with_stepMode (Some "forward") s)) r14 r15
              Hlen H14 H15) as [h2 Hbl].
  cbn [regs with_stepCondition with_stepMode stepCondition b2z] in Hbl.
  set (R2 := <[15%nat := written r15 (Register.val r15 + off - 4)]>
               (<[14%nat := written r14 (Register.val r15 + 4)]> (regs s))) in *.
  assert (HlenR2 : length R2 = 16%nat).
  { unfold R2. rewrite !length_insert. exact Hlen. }
  assert (H14' : R2 !! Z.to_nat 14 = Some (written r14 (Register.val r15 + 4))).
  { unfold R2. rewrite list_lookup_insert_ne by lia.
    apply list_lookup_insert_eq. lia. }
  assert (H15' : R2 !! 15%nat = Some (written r15 (Register.val r15 + off - 4))).
  { unfold R2. apply list_lookup_insert_eq. rewrite length_insert. lia. }
  clearbody R2.
  destruct (execBranch_reg "reg" 14
              (with_stepCondition 1
                 (with_stepMode (Some "out")
                    (afterExec (with_stepCondition 1 (with_stepMode (Some "forward") s))
                       h2 R2 (1 + 1))))
              _ _ ltac:(discriminate) HlenR2 ltac:(lia) H14' H15')
    as [h4 Hbx].
  eexists. eexists. eexists. eexists.
  split; [reflexivity|]. split; [reflexivity|]. split; [exact Hbl|].
  split; [reflexivity|]. split; [reflexivity|]. split; [reflexivity|].
  split; [exact Hbx|]. reflexivity.
Qed.

(** ** Construction followed by reset *)

(** X22.  Constructing a simulator from a consistent image that maps the
    four bytes at address 0 and then calling [reset] succeeds: the state
    is ready, the cycle counter 0, every register 0, no event is latched,
    and the fetch buffer holds the first four bytes of the segment that
    starts at 0. *)
Theorem init_then_reset memcontent start end_ sec e buf :
  NoDup (dict_keys start) ->
  NoDup (dict_keys end_) ->
  (forall k, In k (dict_keys start) <-> In k (dict_keys end_)) ->
  (forall sec s e,
      dict_get start sec = Some s -> dict_get end_ sec = Some e ->
      0 <= s /\ exists buf, dict_get memcontent sec = Some buf /\
                            Z.of_nat (length buf) = e - s) ->
  (forall sec1 sec2 s1 e1 s2 e2,
      sec1 <> sec2 ->
      dict_get start sec1 = Some s1 -> dict_get end_ sec1 = Some e1 ->
      dict_get start sec2 = Some s2 -> dict_get end_ sec2 = Some e2 ->
      e1 <= s2 \/ e2 <= s1) ->
  dict_get start sec = Some 0 -> dict_get end_ sec = Some e -> 4 <= e ->
  dict_get memcontent sec = Some buf ->
  exists s0 s1,
    init memcontent start end_ = Ret s0 /\
    state s0 = uninitialized /\ countCycle s0 = None /\
    reset s0 = (Ret tt, s1) /\
    state s1 = ready /\ countCycle s1 = Some 0 /\
    fetchedInstr s1 = Some (take 4 buf) /\
    breakpointHandler s1 = BreakPointHandler.mk false None /\
    (forall k, (k < 16)%nat -> regVal s1 k = Some 0).
Proof.
  intros Hnds Hnde Hsame Hseg Hdis Hs He He4 Hbuf.
  destruct (init_wellFormed memcontent start end_ Hnds Hnde Hsame) as
    (m & Hinit & Hwf & Hst & Hen & Hhist & Hbk & Hdata); [|exact Hseg|exact Hdis|].
  { intros ->. discriminate. }
  assert (Hbufm : dict_get (Memory.data m) sec = Some buf).
  { rewrite Hdata; [exact Hbuf|]. apply in_map_iff. exists (sec, 0).
    split; [reflexivity|]. now apply dict_get_In. }
  rewrite <- Hst in Hs. rewrite <- Hen in He.
  pose proof (get_in_segment_exact m Hwf sec 0 e buf Hs He Hbufm 0 4
                ltac:(lia) ltac:(lia) ltac:(lia) true (BreakPointHandler.mk false None))
    as Hget.
  assert (Hq : snd (Memory.get m 0 4 true (BreakPointHandler.mk false None))
               = BreakPointHandler.mk false None).
  { apply (get_quiet m 0 4 true _ sec (0 - 0)).
    - apply (getRelativeAddr_finds m Hwf sec 0 e Hs He); lia.
    - intros a Ha. unfold readFires. rewrite Hbk. reflexivity. }
  set (h0 := BreakPointHandler.mk false None) in *.
  set (fl := fun f => match f with
                      | FZ => newFlag "Z" | FV => newFlag "V"
                      | FC => newFlag "C" | FN => newFlag "N"
                      end).
  set (R0 := alter (setAltname "PC") 15%nat
               (alter (setAltname "LR") 14%nat
                  (alter (setAltname "SP") 13%nat (map newRegister (range 16))))).
  set (pc0 := Register.mk 15 0 (Some "PC") [] 0).
  set (s0 := mk uninitialized h0 m R0 None 0 fl None None).
  set (s1 := mk ready h0 m R0 None 0 fl None (Some 0)).
  set (s2 := mk ready h0 m (<[15%nat := written pc0 0]> R0) None 0 fl None (Some 0)).
  assert (Hset : regSet 15 0 s1 = (Ret tt, s2)).
  { rewrite (regSet_15 pc0 0 s1 eq_refl eq_refl). reflexivity. }
  assert (Hpc : regGet 15 s2 = (Ret 0, s2)).
  { rewrite (regGet_15 (written pc0 0) s2 eq_refl eq_refl). reflexivity. }
  assert (Hmem : memGet 0 4 true s2 = (Ret (Some (take 4 buf)), s2)).
  { unfold memGet. change (mem s2) with m. change (breakpointHandler s2) with h0.
    destruct (Memory.get m 0 4 true h0) as [o h]. cbn [fst snd] in Hget, Hq.
    subst o h. reflexivity. }
  exists s0, (with_fetchedInstr (Some (take 4 buf)) s2).
  split; [unfold init; rewrite Hinit; reflexivity|].
  split; [reflexivity|]. split; [reflexivity|].
  split.
  { unfold reset. rewrite !bind_modify.
    change (with_countCycle (Some 0) (with_state ready s0)) with s1.
    rewrite (bind_eq _ _ _ _ _ Hset), (bind_eq _ _ _ _ _ Hpc), (bind_eq _ _ _ _ _ Hmem).
    reflexivity. }
  split; [reflexivity|]. split; [reflexivity|]. split; [reflexivity|].
  split; [reflexivity|].
  intros k Hk. unfold regVal. cbn [regs with_fetchedInstr s2].
  do 16 (destruct k as [|k]; [reflexivity|]). lia.
Qed.

(** ** Loads and stores *)

Lemma memGet_result addr size execMode s :
  exists h, memGet addr size execMode s =
            (fst (Memory.get (mem s) addr size execMode noBkpt), with_bkpt h s).
Proof.
  unfold memGet.
  rewrite (Memory_get_result (mem s) addr size execMode noBkpt (breakpointHandler s)).
  destruct (Memory.get (mem s) addr size execMode (breakpointHandler s)) as [o h].
  eauto.
Qed.

Lemma le_value_bound b : 0 <= le_value b < 256 ^ Z.of_nat (length b).
Proof.
  induction b as [|x b IH]; [cbn; lia|].
  cbn [le_value length]. rewrite Nat2Z.inj_succ, Z.pow_succ_r by lia.
  pose proof (Byte.to_N_bounded x). lia.
Qed.

Lemma alter_lookup {A} (f : A -> A) (l : list A) k x :
  l !! k = Some x -> <[k := f x]> l = alter f k l.
Proof.
  revert k. induction l as [|y l IH]; intros [|k] H; try discriminate.
  - injection H as ->. reflexivity.
  - cbn. f_equal. apply IH, H.
Qed.

Lemma regSet_alter i v s :
  0 <= i < Z.of_nat (length (regs s)) ->
  exists h, regSet i v s =
            (Ret tt, with_regs (alter (fun r => written r v) (Z.to_nat i) (regs s))
                       (with_bkpt h s)).
Proof.
  intros Hi.
  destruct (regs s !! Z.to_nat i) as [r|] eqn:Hr;
    [|apply lookup_ge_None in Hr; lia].
  destruct (regSet_ok i r v s ltac:(lia) Hr) as [h Hh]. exists h.
  rewrite Hh, (alter_lookup (fun r => written r v) _ _ _ Hr). reflexivity.
Qed.

(** X23.  A word load from an address inside a segment of a well-formed
    memory writes to Rd the little-endian value of the four bytes found
    there, then, with writeback, the offset address to the base register;
    memory and flags are untouched.  The address read is the offset
    address when pre-indexed, the base value otherwise. *)
Theorem execMemop_LDR_word s base off sign (pre : bool) rd (wb : bool) sec st e buf rb rr :
  MemoryWellFormed (mem s) ->
  dict_get (Memory.startAddr (mem s)) sec = Some st ->
  dict_get (Memory.endAddr (mem s)) sec = Some e ->
  dict_get (Memory.data (mem s)) sec = Some buf ->
  0 <= base -> regs s !! Z.to_nat base = Some rb ->
  0 <= rd -> regs s !! Z.to_nat rd = Some rr ->
  let addr := Register.val rb + sign * off in
  let realAddr := if pre then addr else Register.val rb in
  let v := le_value (take 4 (drop (Z.to_nat (realAddr - st)) buf)) in
  st <= realAddr -> realAddr + 4 <= e ->
  0 <= v < 2 ^ 32 /\
  exists h,
    execMemop (mkMem base (OffsetImm off) sign pre "LDR" false rd wb) s =
      (Ret tt,
       afterExec s h
         ((if wb then alter (fun r => written r addr) (Z.to_nat base) else id)
            (<[Z.to_nat rd := written rr v]> (regs s)))
         (stepCondition s)).
Proof.
  intros Hwf Hst He Hbuf Hbase Hrb Hrd Hrr addr realAddr v Hlo Hhi.
  pose proof (buffer_length (mem s) Hwf sec st e buf Hst He Hbuf) as Hlen.
  assert (Hbytes : length (take 4 (drop (Z.to_nat (realAddr - st)) buf)) = 4%nat).
  { rewrite length_take, length_drop. lia. }
  split.
  { pose proof (le_value_bound (take 4 (drop (Z.to_nat (realAddr - st)) buf))) as Hb.
    rewrite Hbytes in Hb. exact Hb. }
  destruct (regGet_ok base rb s Hbase Hrb) as [h1 Hg].
  destruct (memGet_result realAddr 4 false (with_bkpt h1 s)) as [h2 Hm].
  cbn [mem with_bkpt] in Hm.
  rewrite (get_in_segment_exact (mem s) Hwf sec st e buf Hst He Hbuf realAddr 4
             ltac:(lia) Hlo Hhi false noBkpt) in Hm.
  change (Z.to_nat 4) with 4%nat in Hm.
  destruct (regSet_ok rd rr v (with_bkpt h2 s) Hrd Hrr) as [h3 Hs].
  cbn [regs with_bkpt] in Hs.
  set (R1 := <[Z.to_nat rd := written rr v]> (regs s)) in *.
  assert (Hun : struct_unpack "<I" (take 4 (drop (Z.to_nat (realAddr - st)) buf)) = Ret v).
  { unfold struct_unpack. cbn [fmt_size String.eqb Ascii.eqb Bool.eqb].
    rewrite Hbytes. reflexivity. }
  assert (Hload :
    (let* m := memGet realAddr 4 false in
     match m with
     | None => ret false
     | Some bytes =>
         let* res := lift (struct_unpack "<I" bytes) in
         let* _ := regSet rd res in ret true
     end) (with_bkpt h1 s) = (Ret true, with_regs R1 (with_bkpt h3 s))).
  { rewrite (bind_eq _ _ _ _ _ Hm), (bind_lift _ _ _ _ Hun), (bind_eq _ _ _ _ _ Hs).
    reflexivity. }
  unfold execMemop.
  cbn [mo_base mo_offset mo_sign mo_pre mo_mode mo_byte mo_rd mo_writeback].
  change (String.eqb "LDR" "LDR") with true. cbv iota.
  rewrite (bind_eq _ _ _ _ _ Hg), bind_ret.
  fold addr. fold realAddr. rewrite (bind_eq _ _ _ _ _ Hload).
  destruct wb; cbn [andb].
  - destruct (regSet_alter base addr (with_regs R1 (with_bkpt h3 s))) as [h4 Hw].
    { cbn [regs with_regs]. unfold R1. rewrite length_insert.
      apply lookup_lt_Some in Hrb. lia. }
    exists h4. rewrite Hw. reflexivity.
  - exists h3. reflexivity.
Qed.

Lemma memGet_unmapped addr size execMode s :
  endsDeclared (mem s) -> noSegment (mem s) addr size ->
  memGet addr size execMode s =
    (Ret None, with_bkpt (BreakPointHandler.throw (Memory.memInfo 8 addr) noBkpt) s).
Proof.
  intros Hends Hno. unfold memGet.
  rewrite (get_unmapped (mem s) addr size execMode _ Hends Hno). reflexivity.
Qed.

(** X24.  A load from an address that no segment holds is skipped without
    an exception: the instruction returns, no register changes (the
    writeback is not done either), memory and flags are untouched, and
    the illegal-address event (memory, 8, address) is latched. *)
Theorem execMemop_LDR_unmapped s base off sign (pre byte : bool) rd wb rb :
  endsDeclared (mem s) ->
  0 <= base -> regs s !! Z.to_nat base = Some rb ->
  let addr := Register.val rb + sign * off in
  let realAddr := if pre then addr else Register.val rb in
  noSegment (mem s) realAddr (if byte then 1 else 4) ->
  execMemop (mkMem base (OffsetImm off) sign pre "LDR" byte rd wb) s =
    (Ret tt,
     with_bkpt (BreakPointHandler.mk true
                  (Some (mkBkptInfo "memory" 8 (InfoInt realAddr)))) s).
Proof.
  intros Hends Hbase Hrb addr realAddr Hno.
  destruct (regGet_ok base rb s Hbase Hrb) as [h1 Hg].
  unfold execMemop.
  cbn [mo_base mo_offset mo_sign mo_pre mo_mode mo_byte mo_rd mo_writeback].
  change (String.eqb "LDR" "LDR") with true. cbv iota.
  rewrite (bind_eq _ _ _ _ _ Hg), bind_ret. fold addr. fold realAddr.
  assert (Hload :
    (let* m := memGet realAddr (if byte then 1 else 4) false in
     match m with
     | None => ret false
     | Some bytes =>
         let* res := lift (struct_unpack "<I" bytes) in
         let* _ := regSet rd res in ret true
     end) (with_bkpt h1 s) =
    (Ret false,
     with_bkpt (BreakPointHandler.mk true
                  (Some (mkBkptInfo "memory" 8 (InfoInt realAddr)))) s)).
  { rewrite (bind_eq _ _ _ _ _
               (memGet_unmapped realAddr _ false (with_bkpt h1 s) Hends Hno)).
    reflexivity. }
  rewrite (bind_eq _ _ _ _ _ Hload). reflexivity.
Qed.

(** X25.  A store to an address inside a segment fails with TypeError:
    the write is logged, but the bytes of every segment, the registers
    (the writeback is not reached) and the flags are as before. *)
Theorem execMemop_STR_mapped s base off sign (pre byte : bool) rd wb
        sec st e buf rb rr :
  MemoryWellFormed (mem s) ->
  dict_get (Memory.startAddr (mem s)) sec = Some st ->
  dict_get (Memory.endAddr (mem s)) sec = Some e ->
  dict_get (Memory.data (mem s)) sec = Some buf ->
  0 <= base -> regs s !! Z.to_nat base = Some rb ->
  0 <= rd -> regs s !! Z.to_nat rd = Some rr ->
  let addr := Register.val rb + sign * off in
  let realAddr := if pre then addr else Register.val rb in
  let size := if byte then 1 else 4 in
  st <= realAddr -> realAddr + size <= e ->
  exists s',
    execMemop (mkMem base (OffsetImm off) sign pre "STR" byte rd wb) s =
      (Raise TypeError, s') /\
    regs s' = regs s /\ flags s' = flags s /\
    Memory.data (mem s') = Memory.data (mem s) /\
    Memory.history (mem s') =
      Memory.history (mem s) ++ [(sec, realAddr - st, size, Register.val rr mod 2 ^ 32)].
Proof.
  intros Hwf Hst He Hbuf Hbase Hrb Hrd Hrr addr realAddr size Hlo Hhi.
  assert (Hsize : 0 < size) by (unfold size; destruct byte; lia).
  destruct (regGet_ok base rb s Hbase Hrb) as [h1 Hg].
  destruct (regGet_ok rd rr (with_bkpt h1 s) Hrd Hrr) as [h2 Hg2].
  pose proof (getRelativeAddr_finds (mem s) Hwf sec st e Hst He realAddr size
                Hsize Hlo Hhi) as Hrel.
  eexists. split.
  - unfold execMemop.
    cbn [mo_base mo_offset mo_sign mo_pre mo_mode mo_byte mo_rd mo_writeback].
    change (String.eqb "STR" "LDR") with false. cbv iota.
    rewrite (bind_eq _ _ _ _ _ Hg), bind_ret. fold addr. fold realAddr. fold size.
    unfold bind at 1. unfold bind at 1. rewrite Hg2.
    unfold bind at 1. unfold memSet. cbn [mem with_bkpt breakpointHandler].
    rewrite (Memory_set_resolved (mem s) realAddr (Register.val rr) size h2 sec
               (realAddr - st) buf Hrel Hbuf).
    reflexivity.
  - cbn. rewrite land_word_mod. repeat split.
Qed.

Lemma Memory_set_unmapped m addr val size h :
  endsDeclared m -> noSegment m addr size ->
  Memory.set m addr val size h =
    (Ret tt, m, BreakPointHandler.throw (Memory.memInfo 8 addr) h).
Proof.
  intros Hends Hno. unfold Memory.set.
  rewrite (getRelativeAddr_none m addr size Hends Hno). reflexivity.
Qed.

Lemma Register_set_latched r v b h :
  BreakPointHandler.breakpointTrigged h = true ->
  BreakPointHandler.breakpointTrigged (snd (Register.set r v b h)) = true.
Proof.
  intros Hh. unfold Register.set. cbn.
  destruct (b && truthy (Z.land (Register.breakpoint r) 2)); [reflexivity|exact Hh].
Qed.

(** X26.  A store to an address that no segment holds returns normally:
    the memory is unchanged, the illegal-address event is latched, and
    the writeback to the base register is still done when asked for. *)
Theorem execMemop_STR_unmapped s base off sign (pre byte : bool) rd (wb : bool) rb rr :
  endsDeclared (mem s) ->
  0 <= base -> regs s !! Z.to_nat base = Some rb ->
  0 <= rd -> regs s !! Z.to_nat rd = Some rr ->
  let addr := Register.val rb + sign * off in
  let realAddr := if pre then addr else Register.val rb in
  noSegment (mem s) realAddr (if byte then 1 else 4) ->
  exists h,
    execMemop (mkMem base (OffsetImm off) sign pre "STR" byte rd wb) s =
      (Ret tt,
       afterExec s h
         (if wb then <[Z.to_nat base := written rb addr]> (regs s) else regs s)
         (stepCondition s)) /\
    BreakPointHandler.breakpointTrigged h = true /\
    (wb = false ->
     BreakPointHandler.breakpointInfo h = Some (mkBkptInfo "memory" 8 (InfoInt realAddr))).
Proof.
  intros Hends Hbase Hrb Hrd Hrr addr realAddr Hno.
  destruct (regGet_ok base rb s Hbase Hrb) as [h1 Hg].
  destruct (regGet_ok rd rr (with_bkpt h1 s) Hrd Hrr) as [h2 Hg2].
  set (h3 := BreakPointHandler.throw (Memory.memInfo 8 realAddr) h2).
  assert (Hstore :
    (let* v := regGet rd in
     let* _ := memSet realAddr v (if byte then 1 else 4) in ret true)
      (with_bkpt h1 s) = (Ret true, with_bkpt h3 s)).
  { rewrite (bind_eq _ _ _ _ _ Hg2). unfold bind at 1, memSet.
    cbn [mem with_bkpt breakpointHandler].
    rewrite (Memory_set_unmapped (mem s) realAddr _ _ h2 Hends Hno).
    destruct s; reflexivity. }
  unfold execMemop.
  cbn [mo_base mo_offset mo_sign mo_pre mo_mode mo_byte mo_rd mo_writeback].
  change (String.eqb "STR" "LDR") with false. cbv iota.
  rewrite (bind_eq _ _ _ _ _ Hg), bind_ret. fold addr. fold realAddr.
  rewrite (bind_eq _ _ _ _ _ Hstore).
  destruct wb; cbn [andb].
  - apply lookup_lt_Some in Hrb as Hlt.
    assert (Hobj : regObj base (with_bkpt h3 s) = (Ret (Z.to_nat base), with_bkpt h3 s)).
    { apply regObj_ok. cbn [regs with_bkpt]. lia. }
    unfold regSet. rewrite (bind_eq _ _ _ _ _ Hobj).
    rewrite (regSetAt_eq (Z.to_nat base) rb addr (with_bkpt h3 s) Hrb).
    cbn [breakpointHandler with_bkpt regs].
    exists (snd (Register.set rb addr true h3)).
    split; [rewrite Register_set_written; reflexivity|].
    split; [apply Register_set_latched; reflexivity|discriminate].
  - exists h3. repeat split.
Qed.

(** ** Data operations *)

Lemma execDataop_imm rn rd opcode sf v kind src s a s1 res w s2 :
  regGet rn s = (Ret a, s1) ->
  computeRes opcode a v [] s1 = (Ret (res, w), s2) ->
  execDataop (mkData rn (Op2Imm v (kind, src, 0)) rd opcode sf) s =
    (let* _ := (if sf
                then applyFlags
                       (let w := if res =? 0 then wf_set w FZ true else w in
                        if truthy (Z.land res 0x80000000) then wf_set w FN true else w)
                else ret tt) in
     if negb (opcode_in opcode ["TST"; "TEQ"; "CMP"; "CMN"])
     then regSet rd res else ret tt) s2.
Proof.
  intros Hg Hc. unfold execDataop.
  cbn [do_rn do_op2 do_rd do_opcode do_setflags snd].
  change (negb (0 =? 0)) with false. cbv iota.
  rewrite (bind_eq _ _ _ _ _ Hg), bind_ret, (bind_eq _ _ _ _ _ Hc). reflexivity.
Qed.

(** X27.  Without [setflags], a data operation on Rn and an unshifted
    immediate writes to Rd the result of its opcode, reduced modulo 2^32,
    and changes nothing else but the latch: ADD, SUB and RSB are the sum
    and the two differences, AND, ORR, EOR and BIC the bitwise
    operations, MOV and MVN the operand and its complement. *)
Theorem execDataop_table rn rd opcode v kind src s rn_ rd_ res :
  0 <= rn -> regs s !! Z.to_nat rn = Some rn_ ->
  0 <= rd -> regs s !! Z.to_nat rd = Some rd_ ->
  In (opcode, res)
     (let a := Register.val rn_ in
      [("ADD", a + v); ("SUB", a - v); ("RSB", v - a);
       ("AND", Z.land a v); ("ORR", Z.lor a v); ("EOR", Z.lxor a v);
       ("BIC", Z.land a (Z.lnot v)); ("MOV", v); ("MVN", Z.lnot v)]) ->
  exists h,
    execDataop (mkData rn (Op2Imm v (kind, src, 0)) rd opcode false) s =
      (Ret tt,
       afterExec s h (<[Z.to_nat rd := written rd_ res]> (regs s)) (stepCondition s)).
Proof.
  intros Hrn Hrn_ Hrd Hrd_ Hin.
  destruct (regGet_ok rn rn_ s Hrn Hrn_) as [h1 Hg].
  destruct (regSet_ok rd rd_ res (with_bkpt h1 s) Hrd Hrd_) as [h2 Hs].
  exists h2. cbv zeta in Hin.
  assert (Hrun : forall op r w,
             computeRes op (Register.val rn_) v [] (with_bkpt h1 s)
               = (Ret (r, w), with_bkpt h1 s) ->
             opcode_in op ["TST"; "TEQ"; "CMP"; "CMN"] = false ->
             (opcode, res) = (op, r) ->
             execDataop (mkData rn (Op2Imm v (kind, src, 0)) rd opcode false) s =
               (Ret tt,
                afterExec s h2 (<[Z.to_nat rd := written rd_ res]> (regs s))
                  (stepCondition s))).
  { intros op r w Hc Hop Heq. injection Heq as -> ->.
    rewrite (execDataop_imm _ _ _ _ _ _ _ _ _ _ _ _ _ Hg Hc), Hop.
    cbn [negb]. rewrite bind_ret. exact Hs. }
  do 9 (destruct Hin as [Hin|Hin];
          [symmetry in Hin; refine (Hrun _ _ _ _ _ Hin); reflexivity|]).
  destruct Hin.
Qed.

Lemma applyFlags_other f w s :
  ~ In f (map fst w) ->
  exists s',
    applyFlags w s = (Ret tt, s') /\
    flags s' f = flags s f /\ regs s' = regs s /\ mem s' = mem s /\
    stepCondition s' = stepCondition s.
Proof.
  revert s. induction w as [|[k v] w IH]; intros s Hnot.
  - exists s. repeat split.
  - cbn in Hnot.
    destruct (IH (with_flags
                    (fun g => if FlagName_eqb g k
                              then fst (Flag.set (flags s k) v true (breakpointHandler s))
                              else flags s g)
                    (with_bkpt (snd (Flag.set (flags s k) v true (breakpointHandler s))) s)))
      as (s' & Hrun & Hf & Hr & Hm & Hst); [tauto|].
    exists s'. split; [|split; [|split; [|split]]].
    + cbn [applyFlags]. unfold bind at 1, flagSet.
      destruct (Flag.set (flags s k) v true (breakpointHandler s)) as [fl h] eqn:Hset.
      exact Hrun.
    + rewrite Hf. cbn.
      destruct (FlagName_eqb f k) eqn:Hfk; [|reflexivity].
      destruct f, k; try discriminate; tauto.
    + rewrite Hr. reflexivity.
    + rewrite Hm. reflexivity.
    + rewrite Hst. reflexivity.
Qed.

Lemma land_pow2 a n :
  0 <= n -> Z.land a (2 ^ n) = if Z.testbit a n then 2 ^ n else 0.
Proof.
  intros Hn. apply Z.bits_inj'. intros k Hk. rewrite Z.land_spec.
  destruct (Z.eq_dec k n) as [->|Hne].
  - rewrite Z.pow2_bits_true, andb_true_r by lia.
    destruct (Z.testbit a n) eqn:Hb; [rewrite Z.pow2_bits_true by lia|rewrite Z.bits_0];
      reflexivity.
  - rewrite Z.pow2_bits_false, andb_false_r by lia.
    destruct (Z.testbit a n); [rewrite Z.pow2_bits_false by lia|rewrite Z.bits_0];
      reflexivity.
Qed.

Lemma carry_bit res :
  0 <= res < 2 ^ 33 -> truthy (Z.land res (Z.shiftl 1 32)) = (2 ^ 32 <=? res).
Proof.
  intros Hres. unfold truthy. change (Z.shiftl 1 32) with (2 ^ 32).
  rewrite land_pow2 by lia.
  rewrite (Z.testbit_odd res 32), Z.shiftr_div_pow2 by lia.
  destruct (2 ^ 32 <=? res) eqn:Hle.
  - assert (Hq : res / 2 ^ 32 = 1)
      by (symmetry; apply Z.div_unique with (r := res - 2 ^ 32); lia).
    rewrite Hq. reflexivity.
  - rewrite Z.div_small by lia. reflexivity.
Qed.

(** X28.  ADDS on a 32-bit register value and a 32-bit unshifted
    immediate writes the sum modulo 2^32 to Rd and leaves in C exactly the
    unsigned carry: C is set when the sum does not fit in 32 bits and
    cleared when it does.  Memory is untouched. *)
Theorem execDataop_ADDS_carry rn rd v kind src s rn_ rd_ :
  0 <= rn -> regs s !! Z.to_nat rn = Some rn_ ->
  0 <= rd -> regs s !! Z.to_nat rd = Some rd_ ->
  0 <= Register.val rn_ < 2 ^ 32 -> 0 <= v < 2 ^ 32 ->
  exists s',
    execDataop (mkData rn (Op2Imm v (kind, src, 0)) rd "ADD" true) s = (Ret tt, s') /\
    regs s' = <[Z.to_nat rd := written rd_ (Register.val rn_ + v)]> (regs s) /\
    flagVal s' FC = (2 ^ 32 <=? Register.val rn_ + v) /\
    mem s' = mem s.
Proof.
  intros Hrn Hrn_ Hrd Hrd_ Ha Hv.
  destruct (regGet_ok rn rn_ s Hrn Hrn_) as [h1 Hg].
  set (a := Register.val rn_) in *.
  assert (Hc : computeRes "ADD" a v [] (with_bkpt h1 s) =
               (Ret (a + v, stageAddFlags a v (a + v) []), with_bkpt h1 s))
    by reflexivity.
  rewrite (execDataop_imm _ _ _ _ _ _ _ _ _ _ _ _ _ Hg Hc).
  change (opcode_in "ADD" ["TST"; "TEQ"; "CMP"; "CMN"]) with false. cbn [negb].
  set (c := truthy (Z.land (a + v) (Z.shiftl 1 32))).
  match goal with
  | |- context [applyFlags ?W] =>
      assert (Hw : exists w, W = (FC, c) :: w /\ ~ In FC (map fst w))
  end.
  { cbv zeta. unfold stageAddFlags. fold c. cbn [wf_set].
    destruct (negb (truthy (Z.lxor (Z.land a 0x80000000) (Z.land v 0x80000000))));
      destruct (a + v =? 0); destruct (truthy (Z.land (a + v) 0x80000000));
      cbn; eexists; (split; [reflexivity|]); cbn; intuition discriminate. }
  destruct Hw as (w & Hw & Hnot). rewrite Hw. clear Hw.
  set (s1 := with_flags
               (fun g => if FlagName_eqb g FC
                         then fst (Flag.set (flags s FC) c true h1)
                         else flags s g)
               (with_bkpt (snd (Flag.set (flags s FC) c true h1)) s)).
  destruct (applyFlags_other FC w s1 Hnot) as (s2 & Hrun & Hf & Hr & Hm & _).
  assert (Hrd2 : regs s2 !! Z.to_nat rd = Some rd_) by (rewrite Hr; exact Hrd_).
  destruct (regSet_ok rd rd_ (a + v) s2 Hrd Hrd2) as [h3 Hs].
  eexists. split.
  - unfold bind at 1. cbn [applyFlags]. unfold bind at 1, flagSet.
    cbn [flags with_bkpt breakpointHandler].
    destruct (Flag.set (flags s FC) c true h1) as [fl h] eqn:Hset.
    cbn [fst snd] in s1.
    match goal with |- context [applyFlags w ?x] => change x with s1 end.
    rewrite Hrun. exact Hs.
  - cbn [regs with_regs with_bkpt mem flags]. rewrite Hr, Hm.
    split; [reflexivity|]. split; [|reflexivity].
    unfold flagVal. cbn [flags with_regs with_bkpt]. rewrite Hf. cbn.
    apply carry_bit. lia.
Qed.

(** ** The halfword and signed-byte decoder *)

(** X29.  Whatever word the decoder accepts, the fields it assigns are in
    range: both register numbers are in 0..15, the sign is 1 or -1, the
    mode LDR or STR, a post-indexed access always has writeback, and
    exactly one offset is assigned: an immediate in 0..255 whose set bits
    are set in the word, or a register number in 0..15. *)
Theorem decode_fields instrInt d :
  HalfSignedMemOp.decode instrInt = Ret d ->
  0 <= HalfSignedMemOp.basereg d < 16 /\
  0 <= HalfSignedMemOp.rd d < 16 /\
  (HalfSignedMemOp.sign d = 1 \/ HalfSignedMemOp.sign d = -1) /\
  (HalfSignedMemOp.mode d = "LDR" \/ HalfSignedMemOp.mode d = "STR") /\
  (HalfSignedMemOp.pre d = false -> HalfSignedMemOp.writeback d = true) /\
  (if HalfSignedMemOp.imm d
   then HalfSignedMemOp.offsetReg d = None /\
        exists o, HalfSignedMemOp.offsetImm d = Some o /\
                  0 <= o < 256 /\ Z.land o instrInt = o
   else HalfSignedMemOp.offsetImm d = None /\
        exists r, HalfSignedMemOp.offsetReg d = Some r /\ 0 <= r < 16).
Proof.
  unfold HalfSignedMemOp.decode.
  destruct (negb (HalfSignedMemOp.checkMask instrInt [7; 4] [27; 26; 25]));
    [discriminate|].
  intros H. injection H as <-. cbn.
  assert (Hnib : forall x, 0 <= Z.land x 15 < 16).
  { intros x. change 15 with (Z.ones 4). rewrite Z.land_ones by lia.
    apply Z.mod_pos_bound. lia. }
  assert (Hhigh : 0 <= Z.land (Z.shiftr instrInt 4) 240 <= 240).
  { split; [apply Z.land_nonneg; right; lia|].
    assert (Hsub : Z.land (Z.land (Z.shiftr instrInt 4) 240) (Z.ones 8)
                   = Z.land (Z.shiftr instrInt 4) 240).
    { rewrite <- Z.land_assoc. reflexivity. }
    rewrite Z.land_ones in Hsub by lia.
    assert (Hlt : Z.land (Z.shiftr instrInt 4) 240 < 256).
    { rewrite <- Hsub. apply Z.mod_pos_bound. lia. }
    assert (Hlow : Z.land (Z.land (Z.shiftr instrInt 4) 240) (Z.ones 4) = 0).
    { rewrite <- Z.land_assoc. change (Z.land 240 (Z.ones 4)) with 0.
      apply Z.land_0_r. }
    rewrite Z.land_ones in Hlow by lia.
    pose proof (Z.div_mod (Z.land (Z.shiftr instrInt 4) 240) 16 ltac:(lia)).
    change (2 ^ 4) with 16 in Hlow. lia. }
  split; [apply Hnib|]. split; [apply Hnib|].
  split; [destruct (truthy _); auto|].
  split; [destruct (truthy (Z.land instrInt (Z.shiftl 1 20))); auto|].
  split; [intros ->; apply orb_true_r|].
  destruct (truthy (Z.land instrInt (Z.shiftl 1 22))).
  - split; [reflexivity|]. eexists. split; [reflexivity|]. split.
    + split; [apply Z.land_nonneg; right; lia|].
      set (k := 15 + Z.land (Z.shiftr instrInt 4) 240) in *.
      assert (Hk : 0 <= k < 256) by (unfold k; lia).
      assert (Hsub : Z.land (Z.land instrInt k) (Z.ones 8) = Z.land instrInt k).
      { rewrite <- Z.land_assoc. f_equal. rewrite Z.land_ones by lia.
        apply Z.mod_small. lia. }
      rewrite <- Hsub, Z.land_ones by lia. apply Z.mod_pos_bound. lia.
    + rewrite (Z.land_comm _ instrInt), Z.land_assoc, Z.land_diag. reflexivity.
  - split; [reflexivity|]. eexists. split; [reflexivity|]. apply Hnib.
Qed.

Lemma lor_high res n M :
  0 <= n -> 0 <= res < 2 ^ n -> Z.land (Z.ones n) M = 0 -> Z.lor res M = res + M.
Proof.
  intros Hn Hres HM.
  assert (Hd : Z.land res M = 0).
  { rewrite <- (Z.mod_small res (2 ^ n)) by lia.
    rewrite <- Z.land_ones, <- Z.land_assoc, HM by lia. apply Z.land_0_r. }
  rewrite (Z.add_nocarry_lxor _ _ Hd). symmetry. apply Z.lxor_lor, Hd.
Qed.

Lemma sign_bit res n :
  0 < n -> 0 <= res < 2 ^ n ->
  Z.land (Z.shiftr res (n - 1)) 1 = if res <? 2 ^ (n - 1) then 0 else 1.
Proof.
  intros Hn Hres. rewrite land_1_testbit by lia.
  rewrite (Z.testbit_odd res (n - 1)), Z.shiftr_div_pow2 by lia.
  assert (Hp : 2 ^ n = 2 * 2 ^ (n - 1)).
  { rewrite <- Z.pow_succ_r by lia. f_equal. lia. }
  destruct (res <? 2 ^ (n - 1)) eqn:Hlt.
  - rewrite Z.div_small by lia. reflexivity.
  - assert (Hq : res / 2 ^ (n - 1) = 1)
      by (symmetry; apply Z.div_unique with (r := res - 2 ^ (n - 1)); lia).
    rewrite Hq. reflexivity.
Qed.

(** X30.  Or-ing the sign mask into a loaded byte (resp. halfword) gives
    the 32-bit two's complement pattern of the value read as a signed
    8-bit (resp. 16-bit) number. *)
Theorem signMask_extends (byte : bool) res :
  0 <= res < (if byte then 2 ^ 8 else 2 ^ 16) ->
  Z.lor res (signMask byte res) =
    signedValue (if byte then 8 else 16) res mod 2 ^ 32.
Proof.
  intros Hres. unfold signMask, signedValue.
  destruct byte.
  - change 7 with (8 - 1) at 1. rewrite (sign_bit res 8) by lia.
    destruct (res <? 2 ^ (8 - 1)) eqn:Hlt.
    + rewrite Z.mul_0_r, Z.lor_0_r, Z.mod_small by lia. reflexivity.
    + rewrite Z.mul_1_r, (lor_high res 8) by (try reflexivity; lia).
      apply Z.mod_unique with (q := -1); lia.
  - change 15 with (16 - 1) at 1. rewrite (sign_bit res 16) by lia.
    destruct (res <? 2 ^ (16 - 1)) eqn:Hlt.
    + rewrite Z.mul_0_r, Z.lor_0_r, Z.mod_small by lia. reflexivity.
    + rewrite Z.mul_1_r, (lor_high res 16) by (try reflexivity; lia).
      apply Z.mod_unique with (q := -1); lia.
Qed.

(** ** Instances of the properties above *)

Lemma Memory_get_in_segment_witness :
  exists bytes,
    fst (Memory.get smallMem 5 2 false noBkpt) = Ret (Some bytes) /\
    Z.of_nat (length bytes) = 2 /\
    forall i, 0 <= i < 2 ->
              bytes !! Z.to_nat i = [xbb; xb0] !! Z.to_nat (5 - 5 + i).
Proof.
  apply Memory_get_in_segment with (sec := "B") (e := 7);
    [exact smallMem_wf | reflexivity | reflexivity | reflexivity | lia | lia | lia].
Defined.

Lemma Memory_get_serialize_witness :
  exists bytes img,
    fst (Memory.get smallMem 5 2 false noBkpt) = Ret (Some bytes) /\
    Memory.serialize smallMem = Ret img /\
    forall i, 0 <= i < 2 -> bytes !! Z.to_nat i = img !! Z.to_nat (5 + i).
Proof.
  apply Memory_get_serialize with (sec := "B") (s := 5) (e := 7) (buf := [xbb; xb0]);
    [exact smallMem_wf | reflexivity | reflexivity | reflexivity | lia | lia | lia].
Defined.

Lemma Memory_get_quiet_witness :
  snd (Memory.get demoMem 0x100 4 true noBkpt) = noBkpt.
Proof.
  apply Memory_get_quiet with (sec := "DATA") (offset := 0); [reflexivity|].
  intros a Ha. reflexivity.
Defined.

Lemma Memory_read_watch_witness :
  snd (Memory.get (Memory.setBreakpoint demoMem 0x102 4) 0x100 4 false noBkpt)
    = BreakPointHandler.mk true (Some (mkBkptInfo "memory" 4 (InfoInt 0x102))) /\
  snd (Memory.get (Memory.removeBreakpoint (Memory.setBreakpoint demoMem 0x102 4) 0x102)
         0x100 4 false noBkpt) = noBkpt.
Proof.
  apply Memory_read_watch with (sec := "DATA") (offset := 0);
    [reflexivity | lia | reflexivity | intros b Hb Hne; reflexivity].
Defined.

Lemma Memory_init_wellFormed_witness :
  exists m,
    Memory.init (Memory.data smallMem) (Memory.startAddr smallMem)
      (Memory.endAddr smallMem) = Ret m /\
    MemoryWellFormed m /\
    Memory.startAddr m = Memory.startAddr smallMem /\
    Memory.endAddr m = Memory.endAddr smallMem /\
    Memory.history m = [] /\
    (forall a, Memory.breakpoints m a = 0) /\
    (forall sec, In sec (dict_keys (Memory.startAddr smallMem)) ->
                 dict_get (Memory.data m) sec = dict_get (Memory.data smallMem) sec).
Proof.
  apply Memory_init_wellFormed.
  - apply (bool_decide_unpack _). vm_compute. exact I.
  - apply (bool_decide_unpack _). vm_compute. exact I.
  - intros k. reflexivity.
  - discriminate.
  - intros sec s e Hs He. cbn in *.
    dict_case sec "B"; [injection Hs as <-; injection He as <-; split; [lia|eauto]|].
    dict_case sec "A"; [injection Hs as <-; injection He as <-; split; [lia|eauto]|discriminate].
  - exact (wf_disjoint smallMem smallMem_wf).
Defined.

Lemma Memory_init_errors_witness :
  Memory.init [] [] [] = Raise ValueError /\
  Memory.init [] [] [("A", 4)] = Raise AssertionError /\
  Memory.init [] [("A", 0)] [("A", 4)] = Raise KeyError.
Proof.
  split; [|split].
  - apply (proj1 (Memory_init_errors [] [] [])). reflexivity.
  - apply (proj1 (proj2 (Memory_init_errors [] [] [("A", 4)]))); discriminate.
  - apply (proj2 (proj2 (Memory_init_errors [] [("A", 0)] [("A", 4)])));
      [discriminate | reflexivity | exists "A"; split; [now left | reflexivity]].
Defined.

Lemma shiftVal_LSL_witness :
  _shiftVal 0x80000001 ("LSL", "imm", 1) (demoSim 0 0 false false false false)
    = (Ret (1, 2), demoSim 0 0 false false false false).
Proof. apply (shiftVal_LSL 0x80000001 1). lia. Defined.

Lemma shiftVal_LSR_witness :
  _shiftVal 0x80000001 ("LSR", "imm", 1) (demoSim 0 0 false false false false)
    = (Ret (1, 0x40000000), demoSim 0 0 false false false false).
Proof. apply (shiftVal_LSR 0x80000001 1); lia. Defined.

Lemma shiftVal_ROR_witness :
  exists r,
    _shiftVal 0x80000001 ("ROR", "imm", 4) (demoSim 0 0 false false false false)
      = (Ret (Z.b2z (Z.testbit 0x80000001 (4 - 1)), r),
         demoSim 0 0 false false false false) /\
    0 <= r < 2 ^ 32 /\
    forall i, 0 <= i < 32 -> Z.testbit r i = Z.testbit 0x80000001 ((i + 4) mod 32).
Proof. apply (shiftVal_ROR 0x80000001 4); lia. Defined.

Lemma execute_keeps_flags_witness :
  flags (snd (execute (instr (ldrR1 false)) (demoSim 0x100 7 true false true false)))
    = flags (demoSim 0x100 7 true false true false).
Proof. apply execute_keeps_flags. reflexivity. Defined.

Lemma execDataop_compare_keeps_regs_witness :
  regs (snd (execDataop (mkData 0 (Op2Imm 1 immNoShift) 2 "CMP" true)
               (demoSim 5 6 false false false false)))
    = regs (demoSim 5 6 false false false false).
Proof. apply execDataop_compare_keeps_regs. reflexivity. Defined.

Lemma demoSim_regs32 r0 r1 z v c n :
  0 <= r0 < 2 ^ 32 -> 0 <= r1 < 2 ^ 32 -> regs32 (demoSim r0 r1 z v c n).
Proof.
  intros H0 H1. unfold regs32. cbn. repeat constructor; cbn; lia.
Qed.

Lemma regs32_invariant_witness :
  regs32 (snd (nextInstr (fun _ => Ret (addsR2 1)) (demoSim 0xFFFFFFFF 0 false false false false))) /\
  regs32 (snd (reset (demoSim 0xFFFFFFFF 0 false false false false))).
Proof. apply regs32_invariant. apply demoSim_regs32; lia. Defined.

Lemma nextInstr_before_reset_witness :
  exists e,
    fst (nextInstr (fun _ => Ret (movR0 1 false "AL"))
           (with_countCycle None (demoSim 0 0 false false false false))) = Raise e.
Proof. apply nextInstr_before_reset. reflexivity. Defined.

Lemma shiftVal_zero_amounts_witness :
  _shiftVal 5 ("RRX", "imm", 3) (demoSim 0 0 false false false false)
    = (Ret (0, 5), demoSim 0 0 false false false false).
Proof.
  apply (proj2 (proj2 (proj2
           (shiftVal_zero_amounts 5 (demoSim 0 0 false false false false)))));
    discriminate.
Defined.

Lemma demoMem_wf : MemoryWellFormed demoMem.
Proof.
  constructor.
  - apply (bool_decide_unpack _). vm_compute. exact I.
  - exact demoMem_endsDeclared.
  - intros sec [e He]. cbn in *.
    dict_case sec "INTVEC"; [now left|].
    dict_case sec "DATA"; [right; now left|discriminate].
  - intros sec s Hs. cbn in *.
    dict_case sec "INTVEC"; [injection Hs as <-; lia|].
    dict_case sec "DATA"; [injection Hs as <-; lia|discriminate].
  - intros sec s e Hs He. cbn in *.
    dict_case sec "INTVEC";
      [injection Hs as <-; injection He as <-; eexists; split; reflexivity|].
    dict_case sec "DATA";
      [injection Hs as <-; injection He as <-; eexists; split; reflexivity|discriminate].
  - intros sec1 sec2 s1 e1 s2 e2 Hne H1 H2 H3 H4. cbn in *.
    dict_case sec1 "INTVEC"; dict_case sec2 "INTVEC"; try congruence;
      try (dict_case sec1 "DATA"); try (dict_case sec2 "DATA"); try congruence;
      try discriminate;
      injection H1 as <-; injection H2 as <-; injection H3 as <-; injection H4 as <-; lia.
  - exists "DATA". reflexivity.
  - intros sec e He. cbn in *.
    dict_case sec "INTVEC"; [injection He as <-; lia|].
    dict_case sec "DATA"; [injection He as <-; lia|discriminate].
Qed.

Lemma demoMem_noSegment_above a size :
  0x108 <= a -> 0 < size -> noSegment demoMem a size.
Proof.
  intros Ha Hsize sec s e Hs He. cbn in Hs, He.
  destruct (String.eqb sec "INTVEC").
  - injection Hs as <-. injection He as <-. lia.
  - destruct (String.eqb sec "DATA"); [|discriminate].
    injection Hs as <-. injection He as <-. lia.
Qed.

Lemma smallMem_noSegment_0_4 : noSegment smallMem 0 4.
Proof.
  intros sec s e Hs He. cbn in Hs, He.
  destruct (String.eqb sec "B").
  - injection Hs as <-. injection He as <-. lia.
  - destruct (String.eqb sec "A"); [|discriminate].
    injection Hs as <-. injection He as <-. lia.
Qed.

(** [reset] over an image whose first segment has three bytes only. *)
Lemma reset_unmapped_witness :
  exists s',
    reset (with_mem smallMem (demoSim 5 6 false false false false))
      = (Raise TypeError, s') /\
    breakpointHandler s' =
      BreakPointHandler.mk true (Some (mkBkptInfo "memory" 8 (InfoInt 0))) /\
    state s' = ready /\ countCycle s' = Some 0 /\
    regVal s' 15 = Some 0 /\
    fetchedInstr s' = Some [x01; x10; xa0; xe3].
Proof.
  apply (reset_unmapped (with_mem smallMem (demoSim 5 6 false false false false))
           eq_refl (wf_ends smallMem smallMem_wf) smallMem_noSegment_0_4).
Defined.

(** A load from the unmapped address 0x200 during a step forward latches
    the illegal-address event: the step mode is cleared. *)
Lemma nextInstr_breakpoint_stops_witness :
  stepMode (snd (nextInstr (fun _ => Ret (ldrR1 false))
                   (with_stepMode (Some "forward")
                      (demoSim 0x200 7 false false false false)))) = None /\
  isStepDone (snd (nextInstr (fun _ => Ret (ldrR1 false))
                     (with_stepMode (Some "forward")
                        (demoSim 0x200 7 false false false false))))
    = (Ret true,
       snd (nextInstr (fun _ => Ret (ldrR1 false))
              (with_stepMode (Some "forward")
                 (demoSim 0x200 7 false false false false)))).
Proof.
  apply (nextInstr_breakpoint_stops (fun _ => Ret (ldrR1 false))
           (with_stepMode (Some "forward") (demoSim 0x200 7 false false false false)));
    vm_compute; reflexivity.
Defined.

(** BL to PC + 0x10 from PC = 0. *)
Lemma nextInstr_branch_witness :
  exists s',
    nextInstr (fun _ => Ret (mkDecoded (Branch (mkBranch true "imm" 0x10)) "AL"))
      (demoSim 5 6 false false false false) = (Ret tt, s') /\
    regVal s' 15 = Some 0x10 /\ regVal s' 14 = Some 4 /\
    stepCondition s' = 1 /\ countCycle s' = Some 1.
Proof.
  destruct (nextInstr_branch
              (fun _ => Ret (mkDecoded (Branch (mkBranch true "imm" 0x10)) "AL"))
              (demoSim 5 6 false false false false)
              (mkDecoded (Branch (mkBranch true "imm" 0x10)) "AL")
              true 0x10 (mkReg 14 0) (mkReg 15 0) 0
              eq_refl eq_refl eq_refl eq_refl eq_refl eq_refl
              demoMem_endsDeclared demoMem_dataDeclared eq_refl)
    as (s' & Hrun & Hpc & Hlr & _ & Hstep & _ & _ & _ & Hcc).
  exists s'. split; [exact Hrun|]. split; [exact Hpc|]. split; [exact Hlr|].
  split; [exact Hstep|exact Hcc].
Defined.

Lemma step_forward_over_call_witness :
  exists s1 s2 s3 s4,
    setStepCondition "forward" (demoSim 5 6 false false false false) = (Ret tt, s1) /\
    isStepDone s1 = (Ret true, s1) /\
    execBranch (mkBranch true "imm" 0x10) s1 = (Ret tt, s2) /\
    isStepDone s2 = (Ret false, s3) /\
    stepMode s3 = Some "out" /\ stepCondition s3 = 1 /\
    execBranch (mkBranch false "reg" 14) s3 = (Ret tt, s4) /\
    isStepDone s4 = (Ret true, s4).
Proof.
  apply (step_forward_over_call (demoSim 5 6 false false false false) 0x10
           (mkReg 14 0) (mkReg 15 0) eq_refl eq_refl eq_refl).
Defined.

Lemma init_then_reset_witness :
  exists s0 s1,
    init (Memory.data demoMem) (Memory.startAddr demoMem) (Memory.endAddr demoMem)
      = Ret s0 /\
    state s0 = uninitialized /\ countCycle s0 = None /\
    reset s0 = (Ret tt, s1) /\
    state s1 = ready /\ countCycle s1 = Some 0 /\
    fetchedInstr s1 = Some (take 4 [x01; x10; xa0; xe3; x00; x00; x00; x00]) /\
    breakpointHandler s1 = BreakPointHandler.mk false None /\
    (forall k, (k < 16)%nat -> regVal s1 k = Some 0).
Proof.
  apply (init_then_reset (Memory.data demoMem) (Memory.startAddr demoMem)
           (Memory.endAddr demoMem) "INTVEC" 8).
  - apply (bool_decide_unpack _). vm_compute. exact I.
  - apply (bool_decide_unpack _). vm_compute. exact I.
  - intros k. reflexivity.
  - intros sec s e Hs He.
    split; [exact (wf_start demoMem demoMem_wf sec s Hs)|].
    exact (wf_buffer demoMem demoMem_wf sec s e Hs He).
  - exact (wf_disjoint demoMem demoMem_wf).
  - reflexivity.
  - reflexivity.
  - lia.
  - reflexivity.
Defined.

(** LDR R1, [R0, #4]! with R0 = 0x100. *)
Lemma execMemop_LDR_word_witness :
  exists s',
    execMemop (mkMem 0 (OffsetImm 4) 1 true "LDR" false 1 true)
      (demoSim 0x100 7 false false false false) = (Ret tt, s') /\
    regVal s' 1 = Some 0xccddeeff /\ regVal s' 0 = Some 0x104 /\
    mem s' = demoMem.
Proof.
  destruct (execMemop_LDR_word (demoSim 0x100 7 false false false false)
              0 4 1 true 1 true "DATA" 0x100 0x108
              [x2a; x00; x00; x00; xff; xee; xdd; xcc] (mkReg 0 0x100) (mkReg 1 7)
              demoMem_wf eq_refl eq_refl eq_refl
              ltac:(lia) eq_refl ltac:(lia) eq_refl ltac:(cbn; lia) ltac:(cbn; lia))
    as [_ [h Hrun]].
  eexists. split; [exact Hrun|]. repeat split.
Defined.

(** LDR R1, [R0] with R0 = 0x200. *)
Lemma execMemop_LDR_unmapped_witness :
  execMemop (mkMem 0 (OffsetImm 0) 1 true "LDR" false 1 true)
    (demoSim 0x200 7 false false false false) =
    (Ret tt,
     with_bkpt (BreakPointHandler.mk true
                  (Some (mkBkptInfo "memory" 8 (InfoInt 0x200))))
       (demoSim 0x200 7 false false false false)).
Proof.
  apply (execMemop_LDR_unmapped (demoSim 0x200 7 false false false false)
           0 0 1 true false 1 true (mkReg 0 0x200)
           demoMem_endsDeclared ltac:(lia) eq_refl).
  apply demoMem_noSegment_above; cbn; lia.
Defined.

(** STR R1, [R0] with R0 = 0x100. *)
Lemma execMemop_STR_mapped_witness :
  exists s',
    execMemop (mkMem 0 (OffsetImm 0) 1 true "STR" false 1 true)
      (demoSim 0x100 0x12345678 false false false false) = (Raise TypeError, s') /\
    regs s' = regs (demoSim 0x100 0x12345678 false false false false) /\
    Memory.data (mem s') = Memory.data demoMem /\
    Memory.history (mem s') = [("DATA", 0, 4, 0x12345678)].
Proof.
  destruct (execMemop_STR_mapped (demoSim 0x100 0x12345678 false false false false)
              0 0 1 true false 1 true "DATA" 0x100 0x108
              [x2a; x00; x00; x00; xff; xee; xdd; xcc]
              (mkReg 0 0x100) (mkReg 1 0x12345678)
              demoMem_wf eq_refl eq_refl eq_refl
              ltac:(lia) eq_refl ltac:(lia) eq_refl ltac:(cbn; lia) ltac:(cbn; lia))
    as (s' & Hrun & Hregs & _ & Hdata & Hhist).
  exists s'. split; [exact Hrun|]. split; [exact Hregs|]. split; [exact Hdata|].
  exact Hhist.
Defined.

(** STR R1, [R0, #4]! with R0 = 0x200. *)
Lemma execMemop_STR_unmapped_witness :
  exists s',
    execMemop (mkMem 0 (OffsetImm 4) 1 true "STR" false 1 true)
      (demoSim 0x200 7 false false false false) = (Ret tt, s') /\
    regVal s' 0 = Some 0x204 /\ mem s' = demoMem /\
    BreakPointHandler.breakpointTrigged (breakpointHandler s') = true.
Proof.
  destruct (execMemop_STR_unmapped (demoSim 0x200 7 false false false false)
              0 4 1 true false 1 true (mkReg 0 0x200) (mkReg 1 7)
              demoMem_endsDeclared ltac:(lia) eq_refl ltac:(lia) eq_refl
              ltac:(apply demoMem_noSegment_above; cbn; lia))
    as (h & Hrun & Htrig & _).
  eexists. split; [exact Hrun|]. split; [reflexivity|]. split; [reflexivity|].
  exact Htrig.
Defined.

(** SUB R2, R0, #1 with R0 = 0 wraps around. *)
Lemma execDataop_table_witness :
  exists s',
    execDataop (mkData 0 (Op2Imm 1 immNoShift) 2 "SUB" false)
      (demoSim 0 6 false false false false) = (Ret tt, s') /\
    regVal s' 2 = Some 0xFFFFFFFF /\
    flags s' = flags (demoSim 0 6 false false false false).
Proof.
  destruct (execDataop_table 0 2 "SUB" 1 "ROR" "imm"
              (demoSim 0 6 false false false false) (mkReg 0 0) (mkReg 2 0) (0 - 1)
              ltac:(lia) eq_refl ltac:(lia) eq_refl
              ltac:(right; left; reflexivity))
    as [h Hrun].
  eexists. split; [exact Hrun|]. split; reflexivity.
Defined.

(** ADDS R2, R0, #1 with R0 = 0xFFFFFFFF. *)
Lemma execDataop_ADDS_carry_witness :
  exists s',
    execDataop (mkData 0 (Op2Imm 1 immNoShift) 2 "ADD" true)
      (demoSim 0xFFFFFFFF 6 false false false false) = (Ret tt, s') /\
    regVal s' 2 = Some 0 /\ flagVal s' FC = true.
Proof.
  destruct (execDataop_ADDS_carry 0 2 1 "ROR" "imm"
              (demoSim 0xFFFFFFFF 6 false false false false)
              (mkReg 0 0xFFFFFFFF) (mkReg 2 0)
              ltac:(lia) eq_refl ltac:(lia) eq_refl ltac:(cbn; lia) ltac:(lia))
    as (s' & Hrun & Hregs & Hc & _).
  exists s'. split; [exact Hrun|]. split; [|exact Hc].
  unfold regVal. rewrite Hregs. reflexivity.
Defined.

(** LDRH R1, [R0, #4] *)
Lemma decode_fields_witness :
  exists d,
    HalfSignedMemOp.decode 0xE1D010B4 = Ret d /\
    0 <= HalfSignedMemOp.basereg d < 16 /\
    0 <= HalfSignedMemOp.rd d < 16 /\
    (HalfSignedMemOp.sign d = 1 \/ HalfSignedMemOp.sign d = -1) /\
    (HalfSignedMemOp.mode d = "LDR" \/ HalfSignedMemOp.mode d = "STR") /\
    (HalfSignedMemOp.pre d = false -> HalfSignedMemOp.writeback d = true) /\
    (if HalfSignedMemOp.imm d
     then HalfSignedMemOp.offsetReg d = None /\
          exists o, HalfSignedMemOp.offsetImm d = Some o /\
                    0 <= o < 256 /\ Z.land o 0xE1D010B4 = o
     else HalfSignedMemOp.offsetImm d = None /\
          exists r, HalfSignedMemOp.offsetReg d = Some r /\ 0 <= r < 16).
Proof.
  eexists. split; [reflexivity|].
  apply (decode_fields 0xE1D010B4). reflexivity.
Defined.

(** The byte 0x80 is -128. *)
Lemma signMask_extends_witness :
  Z.lor 0x80 (signMask true 0x80) = signedValue 8 0x80 mod 2 ^ 32 /\
  signedValue 8 0x80 = -128.
Proof.
  split; [apply (signMask_extends true 0x80); cbn; lia|reflexivity].
Defined.
